(** * clever_flight_routines: takeoff, point reaching, route recording,
      route loading and route playback

    A shallow embedding of [clever_flight_routines/__init__.py].  The Python
    routines talk to the flight middleware through ROS service proxies, poll
    [threading.Event] flags, sleep, log and touch one CSV file; they are
    modelled as computations in a small monad that threads a world (a clock
    and a file system), reads an environment (what the services and the flags
    answer at each instant), emits the list of observable actions and ends in
    an outcome.  Python floats are IEEE binary64 numbers: Rocq's primitive
    floats. *)

From Stdlib Require Import ZArith List String Ascii Bool Arith Lia.
From Stdlib Require Import Floats Uint63 DecimalString.
Import ListNotations.

Local Open Scope string_scope.
Local Open Scope list_scope.

(* ===================================================================== *)
(** ** Python values, exceptions and outcomes                              *)
(* ===================================================================== *)

Module Py.

(** The exceptions the modelled statements can raise. *)
Inductive exn : Type :=
| OverflowError     (* float ** 2 out of range *)
| ValueError        (* math.sqrt of a negative, float() of a bad string,
                       unpacking a row that has not three fields, a delay
                       time.sleep does not take *)
| CsvError.         (* _csv.Error *)

(** How a statement ends.  [Returned] is a [return] statement that ran inside
    a loop: it unwinds to the enclosing function.  [OutOfFuel] is not a Python
    outcome: the loop was still running when the iterations granted to the
    model were used up. *)
Inductive outcome (A : Type) : Type :=
| Normal (a : A)
| Returned
| Raised (e : exn)
| OutOfFuel.

Arguments Normal {A} a.
Arguments Returned {A}.
Arguments Raised {A} e.
Arguments OutOfFuel {A}.

End Py.
Import Py.

(* ===================================================================== *)
(** ** Messages of the gateway, log lines and observable actions          *)
(* ===================================================================== *)

(** [srv.GetTelemetry]'s response, reduced to the fields the module reads. *)
Record telemetry : Type := Telemetry {
  telem_x : float;
  telem_y : float;
  telem_z : float
}.

(** [srv.Navigate]'s request.  A field the caller leaves out of the keyword
    arguments keeps the message's default: [auto_arm] is then [false]. *)
Record navigate_request : Type := NavigateRequest {
  nav_x : float;
  nav_y : float;
  nav_z : float;
  nav_yaw : float;
  nav_speed : float;
  nav_frame_id : string;
  nav_auto_arm : bool
}.

Record navigate_response : Type := NavigateResponse {
  nav_success : bool;
  nav_message : string
}.

(** One waypoint of a route: the dict [{'x': .., 'y': .., 'z': ..}]. *)
Record point : Type := Point {
  point_x : float;
  point_y : float;
  point_z : float
}.

(** The keyword arguments [fly_route] passes to its flight function. *)
Record flight_args : Type := FlightArgs {
  arg_x : float;
  arg_y : float;
  arg_z : float;
  arg_speed : float;
  arg_frame_id : string
}.

Inductive level : Type := DEBUG | INFO | ERROR.

(** The log lines, by template; the numbers are kept, not formatted. *)
Inductive message : Type :=
| TakeoffStarted
| TakeoffProgress (climb height : float)
| TakeoffSucceeded
| ReachingPoint (x y z : float)
| ServiceResult (result : navigate_response)
| DistanceRemaining (delta : float)
| PointReached
| OpenFile (filename : string)
| AddPoint (x y z : float) (filename : string)
| RouteCreated (filename : string)
| CantOpen (filename : string).

(** Observable actions, in the order they happen.  A call of the flight
    function handed to [fly_route] is one action that holds the callee's own
    actions. *)
#[warnings="-register-all"]
Inductive event : Type :=
| EvLog (lvl : level) (msg : message)
| EvGetTelemetry (frame_id : string) (reply : telemetry)
| EvNavigate (request : navigate_request) (reply : navigate_response)
| EvRateSleep (hz : nat)
| EvTimeSleep (delay : float)
| EvIsSet (trigger : nat) (state : bool)
| EvOpenWrite (filename : string)
| EvWriteRow (filename : string) (row : list float)
| EvCall (args : flight_args) (inner : list event).

(* ===================================================================== *)
(** ** The world, the environment and the monad                           *)
(* ===================================================================== *)

(** What the outside answers.  Instants count the interactions a routine has
    had with the outside (a service call, a flag read, a sleep): each happens
    at its own instant, so a flag may change between any two reads.
    [threading.Event] objects are named by a number; two parameters can name
    the same object.  The services always answer: a call that fails raises in
    the caller and ends the routine there, and such runs are left out.
    [sleep_accepts] tells the delays [time.sleep] takes (it raises for a
    negative one, for NaN and for one too large), [universal_newlines]
    whether text files are read with newline translation (Python 3) or as
    they are (Python 2). *)
Record Env : Type := {
  event_state : nat -> nat -> bool;
  telemetry_reply : string -> nat -> telemetry;
  navigate_reply : navigate_request -> nat -> navigate_response;
  sleep_accepts : float -> bool;
  universal_newlines : bool
}.

(** [fs name] is the text of the file, [None] when it cannot be opened for
    reading. *)
Record World : Type := {
  now : nat;
  fs : string -> option string
}.

Record result (A : Type) : Type := Result {
  emitted : list event;
  out : outcome A;
  final : World
}.

Arguments Result {A} emitted out final.
Arguments emitted {A} r.
Arguments out {A} r.
Arguments final {A} r.

Definition M (A : Type) : Type := Env -> World -> result A.

Definition ret {A} (a : A) : M A :=
  fun _ w => Result [] (Normal a) w.

Definition bind {A B} (m : M A) (k : A -> M B) : M B :=
  fun env w =>
    match m env w with
    | Result t (Normal a) w1 =>
        match k a env w1 with
        | Result t' o w2 => Result (t ++ t') o w2
        end
    | Result t Returned w1 => Result t Returned w1
    | Result t (Raised e) w1 => Result t (Raised e) w1
    | Result t OutOfFuel w1 => Result t OutOfFuel w1
    end.

Declare Scope py_scope.
Delimit Scope py_scope with py.
Notation "x <- m ;; k" := (bind m (fun x => k))
  (at level 61, m at next level, right associativity) : py_scope.
Notation "m ;; k" := (bind m (fun _ => k))
  (at level 61, right associativity) : py_scope.
Local Open Scope py_scope.

Definition raise {A} (e : exn) : M A :=
  fun _ w => Result [] (Raised e) w.

(** The [return] statement inside a loop. *)
Definition return_ {A} : M A :=
  fun _ w => Result [] Returned w.

Definition out_of_fuel {A} : M A :=
  fun _ w => Result [] OutOfFuel w.

(** A pure expression that may raise. *)
Definition lift {A} (o : outcome A) : M A :=
  fun _ w => Result [] o w.

(** The body of a function whose loops contain [return]: the function
    returns [None] there. *)
Definition function_body (m : M unit) : M unit :=
  fun env w =>
    match m env w with
    | Result t Returned w1 => Result t (Normal tt) w1
    | r => r
    end.

Definition tick (w : World) : World :=
  {| now := S (now w); fs := fs w |}.

(** [while cond: body], with the loop's variables in [s].  [fuel] bounds the
    number of times the body runs; the test itself needs none. *)
Fixpoint while {S : Type} (fuel : nat) (cond : S -> M bool) (body : S -> M S) (s : S)
  : M S :=
  b <- cond s ;;
  if b then
    match fuel with
    | O => out_of_fuel
    | Datatypes.S fuel' => s' <- body s ;; while fuel' cond body s'
    end
  else ret s.

(** [for a in l: body]. *)
Fixpoint for_each {A : Type} (l : list A) (body : A -> M unit) : M unit :=
  match l with
  | [] => ret tt
  | a :: l' => body a ;; for_each l' body
  end.

(* ===================================================================== *)
(** ** The primitives the module calls                                    *)
(* ===================================================================== *)

Definition log (lvl : level) (msg : message) : M unit :=
  fun _ w => Result [EvLog lvl msg] (Normal tt) w.

(** [rospy.loginfo], [rospy.logdebug] and [logging.error]. *)
Definition loginfo := log INFO.
Definition logdebug := log DEBUG.
Definition logging_error := log ERROR.

(** [get_telemetry(frame_id=...)] *)
Definition get_telemetry (frame_id : string) : M telemetry :=
  fun env w =>
    let reply := telemetry_reply env frame_id (now w) in
    Result [EvGetTelemetry frame_id reply] (Normal reply) (tick w).

(** [navigate(...)] *)
Definition navigate (request : navigate_request) : M navigate_response :=
  fun env w =>
    let reply := navigate_reply env request (now w) in
    Result [EvNavigate request reply] (Normal reply) (tick w).

(** [rate.sleep()] for [rate = rospy.Rate(hz)] *)
Definition rate_sleep (hz : nat) : M unit :=
  fun _ w => Result [EvRateSleep hz] (Normal tt) (tick w).

(** [time.sleep(delay)] *)
Definition time_sleep (delay : float) : M unit :=
  fun env w =>
    if sleep_accepts env delay
    then Result [EvTimeSleep delay] (Normal tt) (tick w)
    else Result [] (Raised ValueError) w.

(** [trigger.is_set()] *)
Definition is_set (trigger : nat) : M bool :=
  fun env w =>
    let b := event_state env trigger (now w) in
    Result [EvIsSet trigger b] (Normal b) (tick w).

(** Calling the flight function: the call and what the callee did. *)
Definition call (flight_function : flight_args -> M unit) (args : flight_args) : M unit :=
  fun env w =>
    match flight_function args env w with
    | Result t o w1 => Result [EvCall args t] o w1
    end.

(* ===================================================================== *)
(** ** Globals                                                            *)
(* ===================================================================== *)

Definition FREQUENCY : nat := 10.
(** 0.2, the binary64 number the literal denotes *)
Definition TOLERANCE : float := 0x1.999999999999ap-3%float.
Definition SPEED : float := 1%float.
Definition TAKEOFF_SPEED : float := 1%float.
Definition TAKEOFF_HEIGHT : float := 1%float.
Definition LOCAL_FRAME_ID : string := "map".
Definition COPTER_FRAME_ID : string := "body".

(* ===================================================================== *)
(** ** Arrival polling: [get_distance], [takeoff], [reach_point]          *)
(* ===================================================================== *)

(** [d ** 2] on a float: the product, and [OverflowError] when a finite [d]
    gives an infinite square. *)
Definition float_pow2 (d : float) : outcome float :=
  let r := (d * d)%float in
  if PrimFloat.is_infinity r && negb (PrimFloat.is_infinity d)
  then Raised OverflowError else Normal r.

(** [math.sqrt] *)
Definition math_sqrt (a : float) : outcome float :=
  if (a <? 0)%float then Raised ValueError else Normal (PrimFloat.sqrt a).

Definition bind_pure {A B} (o : outcome A) (k : A -> outcome B) : outcome B :=
  match o with
  | Normal a => k a
  | Returned => Returned
  | Raised e => Raised e
  | OutOfFuel => OutOfFuel
  end.

Definition get_distance (x1 y1 z1 x2 y2 z2 : float) : outcome float :=
  bind_pure (float_pow2 (x1 - x2)) (fun dx =>
  bind_pure (float_pow2 (y1 - y2)) (fun dy =>
  bind_pure (float_pow2 (z1 - z2)) (fun dz =>
  math_sqrt (dx + dy + dz)))).

(** The test of [takeoff]'s loop: [abs(climb - height) > tolerance]. *)
Definition still_climbing (height tolerance climb : float) : bool :=
  (tolerance <? PrimFloat.abs (climb - height))%float.

(** The loop of [takeoff]; the loop variable is [climb]. *)
Definition takeoff_loop (fuel : nat) (height tolerance : float) (frame_id : string)
    (start : telemetry) (climb : float) : M float :=
  while fuel
    (fun climb => ret (still_climbing height tolerance climb))
    (fun _ =>
       telem <- get_telemetry frame_id ;;
       let climb := PrimFloat.abs (telem_z telem - telem_z start) in
       logdebug (TakeoffProgress climb height) ;;
       rate_sleep FREQUENCY ;;
       ret climb)
    climb.

Definition takeoff (fuel : nat) (height speed tolerance : float) (frame_id : string)
  : M unit :=
  loginfo TakeoffStarted ;;
  start <- get_telemetry frame_id ;;
  let climb := 0%float in
  result <- navigate {| nav_x := telem_x start; nav_y := telem_y start;
                        nav_z := telem_z start + height; nav_speed := speed;
                        nav_yaw := nan; nav_frame_id := frame_id;
                        nav_auto_arm := true |} ;;
  logdebug (ServiceResult result) ;;
  takeoff_loop fuel height tolerance frame_id start climb ;;
  loginfo TakeoffSucceeded.

(** The test of [reach_point]'s loop: [delta > tolerance]. *)
Definition keep_polling (tolerance delta : float) : bool :=
  (tolerance <? delta)%float.

(** The loop of [reach_point]; the loop variable is [delta]. *)
Definition reach_loop (fuel : nat) (x y z tolerance : float) (frame_id : string)
    (delta : float) : M float :=
  while fuel
    (fun delta => ret (keep_polling tolerance delta))
    (fun _ =>
       telem <- get_telemetry frame_id ;;
       delta <- lift (get_distance x y z (telem_x telem) (telem_y telem) (telem_z telem)) ;;
       logdebug (DistanceRemaining delta) ;;
       rate_sleep FREQUENCY ;;
       ret delta)
    delta.

Definition reach_point (fuel : nat) (x y z yaw speed tolerance : float)
    (frame_id : string) : M unit :=
  loginfo (ReachingPoint x y z) ;;
  telem <- get_telemetry frame_id ;;
  result <- navigate {| nav_x := x; nav_y := y; nav_z := z; nav_yaw := yaw;
                        nav_speed := speed; nav_frame_id := frame_id;
                        nav_auto_arm := false |} ;;
  logdebug (ServiceResult result) ;;
  delta <- lift (get_distance x y z (telem_x telem) (telem_y telem) (telem_z telem)) ;;
  reach_loop fuel x y z tolerance frame_id delta ;;
  loginfo PointReached.

(* ===================================================================== *)
(** ** The CSV dialects of the recorder and of the loader                 *)
(* ===================================================================== *)

(** Python's [csv] module as this program uses it: the writer with
    [delimiter=','], the double quote as [quotechar] and [QUOTE_MINIMAL], the reader with
    [delimiter=','] and [quotechar='|']; both with the defaults
    [doublequote=True], [escapechar=None], [skipinitialspace=False],
    [strict=False] and the line terminator CR LF. *)
Module Csv.

Definition CR : ascii := ascii_of_nat 13.
Definition LF : ascii := ascii_of_nat 10.
Definition NUL : ascii := ascii_of_nat 0.
Definition double_quote : ascii := ascii_of_nat 34.

Record dialect : Type := {
  delimiter : ascii;
  quotechar : ascii
}.

Definition writer_dialect : dialect :=
  {| delimiter := ","%char; quotechar := double_quote |}.

Definition reader_dialect : dialect :=
  {| delimiter := ","%char; quotechar := "|"%char |}.

Definition lineterminator : string := String CR (String LF "").

Definition field_limit : Z := 131072.

Definition is_newline (c : ascii) : bool :=
  Ascii.eqb c CR || Ascii.eqb c LF.

Fixpoint string_exists (p : ascii -> bool) (s : string) : bool :=
  match s with
  | EmptyString => false
  | String c s' => p c || string_exists p s'
  end.

(** *** The writer *)

(** A character that makes [QUOTE_MINIMAL] quote the field. *)
Definition special (d : dialect) (c : ascii) : bool :=
  Ascii.eqb c (delimiter d) || Ascii.eqb c (quotechar d) || is_newline c.

Fixpoint double_quotes (d : dialect) (s : string) : string :=
  match s with
  | EmptyString => EmptyString
  | String c s' =>
      if Ascii.eqb c (quotechar d)
      then String c (String c (double_quotes d s'))
      else String c (double_quotes d s')
  end.

Definition quoted (d : dialect) (s : string) : string :=
  String (quotechar d) (double_quotes d s ++ String (quotechar d) "").

Definition write_field (d : dialect) (s : string) : string :=
  if string_exists (special d) s then quoted d s else s.

Fixpoint join_fields (d : dialect) (fields : list string) : string :=
  match fields with
  | [] => ""
  | [f] => write_field d f
  | f :: fs => write_field d f ++ String (delimiter d) (join_fields d fs)
  end.

(** The text [writerow] writes; a row of one empty field is written quoted. *)
Definition format_row (d : dialect) (fields : list string) : string :=
  match fields with
  | [EmptyString] => quoted d "" ++ lineterminator
  | _ => join_fields d fields ++ lineterminator
  end.

(** *** The reader *)

(** The states of the parser; the two states of an escape character are left
    out, the dialect has none. *)
Inductive parser_state : Type :=
| START_RECORD
| START_FIELD
| IN_FIELD
| IN_QUOTED_FIELD
| QUOTE_IN_QUOTED_FIELD
| EAT_CRNL.

Record reader : Type := {
  state : parser_state;
  field : string;
  fields : list string
}.

Definition parse_reset : reader :=
  {| state := START_RECORD; field := ""; fields := [] |}.

Definition set_state (r : reader) (st : parser_state) : reader :=
  {| state := st; field := field r; fields := fields r |}.

Definition parse_save_field (r : reader) : reader :=
  {| state := state r; field := ""; fields := fields r ++ [field r] |}.

Definition parse_add_char (r : reader) (c : ascii) : outcome reader :=
  if (field_limit <=? Z.of_nat (String.length (field r)))%Z then Raised CsvError
  else Normal {| state := state r; field := field r ++ String c "";
                 fields := fields r |}.

Definition after_line_end (c : option ascii) : parser_state :=
  match c with
  | None => START_RECORD
  | Some _ => EAT_CRNL
  end.

Definition ends_line (c : option ascii) : bool :=
  match c with
  | None => true
  | Some a => is_newline a
  end.

Definition is_char (c : option ascii) (a : ascii) : bool :=
  match c with
  | None => false
  | Some b => Ascii.eqb b a
  end.

Definition start_field (d : dialect) (r : reader) (c : option ascii) : outcome reader :=
  if ends_line c then
    Normal (set_state (parse_save_field r) (after_line_end c))
  else if is_char c (quotechar d) then
    Normal (set_state r IN_QUOTED_FIELD)
  else if is_char c (delimiter d) then
    Normal (parse_save_field r)
  else
    match c with
    | Some a => bind_pure (parse_add_char r a) (fun r' => Normal (set_state r' IN_FIELD))
    | None => Normal r
    end.

(** One step of the parser; [None] is the mark the reader feeds after the
    last character of each line. *)
Definition parse_process_char (d : dialect) (r : reader) (c : option ascii)
  : outcome reader :=
  match state r with
  | START_RECORD =>
      match c with
      | None => Normal r
      | Some a =>
          if is_newline a then Normal (set_state r EAT_CRNL)
          else start_field d (set_state r START_FIELD) c
      end
  | START_FIELD => start_field d r c
  | IN_FIELD =>
      if ends_line c then
        Normal (set_state (parse_save_field r) (after_line_end c))
      else if is_char c (delimiter d) then
        Normal (set_state (parse_save_field r) START_FIELD)
      else
        match c with
        | Some a => parse_add_char r a
        | None => Normal r
        end
  | IN_QUOTED_FIELD =>
      match c with
      | None => Normal r
      | Some a =>
          if Ascii.eqb a (quotechar d) then Normal (set_state r QUOTE_IN_QUOTED_FIELD)
          else parse_add_char r a
      end
  | QUOTE_IN_QUOTED_FIELD =>
      if is_char c (quotechar d) then
        match c with
        | Some a => bind_pure (parse_add_char r a) (fun r' => Normal (set_state r' IN_QUOTED_FIELD))
        | None => Normal r
        end
      else if is_char c (delimiter d) then
        Normal (set_state (parse_save_field r) START_FIELD)
      else if ends_line c then
        Normal (set_state (parse_save_field r) (after_line_end c))
      else
        match c with
        | Some a => bind_pure (parse_add_char r a) (fun r' => Normal (set_state r' IN_FIELD))
        | None => Normal r
        end
  | EAT_CRNL =>
      match c with
      | None => Normal (set_state r START_RECORD)
      | Some a => if is_newline a then Normal r else Raised CsvError
      end
  end.

(** One line of the input: its characters (a NUL is an error), then the
    end-of-line mark. *)
Fixpoint feed_line (d : dialect) (r : reader) (line : string) : outcome reader :=
  match line with
  | EmptyString => parse_process_char d r None
  | String c rest =>
      if Ascii.eqb c NUL then Raised CsvError
      else bind_pure (parse_process_char d r (Some c)) (fun r' => feed_line d r' rest)
  end.

(** At the end of the input a record is still pending when a field has
    characters or a quoted field is open. *)
Definition pending (r : reader) : bool :=
  negb (Nat.eqb (String.length (field r)) 0) ||
  match state r with IN_QUOTED_FIELD => true | _ => false end.

(** [for row in csv.reader(lines): acc = body(row, acc)]: the reader takes
    lines until a record is complete, the body runs on it, and so on. *)
Fixpoint for_rows {Acc : Type} (d : dialect) (lines : list string) (r : reader)
    (body : list string -> Acc -> outcome Acc) (acc : Acc) : outcome Acc :=
  match lines with
  | [] =>
      if pending r then body (fields (parse_save_field r)) acc else Normal acc
  | line :: rest =>
      bind_pure (feed_line d r line) (fun r' =>
        match state r' with
        | START_RECORD =>
            bind_pure (body (fields r') acc) (fun acc' =>
              for_rows d rest parse_reset body acc')
        | _ => for_rows d rest r' body acc
        end)
  end.

(** *** The lines of a text file *)

(** Universal newlines (Python 3's text mode): CR LF and a lone CR are read
    as LF. *)
Fixpoint translate_newlines (after_cr : bool) (s : string) : string :=
  match s with
  | EmptyString => EmptyString
  | String c s' =>
      if Ascii.eqb c CR then String LF (translate_newlines true s')
      else if Ascii.eqb c LF && after_cr then translate_newlines false s'
      else String c (translate_newlines false s')
  end.

(** Iterating over a file yields its lines, each with its LF. *)
Fixpoint lines_of (s : string) : list string :=
  match s with
  | EmptyString => []
  | String c s' =>
      if Ascii.eqb c LF then String c "" :: lines_of s'
      else
        match lines_of s' with
        | [] => [String c ""]
        | l :: ls => String c l :: ls
        end
  end.

Definition file_lines (universal : bool) (text : string) : list string :=
  lines_of (if universal then translate_newlines false text else text).

End Csv.

(* ===================================================================== *)
(** ** Route recording, loading and playback                              *)
(* ===================================================================== *)

(** The text of a float, as [repr] writes it and [float] reads it.  Both are
    the interpreter's; the routines only pass numbers through them. *)
Class FloatText : Type := {
  float_repr : float -> string;
  float_of_string : string -> option float
}.

Section Routes.

Context {float_text : FloatText}.

(** [open(filename, mode='w+')]: the file is created or emptied. *)
Definition open_write (filename : string) : M unit :=
  fun _ w =>
    Result [EvOpenWrite filename] (Normal tt)
      {| now := now w;
         fs := fun f => if String.eqb f filename then Some "" else fs w f |}.

Definition content (w : World) (filename : string) : string :=
  match fs w filename with
  | Some text => text
  | None => ""
  end.

(** [csv_writer.writerow(row)] on the file opened under [filename]; the
    csv module writes a float as its [repr]. *)
Definition writerow (filename : string) (row : list float) : M unit :=
  fun _ w =>
    let line := Csv.format_row Csv.writer_dialect (map float_repr row) in
    Result [EvWriteRow filename row] (Normal tt)
      {| now := now w;
         fs := fun f => if String.eqb f filename
                        then Some (content w filename ++ line)%string else fs w f |}.

(** The loop [while not add_trigger.is_set()] of [create_route]. *)
Definition wait_for_add (fuel : nat) (filename : string) (add_trigger stop_trigger : nat)
  : M unit :=
  while fuel
    (fun _ => b <- is_set add_trigger ;; ret (negb b))
    (fun _ =>
       s <- is_set stop_trigger ;;
       if s then loginfo (RouteCreated filename) ;; return_
       else rate_sleep FREQUENCY)
    tt.

(** The loop [while add_trigger.is_set()] of [create_route]. *)
Definition wait_for_release (fuel : nat) (filename : string) (add_trigger stop_trigger : nat)
  : M unit :=
  while fuel
    (fun _ => is_set add_trigger)
    (fun _ =>
       s <- is_set stop_trigger ;;
       if s then loginfo (RouteCreated filename) ;; return_
       else rate_sleep FREQUENCY)
    tt.

(** One turn of the loop [while not stop_trigger.is_set()]. *)
Definition record_point (fuel : nat) (filename : string) (add_trigger stop_trigger : nat)
    (frame_id : string) : M unit :=
  wait_for_add fuel filename add_trigger stop_trigger ;;
  telem <- get_telemetry frame_id ;;
  writerow filename [telem_x telem; telem_y telem; telem_z telem] ;;
  loginfo (AddPoint (telem_x telem) (telem_y telem) (telem_z telem) filename) ;;
  wait_for_release fuel filename add_trigger stop_trigger.

Definition recording_loop (fuel : nat) (filename : string) (add_trigger stop_trigger : nat)
    (frame_id : string) : M unit :=
  while fuel
    (fun _ => s <- is_set stop_trigger ;; ret (negb s))
    (fun _ => record_point fuel filename add_trigger stop_trigger frame_id)
    tt.

Definition create_route (fuel : nat) (filename : string) (add_trigger stop_trigger : nat)
    (frame_id : string) : M unit :=
  function_body (
    open_write filename ;;
    loginfo (OpenFile filename) ;;
    recording_loop fuel filename add_trigger stop_trigger frame_id ;;
    loginfo (RouteCreated filename)).

(** [open(filename)] under [try: ... except IOError:]. *)
Definition open_read (filename : string) : M (option string) :=
  fun _ w => Result [] (Normal (fs w filename)) w.

(** [float(s)] *)
Definition float_ (s : string) : outcome float :=
  match float_of_string s with
  | Some v => Normal v
  | None => Raised ValueError
  end.

(** The body of [for row in csv_reader]. *)
Definition import_row (row : list string) (imported_points : list point)
  : outcome (list point) :=
  match row with
  | [x; y; z] =>
      bind_pure (float_ x) (fun x =>
      bind_pure (float_ y) (fun y =>
      bind_pure (float_ z) (fun z =>
      Normal (imported_points ++ [{| point_x := x; point_y := y; point_z := z |}]))))
  | _ => Raised ValueError
  end.

(** [read_route]; the result is [None] where the Python function falls off
    its end. *)
Definition read_route (filename : string) : M (option (list point)) :=
  let imported_points := [] in
  csv_file <- open_read filename ;;
  match csv_file with
  | None =>
      logging_error (CantOpen filename) ;;
      ret None
  | Some text =>
      fun env =>
        (imported_points <-
           lift (Csv.for_rows Csv.reader_dialect
                   (Csv.file_lines (universal_newlines env) text)
                   Csv.parse_reset import_row imported_points) ;;
         ret (Some imported_points)) env
  end.

(** [fly_route]; [flight_function] is called with the keyword arguments
    [x], [y], [z], [speed] and [frame_id], and what it returns is dropped. *)
Definition fly_route (route : list point) (flight_function : flight_args -> M unit)
    (z delay speed : float) (frame_id : string) : M unit :=
  for_each route (fun point =>
    let z_result := point_z point in
    let z_result := if negb (PrimFloat.is_nan z) then z else z_result in
    call flight_function {| arg_x := point_x point; arg_y := point_y point;
                            arg_z := z_result; arg_speed := speed;
                            arg_frame_id := frame_id |} ;;
    time_sleep delay).

End Routes.

(* ===================================================================== *)
(** ** A text for floats, to run the model                                *)
(* ===================================================================== *)

(** Plain decimal notation.  [repr_exact] prints the exact decimal expansion
    of a binary64 number, which is what [repr] prints for numbers such as
    [4.5] or [-1.25]; [float_plain] reads a sign, digits and a fraction when
    the digits fit the 53 bits of the significand, where one correctly
    rounded division gives the nearest float, and refuses other strings. *)
Module DecimalText.

Definition digits (n : N) : string :=
  NilZero.string_of_uint (N.to_uint n).

Fixpoint string_rev (acc s : string) : string :=
  match s with
  | EmptyString => acc
  | String c s' => string_rev (String c acc) s'
  end.

Fixpoint drop_zeros (s : string) : string :=
  match s with
  | String "0"%char s' => drop_zeros s'
  | _ => s
  end.

Fixpoint zeros (n : nat) : string :=
  match n with
  | O => ""
  | S n' => String "0"%char (zeros n')
  end.

(** The [k] digits of the fraction [n / 10^k], without the zeros at its end
    but for one. *)
Definition fraction (n : N) (k : nat) : string :=
  let d := digits n in
  let padded := (zeros (k - String.length d) ++ d)%string in
  match string_rev "" (drop_zeros (string_rev "" padded)) with
  | EmptyString => "0"
  | s => s
  end.

Definition magnitude (m : positive) (e : Z) : string :=
  match e with
  | Z0 => (digits (Npos m) ++ ".0")%string
  | Zpos p => (digits (Npos m * 2 ^ Npos p) ++ ".0")%string
  | Zneg p =>
      let k := Pos.to_nat p in
      let n := (Npos m * 5 ^ Npos p)%N in
      let unit := (10 ^ Npos p)%N in
      (digits (n / unit) ++ "." ++ fraction (n mod unit) k)%string
  end.

Definition signed (s : bool) (text : string) : string :=
  if s then String "-"%char text else text.

Definition repr_exact (f : float) : string :=
  match Prim2SF f with
  | S754_zero s => signed s "0.0"
  | S754_infinity s => signed s "inf"
  | S754_nan => "nan"
  | S754_finite s m e => signed s (magnitude m e)
  end.

Fixpoint split_at_point (s : string) : string * option string :=
  match s with
  | EmptyString => (EmptyString, None)
  | String "."%char s' => (EmptyString, Some s')
  | String c s' =>
      let (whole, frac) := split_at_point s' in (String c whole, frac)
  end.

Definition natural (s : string) : option N :=
  match s with
  | EmptyString => None
  | _ => option_map N.of_uint (NilEmpty.uint_of_string s)
  end.

Definition of_N (n : N) : float :=
  PrimFloat.of_uint63 (Uint63.of_Z (Z.of_N n)).

Definition unsigned_plain (s : string) : option float :=
  if String.eqb s "inf" then Some infinity
  else if String.eqb s "nan" then Some nan
  else
    match split_at_point s with
    | (whole, None) =>
        match natural whole with
        | Some n => if (n <? 2 ^ 53)%N then Some (of_N n) else None
        | None => None
        end
    | (whole, Some frac) =>
        match natural whole, natural frac with
        | Some n, Some q =>
            let k := N.of_nat (String.length frac) in
            let num := (n * 10 ^ k + q)%N in
            if (num <? 2 ^ 53)%N && (k <=? 15)%N
            then Some (of_N num / of_N (10 ^ k))%float
            else None
        | _, _ => None
        end
    end.

Definition float_plain (s : string) : option float :=
  match s with
  | String "-"%char s' => option_map PrimFloat.opp (unsigned_plain s')
  | _ => unsigned_plain s
  end.

End DecimalText.

Definition decimal_text : FloatText :=
  {| float_repr := DecimalText.repr_exact;
     float_of_string := DecimalText.float_plain |}.

(* ===================================================================== *)
(** ** Flight functions for [fly_route]                                   *)
(* ===================================================================== *)

(** [reach_point] and [navigate] as flight functions: called with the keyword
    arguments of [fly_route], their other parameters at the defaults. *)
Definition reach_point_kw (fuel : nat) (args : flight_args) : M unit :=
  reach_point fuel (arg_x args) (arg_y args) (arg_z args) nan (arg_speed args)
    TOLERANCE (arg_frame_id args).

Definition navigate_kw (args : flight_args) : M unit :=
  navigate {| nav_x := arg_x args; nav_y := arg_y args; nav_z := arg_z args;
              nav_yaw := 0; nav_speed := arg_speed args;
              nav_frame_id := arg_frame_id args; nav_auto_arm := false |} ;;
  ret tt.

(* ===================================================================== *)
(** ** Vocabulary of the properties                                       *)
(* ===================================================================== *)

(** A computation all of whose actions satisfy [P], whatever the outside
    answers. *)
Definition emits_only (P : event -> Prop) {A} (m : M A) : Prop :=
  forall env w, Forall P (emitted (m env w)).

(** A computation that keeps the relation [R] between the world it starts
    in, the actions it emits and the world it ends in. *)
Definition maintains (R : World -> list event -> World -> Prop) {A} (m : M A) : Prop :=
  forall env w, R w (emitted (m env w)) (final (m env w)).

Definition is_normal {A} (o : outcome A) : bool :=
  match o with
  | Normal _ => true
  | _ => false
  end.

Definition is_navigate (e : event) : bool :=
  match e with
  | EvNavigate _ _ => true
  | _ => false
  end.

Definition no_command : event -> Prop := fun e => is_navigate e = false.

(** What [fly_route] itself does: calls of the flight function and settle
    delays. *)
Inductive player_action : Type :=
| Fly (args : flight_args)
| Settle (delay : float).

Fixpoint player_actions (tr : list event) : list player_action :=
  match tr with
  | [] => []
  | EvCall args _ :: tr' => Fly args :: player_actions tr'
  | EvTimeSleep delay :: tr' => Settle delay :: player_actions tr'
  | _ :: tr' => player_actions tr'
  end.

Fixpoint calls (tr : list event) : list flight_args :=
  match tr with
  | [] => []
  | EvCall args _ :: tr' => args :: calls tr'
  | _ :: tr' => calls tr'
  end.

Definition is_fly (a : player_action) : bool :=
  match a with
  | Fly _ => true
  | Settle _ => false
  end.

(** The placement of the settle delays the specification words: every delay
    has a call before it and a call after it. *)
Fixpoint settles_only_between (seen_fly : bool) (acts : list player_action) : bool :=
  match acts with
  | [] => true
  | Fly _ :: rest => settles_only_between true rest
  | Settle _ :: rest =>
      seen_fly && existsb is_fly rest && settles_only_between seen_fly rest
  end.

(** The altitude the specification words: the override when it is finite,
    the stored altitude otherwise. *)
Definition altitude_as_claimed (z stored : float) : float :=
  if PrimFloat.is_finite z then z else stored.

(** The arguments [fly_route] builds for a waypoint. *)
Definition waypoint_args (z speed : float) (frame_id : string) (p : point) : flight_args :=
  {| arg_x := point_x p; arg_y := point_y p;
     arg_z := if PrimFloat.is_nan z then point_z p else z;
     arg_speed := speed; arg_frame_id := frame_id |}.

(** *** Outsides and worlds to run the routines in *)

Definition outside (flags : nat -> nat -> bool) (pose : nat -> telemetry)
    (universal : bool) : Env :=
  {| event_state := flags;
     telemetry_reply := fun _ i => pose i;
     navigate_reply := fun _ _ => NavigateResponse true "";
     sleep_accepts := fun delay => (0 <=? delay)%float && PrimFloat.is_finite delay;
     universal_newlines := universal |}.

(** The vehicle stays where it is and no flag is ever set. *)
Definition hovering (x y z : float) : Env :=
  outside (fun _ _ => false) (fun _ => Telemetry x y z) false.

Definition boot : World := {| now := 0; fs := fun _ => None |}.

(** The vehicle is at (0, 0, 1) for the first three instants and at
    (0, 0, 2) from then on. *)
Definition stepping_up : Env :=
  outside (fun _ _ => false)
          (fun i => if Nat.ltb i 3 then Telemetry 0 0 1 else Telemetry 0 0 2) false.

(** *** Route files *)

(** A character the two CSV dialects or the line iteration would treat as
    more than text. *)
Definition bad_char (c : ascii) : bool :=
  Ascii.eqb c ","%char || Ascii.eqb c Csv.double_quote || Ascii.eqb c "|"%char ||
  Ascii.eqb c Csv.CR || Ascii.eqb c Csv.LF || Ascii.eqb c Csv.NUL.

(** A text that is one plain CSV field: not empty, within the reader's field
    limit, free of delimiters, quotes, line ends and NUL. *)
Definition plain (s : string) : bool :=
  negb (Csv.string_exists bad_char s) &&
  negb (Nat.eqb (String.length s) 0) &&
  (Z.of_nat (String.length s) <=? Csv.field_limit)%Z.

(** The characters of a line before its end: like [Csv.feed_line], without
    the end-of-line mark. *)
Fixpoint feed_chars (d : Csv.dialect) (r : Csv.reader) (s : string) : outcome Csv.reader :=
  match s with
  | EmptyString => Normal r
  | String c rest =>
      if Ascii.eqb c Csv.NUL then Raised CsvError
      else bind_pure (Csv.parse_process_char d r (Some c)) (fun r' => feed_chars d r' rest)
  end.

Definition row_point (row : list float) : point :=
  match row with
  | [x; y; z] => {| point_x := x; point_y := y; point_z := z |}
  | _ => {| point_x := nan; point_y := nan; point_z := nan |}
  end.

Definition in_field (fields : list string) (text : string) : Csv.reader :=
  {| Csv.state := Csv.IN_FIELD; Csv.field := text; Csv.fields := fields |}.

Definition row_body (a b c : string) : string :=
  (a ++ String ","%char (b ++ String ","%char c))%string.

Section RouteText.

Context {float_text : FloatText}.

(** A number whose text is a plain field that [float] reads back as the
    number. *)
Definition reads_back (v : float) : Prop :=
  plain (float_repr v) = true /\ float_of_string (float_repr v) = Some v.

(** The text the recorder's writer produces for a sequence of rows. *)
Fixpoint route_text (rows : list (list float)) : string :=
  match rows with
  | [] => ""
  | row :: rows' =>
      (Csv.format_row Csv.writer_dialect (map float_repr row) ++ route_text rows')%string
  end.

Definition is_triple (row : list float) : Prop := List.length row = 3.

End RouteText.

(** *** Runs of the recorder *)

(** The runs of [create_route]'s loops, as sequences of actions with the way
    the loop ends.  The recorder is idle while it waits for the add trigger
    and armed from the capture until the trigger is released. *)
Section RecorderRuns.

Variables (filename : string) (add_trigger stop_trigger : nat) (frame_id : string).

(** One poll tick of the wait for the add trigger, and one of the wait for
    its release: the trigger is read, the stop trigger is read unset, the
    loop sleeps. *)
Definition idle_tick : list event :=
  [EvIsSet add_trigger false; EvIsSet stop_trigger false; EvRateSleep FREQUENCY].

Definition held_tick : list event :=
  [EvIsSet add_trigger true; EvIsSet stop_trigger false; EvRateSleep FREQUENCY].

(** The stop trigger read set inside one of the two waits. *)
Definition stop_seen : list event :=
  [EvIsSet stop_trigger true; EvLog INFO (RouteCreated filename)].

(** One pose sampled and appended to the file. *)
Definition capture (telem : telemetry) : list event :=
  [EvGetTelemetry frame_id telem;
   EvWriteRow filename [telem_x telem; telem_y telem; telem_z telem];
   EvLog INFO (AddPoint (telem_x telem) (telem_y telem) (telem_z telem) filename)].

Inductive waits_for_add : list event -> outcome unit -> Prop :=
| add_seen :
    waits_for_add [EvIsSet add_trigger true] (Normal tt)
| add_wait_stopped :
    waits_for_add (EvIsSet add_trigger false :: stop_seen) Returned
| add_wait_cut :
    waits_for_add [EvIsSet add_trigger false] OutOfFuel
| add_wait_tick t o :
    waits_for_add t o -> waits_for_add (idle_tick ++ t) o.

Inductive waits_for_release : list event -> outcome unit -> Prop :=
| release_seen :
    waits_for_release [EvIsSet add_trigger false] (Normal tt)
| release_wait_stopped :
    waits_for_release (EvIsSet add_trigger true :: stop_seen) Returned
| release_wait_cut :
    waits_for_release [EvIsSet add_trigger true] OutOfFuel
| release_wait_tick t o :
    waits_for_release t o -> waits_for_release (held_tick ++ t) o.

(** One turn of the outer loop. *)
Inductive records_point : list event -> outcome unit -> Prop :=
| point_not_added t o :
    waits_for_add t o -> o <> Normal tt -> records_point t o
| point_added t1 telem t2 o :
    waits_for_add t1 (Normal tt) -> waits_for_release t2 o ->
    records_point (t1 ++ capture telem ++ t2) o.

(** The outer loop. *)
Inductive records : list event -> outcome unit -> Prop :=
| records_stop :
    records [EvIsSet stop_trigger true] (Normal tt)
| records_cut :
    records [EvIsSet stop_trigger false] OutOfFuel
| records_last t o :
    records_point t o -> o <> Normal tt ->
    records (EvIsSet stop_trigger false :: t) o
| records_more t1 t2 o :
    records_point t1 (Normal tt) -> records t2 o ->
    records (EvIsSet stop_trigger false :: t1 ++ t2) o.

(** The whole function. *)
Inductive creates_route : list event -> outcome unit -> Prop :=
| creates_to_stop t :
    records t (Normal tt) ->
    creates_route ([EvOpenWrite filename; EvLog INFO (OpenFile filename)] ++ t ++
                   [EvLog INFO (RouteCreated filename)]) (Normal tt)
| creates_to_return t :
    records t Returned ->
    creates_route ([EvOpenWrite filename; EvLog INFO (OpenFile filename)] ++ t) (Normal tt)
| creates_cut t :
    records t OutOfFuel ->
    creates_route ([EvOpenWrite filename; EvLog INFO (OpenFile filename)] ++ t) OutOfFuel.

End RecorderRuns.

(** The poses sampled and the rows written, in order. *)
Fixpoint samples (tr : list event) : list telemetry :=
  match tr with
  | [] => []
  | EvGetTelemetry _ telem :: tr' => telem :: samples tr'
  | _ :: tr' => samples tr'
  end.

Fixpoint written_rows (tr : list event) : list (list float) :=
  match tr with
  | [] => []
  | EvWriteRow _ row :: tr' => row :: written_rows tr'
  | _ :: tr' => written_rows tr'
  end.

Definition telemetry_row (telem : telemetry) : list float :=
  [telem_x telem; telem_y telem; telem_z telem].

Definition telemetry_point (telem : telemetry) : point :=
  {| point_x := telem_x telem; point_y := telem_y telem; point_z := telem_z telem |}.

(** Rising edges in the successive readings of a trigger: readings that are
    set after a reading that was not ([prev] is the reading before the
    first). *)
Fixpoint rising_edges (trigger : nat) (prev : bool) (tr : list event) : nat :=
  match tr with
  | [] => 0
  | EvIsSet t b :: tr' =>
      if Nat.eqb t trigger
      then (if negb prev && b then 1 else 0) + rising_edges trigger b tr'
      else rising_edges trigger prev tr'
  | _ :: tr' => rising_edges trigger prev tr'
  end.

Fixpoint last_reading (trigger : nat) (prev : bool) (tr : list event) : bool :=
  match tr with
  | [] => prev
  | EvIsSet t b :: tr' =>
      if Nat.eqb t trigger then last_reading trigger b tr'
      else last_reading trigger prev tr'
  | _ :: tr' => last_reading trigger prev tr'
  end.

(** The readings of the add trigger and the rows, followed step by step: a
    row is owed after a rising reading, and it must be written before the
    trigger is read again; no row is written otherwise. *)
Record edge_state : Type := {
  reading : bool;
  owed : bool
}.

Definition edge_step (trigger : nat) (s : edge_state) (e : event) : option edge_state :=
  match e with
  | EvIsSet t b =>
      if Nat.eqb t trigger then
        if owed s then None
        else Some {| reading := b; owed := negb (reading s) && b |}
      else Some s
  | EvWriteRow _ _ =>
      if owed s then Some {| reading := reading s; owed := false |} else None
  | _ => Some s
  end.

Fixpoint edge_run (trigger : nat) (s : edge_state) (tr : list event) : option edge_state :=
  match tr with
  | [] => Some s
  | e :: tr' =>
      match edge_step trigger s e with
      | Some s' => edge_run trigger s' tr'
      | None => None
      end
  end.

(** No action of [tr] reads the trigger as set. *)
Definition reads_set (trigger : nat) (e : event) : bool :=
  match e with
  | EvIsSet t true => Nat.eqb t trigger
  | _ => false
  end.

Definition unread (trigger : nat) (tr : list event) : bool :=
  negb (existsb (reads_set trigger) tr).

(** Every sleep of [tr] comes directly after a reading of the trigger as
    unset ([checked] tells whether the action before [tr] was one). *)
Fixpoint polled_before_sleeps (trigger : nat) (checked : bool) (tr : list event) : bool :=
  match tr with
  | [] => true
  | EvRateSleep _ :: tr' => checked && polled_before_sleeps trigger false tr'
  | EvIsSet t b :: tr' => polled_before_sleeps trigger (Nat.eqb t trigger && negb b) tr'
  | _ :: tr' => polled_before_sleeps trigger false tr'
  end.

Section RouteWorld.

Context {float_text : FloatText}.

(** The file [filename] grows by the rows the actions write. *)
Definition appends_rows (filename : string) (w : World) (t : list event) (w' : World)
  : Prop :=
  forall c, fs w filename = Some c ->
            fs w' filename = Some (c ++ route_text (written_rows t))%string.

End RouteWorld.

Section RecorderFacts.

Variables (filename : string) (add_trigger stop_trigger : nat).

(** The facts about a run of the recorder's loops that the claims need: as
    many rows as rising edges, each row the pose just sampled, the trigger
    last read unset when the loop goes on, and a row exactly after each
    rising edge. *)
Definition edge_triggered (t : list event) (o : outcome unit) : Prop :=
  List.length (written_rows t) = rising_edges add_trigger false t /\
  written_rows t = map telemetry_row (samples t) /\
  (is_normal o = true -> last_reading add_trigger false t = false) /\
  exists b,
    edge_run add_trigger {| reading := false; owed := false |} t =
      Some {| reading := b; owed := false |} /\
    (is_normal o = true -> b = false).

(** A wait either never reads the stop trigger set, or ends with that
    reading and the log line, by [return]. *)
Definition wait_stopped (t : list event) (o : outcome unit) : Prop :=
  match o with
  | Returned =>
      exists before, t = before ++ stop_seen filename stop_trigger /\
                     unread stop_trigger before = true
  | _ => unread stop_trigger t = true
  end.

(** The outer loop reads the stop trigger set at most once, as its last
    action when it ends normally, followed by the log line when a wait
    returned. *)
Definition loop_stopped (t : list event) (o : outcome unit) : Prop :=
  match o with
  | Normal _ =>
      exists before, t = before ++ [EvIsSet stop_trigger true] /\
                     unread stop_trigger before = true
  | Returned =>
      exists before, t = before ++ stop_seen filename stop_trigger /\
                     unread stop_trigger before = true
  | _ => unread stop_trigger t = true
  end.

End RecorderFacts.

(** [k] poll ticks in a row. *)
Fixpoint ticks (tick : list event) (k : nat) : list event :=
  match k with
  | O => []
  | S k' => tick ++ ticks tick k'
  end.

(** The add trigger (flag 0) is set from instant 1 to instant 12 and the
    stop trigger (flag 1) from instant 9 on; the vehicle is at (4.5, -1.25, 0). *)
Definition held_then_stopped : Env :=
  outside (fun trigger i => if Nat.eqb trigger 0 then Nat.leb 1 i && Nat.leb i 12
                            else Nat.leb 9 i)
          (fun _ => Telemetry 4.5 (-1.25) 0) false.

(** The add trigger is set from instant 4 to 9 and again from 16 to 20, the
    stop trigger from instant 25 on; the vehicle is at (1, 2, 3) until
    instant 10 and at (4.5, -1.25, 0) after.  Files are read with universal
    newlines. *)
Definition two_presses : Env :=
  outside (fun trigger i =>
             if Nat.eqb trigger 0
             then (Nat.leb 4 i && Nat.leb i 9) || (Nat.leb 16 i && Nat.leb i 20)
             else Nat.leb 25 i)
          (fun i => if Nat.leb i 10 then Telemetry 1 2 3 else Telemetry 4.5 (-1.25) 0)
          true.

(** The add trigger is never set, the stop trigger is set from instant 5 on. *)
Definition stop_while_idle : Env :=
  outside (fun trigger i => if Nat.eqb trigger 0 then false else Nat.leb 5 i)
          (fun _ => Telemetry 0 0 0) false.

(** Both triggers are set from instant 7 on. *)
Definition both_at_once : Env :=
  outside (fun _ i => Nat.leb 7 i) (fun _ => Telemetry 1 2 3) false.

(** The add trigger is set at instants 1 and 2 and from instant 14 on, the
    stop trigger from instant 14 on; the vehicle is at (1, 2, 3) until
    instant 10 and at (4.5, -1.25, 0) after. *)
Definition press_then_both : Env :=
  outside (fun trigger i =>
             if Nat.eqb trigger 0
             then (Nat.leb 1 i && Nat.leb i 2) || Nat.leb 14 i
             else Nat.leb 14 i)
          (fun i => if Nat.leb i 10 then Telemetry 1 2 3 else Telemetry 4.5 (-1.25) 0)
          false.

(** A world whose only file is empty. *)
Definition empty_route_file (filename : string) : World :=
  {| now := 0; fs := fun f => if String.eqb f filename then Some "" else None |}.

(** *** Presses of the add trigger *)

(** The outer loop of [create_route] with [turns] turns left, its waits
    having [fuel] turns each. *)
Definition recording_turns {float_text : FloatText} (turns fuel : nat) (filename : string)
    (add_trigger stop_trigger : nat) (frame_id : string) : M unit :=
  while turns
    (fun _ => s <- is_set stop_trigger ;; ret (negb s))
    (fun _ => record_point fuel filename add_trigger stop_trigger frame_id)
    tt.

(** One press of the add trigger, as the recorder meets it: the trigger is
    found unset at [idle_ticks] poll ticks, then set, then still set at
    [held_ticks] poll ticks, then unset. *)
Record press : Type := Press {
  idle_ticks : nat;
  held_ticks : nat
}.

(** The instants of a press that the outer loop meets at instant [i]: the
    loop's test at [i], the polls of the wait for the trigger three instants
    apart from [i + 1], the pose sampled right after the trigger is read set,
    the polls of the wait for the release, and the loop's next test. *)
Definition set_reading (i : nat) (p : press) : nat := i + 1 + 3 * idle_ticks p.
Definition sampling (i : nat) (p : press) : nat := i + 2 + 3 * idle_ticks p.
Definition release_reading (i : nat) (p : press) : nat :=
  i + 3 + 3 * idle_ticks p + 3 * held_ticks p.
Definition press_end (i : nat) (p : press) : nat :=
  i + 4 + 3 * idle_ticks p + 3 * held_ticks p.

(** The schedule has the press [p] at instant [i], with the stop trigger
    unset wherever the recorder reads it. *)
Definition pressed_once (env : Env) (add_trigger stop_trigger : nat) (i : nat) (p : press)
  : Prop :=
  event_state env stop_trigger i = false /\
  (forall j, j < idle_ticks p ->
     event_state env add_trigger (i + 1 + 3 * j) = false /\
     event_state env stop_trigger (i + 2 + 3 * j) = false) /\
  event_state env add_trigger (set_reading i p) = true /\
  (forall j, j < held_ticks p ->
     event_state env add_trigger (sampling i p + 1 + 3 * j) = true /\
     event_state env stop_trigger (sampling i p + 2 + 3 * j) = false) /\
  event_state env add_trigger (release_reading i p) = false.

(** The schedule has the presses one after the other from instant [i]. *)
Fixpoint pressed (env : Env) (add_trigger stop_trigger : nat) (i : nat)
    (presses : list press) : Prop :=
  match presses with
  | [] => True
  | p :: rest =>
      pressed_once env add_trigger stop_trigger i p /\
      pressed env add_trigger stop_trigger (press_end i p) rest
  end.

Fixpoint presses_end (i : nat) (presses : list press) : nat :=
  match presses with
  | [] => i
  | p :: rest => presses_end (press_end i p) rest
  end.

(** The poses at the instants the presses are sampled. *)
Fixpoint press_poses (env : Env) (frame_id : string) (i : nat) (presses : list press)
  : list telemetry :=
  match presses with
  | [] => []
  | p :: rest =>
      telemetry_reply env frame_id (sampling i p) :: press_poses env frame_id (press_end i p) rest
  end.

(** What the recorder does over a press: the loop's test, the idle ticks, the
    trigger read set, one pose sampled and written, the held ticks, the
    trigger read unset. *)
Definition press_actions (env : Env) (filename : string) (add_trigger stop_trigger : nat)
    (frame_id : string) (i : nat) (p : press) : list event :=
  [EvIsSet stop_trigger false] ++
  ticks (idle_tick add_trigger stop_trigger) (idle_ticks p) ++
  [EvIsSet add_trigger true] ++
  capture filename frame_id (telemetry_reply env frame_id (sampling i p)) ++
  ticks (held_tick add_trigger stop_trigger) (held_ticks p) ++
  [EvIsSet add_trigger false].

Fixpoint presses_actions (env : Env) (filename : string) (add_trigger stop_trigger : nat)
    (frame_id : string) (i : nat) (presses : list press) : list event :=
  match presses with
  | [] => []
  | p :: rest =>
      press_actions env filename add_trigger stop_trigger frame_id i p ++
      presses_actions env filename add_trigger stop_trigger frame_id (press_end i p) rest
  end.

(** The waits have turns enough for the presses. *)
Definition within_fuel (fuel : nat) (p : press) : Prop :=
  idle_ticks p <= fuel /\ held_ticks p <= fuel.

(** *** Signs of floats *)

(** A float, as the specification of IEEE 754 has it, with its sign bit
    clear: a NaN, or a zero, a number or an infinity that is not negative. *)
Definition sign_clear (x : spec_float) : Prop :=
  match x with
  | S754_nan => True
  | S754_zero s | S754_infinity s | S754_finite s _ _ => s = false
  end.

(** *** Runs of the arrival pollers *)

(** A result with actions put before its own. *)
Definition after {A} (t : list event) (r : result A) : result A :=
  Result (t ++ emitted r) (out r) (final r).

(** The world [n] instants later. *)
Definition later (w : World) (n : nat) : World :=
  {| now := now w + n; fs := fs w |}.

(** The pose the [j]-th telemetry read of an arrival poller finds, [w] being
    the world the poller starts in: the reads are two instants apart, with
    the command or a sleep in between. *)
Definition pose_at (env : Env) (frame_id : string) (w : World) (j : nat) : telemetry :=
  telemetry_reply env frame_id (now w + 2 * j).

(** The distance [reach_point] computes from its [j]-th read. *)
Definition distance_at (env : Env) (frame_id : string) (w : World) (x y z : float)
    (j : nat) : outcome float :=
  let telem := pose_at env frame_id w j in
  get_distance x y z (telem_x telem) (telem_y telem) (telem_z telem).

(** The climb [takeoff] computes from its [j]-th read; [0.] before the loop. *)
Definition climb_at (env : Env) (frame_id : string) (w : World) (j : nat) : float :=
  match j with
  | O => 0%float
  | S _ =>
      PrimFloat.abs (telem_z (pose_at env frame_id w j) - telem_z (pose_at env frame_id w 0))
  end.

(** One turn of the loop of [reach_point], and one of the loop of [takeoff]. *)
Definition reach_poll (env : Env) (frame_id : string) (w : World) (d : nat -> float)
    (j : nat) : list event :=
  [EvGetTelemetry frame_id (pose_at env frame_id w j);
   EvLog DEBUG (DistanceRemaining (d j));
   EvRateSleep FREQUENCY].

Definition takeoff_poll (env : Env) (frame_id : string) (w : World) (height : float)
    (j : nat) : list event :=
  [EvGetTelemetry frame_id (pose_at env frame_id w j);
   EvLog DEBUG (TakeoffProgress (climb_at env frame_id w j) height);
   EvRateSleep FREQUENCY].

(** What [reach_point] and [takeoff] do before their loops. *)
Definition reach_point_start (env : Env) (w : World) (x y z yaw speed : float)
    (frame_id : string) : list event :=
  let request :=
    {| nav_x := x; nav_y := y; nav_z := z; nav_yaw := yaw; nav_speed := speed;
       nav_frame_id := frame_id; nav_auto_arm := false |} in
  let reply := navigate_reply env request (S (now w)) in
  [EvLog INFO (ReachingPoint x y z);
   EvGetTelemetry frame_id (pose_at env frame_id w 0);
   EvNavigate request reply;
   EvLog DEBUG (ServiceResult reply)].

Definition takeoff_start (env : Env) (w : World) (height speed : float)
    (frame_id : string) : list event :=
  let start := pose_at env frame_id w 0 in
  let request :=
    {| nav_x := telem_x start; nav_y := telem_y start; nav_z := telem_z start + height;
       nav_yaw := nan; nav_speed := speed; nav_frame_id := frame_id;
       nav_auto_arm := true |} in
  let reply := navigate_reply env request (S (now w)) in
  [EvLog INFO TakeoffStarted;
   EvGetTelemetry frame_id start;
   EvNavigate request reply;
   EvLog DEBUG (ServiceResult reply)].

(** *** Runs of the player *)

(** The navigate requests among some actions, those of the flight functions
    called included. *)
Fixpoint commands_of (e : event) : list navigate_request :=
  match e with
  | EvNavigate request _ => [request]
  | EvCall _ inner => flat_map commands_of inner
  | _ => []
  end.

Definition commands (tr : list event) : list navigate_request :=
  flat_map commands_of tr.

(** The request [reach_point] sends for a waypoint when [fly_route] calls it
    with its keyword arguments. *)
Definition waypoint_request (z speed : float) (frame_id : string) (p : point)
  : navigate_request :=
  {| nav_x := point_x p; nav_y := point_y p;
     nav_z := if PrimFloat.is_nan z then point_z p else z;
     nav_yaw := nan; nav_speed := speed; nav_frame_id := frame_id;
     nav_auto_arm := false |}.

(** What [fly_route] does for one waypoint. *)
Definition settled (z delay speed : float) (frame_id : string) (p : point)
  : list player_action :=
  [Fly (waypoint_args z speed frame_id p); Settle delay].

(** The arguments that fly to a pose as it was sampled. *)
Definition pose_args (speed : float) (frame_id : string) (telem : telemetry) : flight_args :=
  {| arg_x := telem_x telem; arg_y := telem_y telem; arg_z := telem_z telem;
     arg_speed := speed; arg_frame_id := frame_id |}.

(** *** More about the runs of the recorder *)

(** The clock does not go back. *)
Definition time_passes (w : World) (t : list event) (w' : World) : Prop :=
  now w <= now w'.

(** The files other than [filename] stay as they are. *)
Definition keeps_other_files (filename : string) (w : World) (t : list event) (w' : World)
  : Prop :=
  forall other, other <> filename -> fs w' other = fs w other.

(** The closing log line of [create_route], and how many times it is among
    some actions. *)
Definition is_route_created (e : event) : bool :=
  match e with
  | EvLog INFO (RouteCreated _) => true
  | _ => false
  end.

Definition closing_lines (tr : list event) : nat :=
  List.length (filter is_route_created tr).

Definition is_returned {A} (o : outcome A) : bool :=
  match o with
  | Returned => true
  | _ => false
  end.

(** A wait logs the closing line when it returns, after reading the stop
    trigger set, and not otherwise. *)
Definition closes_on_return (filename : string) (stop_trigger : nat) (t : list event)
    (o : outcome unit) : Prop :=
  closing_lines t = (if is_returned o then 1 else 0) /\
  (o = Returned -> exists before, t = before ++ stop_seen filename stop_trigger).

(** The trigger is set at instant [T] and stays set. *)
Definition set_from (env : Env) (trigger T : nat) : Prop :=
  forall i, T <= i -> event_state env trigger i = true.

(** *** Route files written by hand *)

(** Fields separated by commas, as they stand in a line of the file. *)
Fixpoint joined (fields : list string) : string :=
  match fields with
  | [] => ""
  | [f] => f
  | f :: rest => (f ++ String ","%char (joined rest))%string
  end.

(** The ends a line of a route file can have: CR LF, as the recorder writes
    it, or LF alone. *)
Definition line_end (crlf : bool) : string :=
  if crlf then Csv.lineterminator else String Csv.LF "".

(** The reader between two records, with the fields of the last one. *)
Definition record_of (fields : list string) : Csv.reader :=
  {| Csv.state := Csv.START_RECORD; Csv.field := ""; Csv.fields := fields |}.

Section HandWritten.

Context {float_text : FloatText}.

Definition point_text (p : point) : string :=
  row_body (float_repr (point_x p)) (float_repr (point_y p)) (float_repr (point_z p)).

(** A route file whose lines end each in its own way, the last line with or
    without a line end. *)
Fixpoint hand_written (ps : list (point * bool)) (last : option point) : string :=
  match ps with
  | [] =>
      match last with
      | Some p => point_text p
      | None => ""
      end
  | (p, crlf) :: ps' => (point_text p ++ line_end crlf ++ hand_written ps' last)%string
  end.

Definition point_reads_back (p : point) : Prop :=
  reads_back (point_x p) /\ reads_back (point_y p) /\ reads_back (point_z p).

Definition unterminated (last : option point) : list point :=
  match last with
  | Some p => [p]
  | None => []
  end.

End HandWritten.

(** A world whose only file holds [text]. *)
Definition route_file (filename text : string) : World :=
  {| now := 0; fs := fun f => if String.eqb f filename then Some text else None |}.

(* ===================================================================== *)
(** * Properties                                                          *)
(* ===================================================================== *)

(** ** Facts about the monad *)

Section MonadFacts.

Context {A B : Type}.

Lemma emitted_bind (m : M A) (k : A -> M B) env w :
  emitted (bind m k env w) =
  emitted (m env w) ++
  match out (m env w) with
  | Normal a => emitted (k a env (final (m env w)))
  | _ => []
  end.
Proof.
  unfold bind.
  destruct (m env w) as [t [a| |e|] w1]; simpl; rewrite ?app_nil_r; try reflexivity.
  destruct (k a env w1); reflexivity.
Qed.

Lemma out_bind (m : M A) (k : A -> M B) env w :
  out (bind m k env w) =
  match out (m env w) with
  | Normal a => out (k a env (final (m env w)))
  | Returned => Returned
  | Raised e => Raised e
  | OutOfFuel => OutOfFuel
  end.
Proof.
  unfold bind.
  destruct (m env w) as [t [a| |e|] w1]; simpl; try reflexivity.
  destruct (k a env w1); reflexivity.
Qed.

Lemma final_bind (m : M A) (k : A -> M B) env w :
  final (bind m k env w) =
  match out (m env w) with
  | Normal a => final (k a env (final (m env w)))
  | _ => final (m env w)
  end.
Proof.
  unfold bind.
  destruct (m env w) as [t [a| |e|] w1]; simpl; try reflexivity.
  destruct (k a env w1); reflexivity.
Qed.

End MonadFacts.

Lemma result_ext {A} (r : result A) t o w :
  emitted r = t -> out r = o -> final r = w -> r = Result t o w.
Proof. destruct r; simpl; intros; subst; reflexivity. Qed.

Lemma emitted_function_body (m : M unit) env w :
  emitted (function_body m env w) = emitted (m env w).
Proof. unfold function_body. destruct (m env w) as [t [[]| | |] w1]; reflexivity. Qed.

Lemma out_function_body (m : M unit) env w :
  out (function_body m env w) =
  match out (m env w) with
  | Returned => Normal tt
  | o => o
  end.
Proof. unfold function_body. destruct (m env w) as [t [[]| | |] w1]; reflexivity. Qed.

Lemma final_function_body (m : M unit) env w :
  final (function_body m env w) = final (m env w).
Proof. unfold function_body. destruct (m env w) as [t [[]| | |] w1]; reflexivity. Qed.

Lemma while_unfold {S} fuel (cond : S -> M bool) (body : S -> M S) s :
  while fuel cond body s =
  (b <- cond s ;;
   if b then
     match fuel with
     | O => out_of_fuel
     | Datatypes.S fuel' => s' <- body s ;; while fuel' cond body s'
     end
   else ret s).
Proof. destruct fuel; reflexivity. Qed.

Lemma result_eta {A} (r : result A) : r = Result (emitted r) (out r) (final r).
Proof. destruct r; reflexivity. Qed.

Lemma bind_known {A B} (m : M A) (k : A -> M B) env w t a w1 :
  m env w = Result t (Normal a) w1 ->
  bind m k env w =
    Result (t ++ emitted (k a env w1)) (out (k a env w1)) (final (k a env w1)).
Proof. intros H. unfold bind. rewrite H. destruct (k a env w1); reflexivity. Qed.

Lemma bind_returned {A B} (m : M A) (k : A -> M B) env w t w1 :
  m env w = Result t Returned w1 -> bind m k env w = Result t Returned w1.
Proof. intros H. unfold bind. rewrite H. reflexivity. Qed.

Ltac list_assoc :=
  simpl; repeat rewrite <- app_assoc; simpl; reflexivity.

Ltac conj_split :=
  repeat match goal with
         | |- _ /\ _ => split
         end.

Ltac monad_simpl :=
  repeat (progress (rewrite ?emitted_bind, ?out_bind, ?final_bind; simpl)).

Section Emits.

Variable P : event -> Prop.

Lemma emits_only_bind {A B} (m : M A) (k : A -> M B) :
  emits_only P m -> (forall a, emits_only P (k a)) -> emits_only P (bind m k).
Proof.
  intros Hm Hk env w. rewrite emitted_bind. apply Forall_app. split; [apply Hm|].
  destruct (out (m env w)); try constructor. apply Hk.
Qed.

Lemma emits_only_lift {A} (o : outcome A) : emits_only P (lift o).
Proof. intros env w. constructor. Qed.

Lemma emits_only_ret {A} (a : A) : emits_only P (ret a).
Proof. intros env w. constructor. Qed.

Lemma emits_only_while {S} (cond : S -> M bool) (body : S -> M S) :
  (forall s, emits_only P (cond s)) -> (forall s, emits_only P (body s)) ->
  forall fuel s, emits_only P (while fuel cond body s).
Proof.
  intros Hc Hb. induction fuel as [|fuel IH]; intros s; simpl;
    (apply emits_only_bind; [apply Hc|]); intros [|]; try apply emits_only_ret.
  - intros env w. constructor.
  - apply emits_only_bind; [apply Hb | apply IH].
Qed.

End Emits.

(** ** Comparisons of floats *)

Lemma SFcompare_swap a b c :
  SFcompare a b = Some c -> SFcompare b a = Some (CompOpp c).
Proof.
  destruct a as [sa|sa| |sa ma ea], b as [sb|sb| |sb mb eb]; simpl;
    intros H; inversion H; subst; clear H;
    try (destruct sa; reflexivity); try (destruct sb; reflexivity); try reflexivity.
  - destruct sa, sb; reflexivity.
  - f_equal.
    change (PosDef.Pos.compare_cont Eq mb ma) with (Pos.compare mb ma).
    change (PosDef.Pos.compare_cont Eq ma mb) with (Pos.compare ma mb).
    rewrite (Z.compare_antisym ea eb), (Pos.compare_antisym ma mb).
    destruct sa, sb; try reflexivity;
      destruct (ea ?= eb)%Z; simpl; rewrite ?CompOpp_involutive; reflexivity.
Qed.

Lemma leb_not_ltb (d t : float) :
  (d <=? t)%float = true -> (t <? d)%float = false.
Proof.
  rewrite FloatAxioms.leb_spec, FloatAxioms.ltb_spec. unfold SFleb, SFltb.
  destruct (SFcompare (Prim2SF d) (Prim2SF t)) as [c|] eqn:E; [|discriminate].
  rewrite (SFcompare_swap _ _ _ E). destruct c; simpl; try reflexivity; discriminate.
Qed.

(** ** The arrival poller *)

Ltac quiet_steps :=
  repeat (apply emits_only_bind; [|intros ?]);
  try apply emits_only_ret; try apply emits_only_lift;
  intros ? ?; repeat constructor.

Lemma reach_loop_no_command fuel x y z tolerance frame_id delta :
  emits_only no_command (reach_loop fuel x y z tolerance frame_id delta).
Proof.
  unfold reach_loop. apply emits_only_while; intros s; quiet_steps.
Qed.

Lemma takeoff_loop_no_command fuel height tolerance frame_id start climb :
  emits_only no_command (takeoff_loop fuel height tolerance frame_id start climb).
Proof.
  unfold takeoff_loop. apply emits_only_while; intros s; quiet_steps.
Qed.

(** C1, as the claim states it, fails: the vehicle hovers at (3, 4, 0), the
    target is the origin and the tolerance is 5, so the pose is at distance
    exactly 5 from the target; [5 > 5] is false, so the loop is left before
    its first turn (none is granted here) and [reach_point] returns, the
    point reached. *)
Lemma reach_point_boundary_counterexample :
  get_distance 0 0 0 3 4 0 = Normal 5%float /\
  keep_polling 5 5 = false /\
  out (reach_point 0 0 0 0 nan 1 5 "map" (hovering 3 4 0) boot) = Normal tt /\
  ~ (forall tolerance, keep_polling tolerance tolerance = true).
Proof.
  repeat split; try (vm_compute; reflexivity).
  intros H. specialize (H 5%float). vm_compute in H. discriminate.
Qed.

Lemma reach_loop_ends fuel env w x y z tolerance frame_id delta :
  keep_polling tolerance delta = false ->
  reach_loop fuel x y z tolerance frame_id delta env w = Result [] (Normal delta) w.
Proof.
  intros Hk. unfold reach_loop.
  destruct fuel; simpl; unfold bind, ret; simpl; rewrite Hk; reflexivity.
Qed.

(** C1, amended: the polling loop of [reach_point] goes on only while the
    distance is strictly greater than the tolerance.  A pose at a distance
    less than or equal to the tolerance, the distance exactly equal to it
    included, satisfies the arrival condition: the loop ends at once, without
    a telemetry read or a sleep. *)
Theorem reach_loop_tolerance_boundary :
  forall fuel env w x y z tolerance frame_id delta,
    (delta <=? tolerance)%float = true ->
    keep_polling tolerance delta = false /\
    reach_loop fuel x y z tolerance frame_id delta env w = Result [] (Normal delta) w.
Proof.
  intros fuel env w x y z tolerance frame_id delta Hle.
  assert (Hk : keep_polling tolerance delta = false) by (apply leb_not_ltb; exact Hle).
  split; [exact Hk | apply reach_loop_ends; exact Hk].
Qed.

Lemma reach_loop_tolerance_boundary_witness :
  (5 <=? 5)%float = true /\
  keep_polling 5 5 = false /\
  reach_loop 7 0 0 0 5 "map" 5 (hovering 3 4 0) boot = Result [] (Normal 5%float) boot.
Proof.
  split; [reflexivity|].
  apply (reach_loop_tolerance_boundary 7 (hovering 3 4 0) boot 0 0 0 5 "map" 5).
  reflexivity.
Defined.

(** C8: a call of [takeoff] or of [reach_point] issues the navigate command
    once, right after the first telemetry read and before the polling loop:
    whatever the outside answers and however many turns the loop takes, the
    actions start with the log line, the telemetry read and the command, and
    no action after that is a navigate command.  [takeoff] asks for
    [auto_arm], [reach_point] does not. *)
Theorem arrival_poller_issues_one_command :
  forall fuel env w frame_id speed tolerance,
    (forall height,
       let start := telemetry_reply env frame_id (now w) in
       let request :=
         {| nav_x := telem_x start; nav_y := telem_y start;
            nav_z := telem_z start + height; nav_yaw := nan; nav_speed := speed;
            nav_frame_id := frame_id; nav_auto_arm := true |} in
       exists rest,
         emitted (takeoff fuel height speed tolerance frame_id env w) =
           [EvLog INFO TakeoffStarted; EvGetTelemetry frame_id start;
            EvNavigate request (navigate_reply env request (S (now w)))] ++ rest /\
         Forall no_command rest) /\
    (forall x y z yaw,
       let request :=
         {| nav_x := x; nav_y := y; nav_z := z; nav_yaw := yaw; nav_speed := speed;
            nav_frame_id := frame_id; nav_auto_arm := false |} in
       exists rest,
         emitted (reach_point fuel x y z yaw speed tolerance frame_id env w) =
           [EvLog INFO (ReachingPoint x y z);
            EvGetTelemetry frame_id (telemetry_reply env frame_id (now w));
            EvNavigate request (navigate_reply env request (S (now w)))] ++ rest /\
         Forall no_command rest).
Proof.
  intros fuel env w frame_id speed tolerance. split.
  - intros height start request.
    unfold takeoff. monad_simpl.
    eexists. split; [reflexivity|].
    constructor; [reflexivity|].
    apply Forall_app. split; [apply takeoff_loop_no_command|].
    destruct (out (takeoff_loop _ _ _ _ _ _ _ _)); repeat constructor.
  - intros x y z yaw request.
    unfold reach_point. monad_simpl.
    eexists. split; [reflexivity|].
    constructor; [reflexivity|].
    destruct (get_distance _ _ _ _ _ _) as [d| |e|]; simpl; try constructor.
    monad_simpl.
    apply Forall_app. split; [apply reach_loop_no_command|].
    destruct (out (reach_loop _ _ _ _ _ _ _ _ _)); repeat constructor.
Qed.

(** C9: the first arrival check of [reach_point] uses the pose read before
    the command is issued.  When that pose is within the tolerance of the
    target, [reach_point] issues the command and returns: one telemetry read,
    one command, no turn of the polling loop. *)
Theorem reach_point_already_there :
  forall fuel env w x y z yaw speed tolerance frame_id delta,
    let telem := telemetry_reply env frame_id (now w) in
    let request :=
      {| nav_x := x; nav_y := y; nav_z := z; nav_yaw := yaw; nav_speed := speed;
         nav_frame_id := frame_id; nav_auto_arm := false |} in
    let reply := navigate_reply env request (S (now w)) in
    get_distance x y z (telem_x telem) (telem_y telem) (telem_z telem) = Normal delta ->
    (delta <=? tolerance)%float = true ->
    reach_point fuel x y z yaw speed tolerance frame_id env w =
      Result [EvLog INFO (ReachingPoint x y z);
              EvGetTelemetry frame_id telem;
              EvNavigate request reply;
              EvLog DEBUG (ServiceResult reply);
              EvLog INFO PointReached]
             (Normal tt) (tick (tick w)).
Proof.
  intros fuel env w x y z yaw speed tolerance frame_id delta telem request reply Hd Hle.
  pose proof (fun w' => reach_loop_ends fuel env w' x y z tolerance frame_id delta
                          (leb_not_ltb _ _ Hle)) as Hloop.
  unfold telem in Hd.
  apply result_ext; unfold reach_point; monad_simpl;
    rewrite Hd; monad_simpl; rewrite Hloop; reflexivity.
Qed.

Lemma reach_point_already_there_witness :
  reach_point 4 0 0 0 nan SPEED TOLERANCE LOCAL_FRAME_ID
    (hovering 0x1.999999999999ap-4 0 0) boot =
  Result [EvLog INFO (ReachingPoint 0 0 0);
          EvGetTelemetry "map" (Telemetry 0x1.999999999999ap-4 0 0);
          EvNavigate (NavigateRequest 0 0 0 nan 1 "map" false) (NavigateResponse true "");
          EvLog DEBUG (ServiceResult (NavigateResponse true ""));
          EvLog INFO PointReached]
         (Normal tt) (tick (tick boot)).
Proof.
  apply (reach_point_already_there 4 (hovering 0x1.999999999999ap-4 0 0) boot
           0 0 0 nan SPEED TOLERANCE LOCAL_FRAME_ID 0x1.999999999999ap-4);
    vm_compute; reflexivity.
Defined.

(** ** The route player *)

Lemma fly_route_cons p route f z delay speed frame_id :
  fly_route (p :: route) f z delay speed frame_id =
  ((call f (waypoint_args z speed frame_id p) ;; time_sleep delay) ;;
   fly_route route f z delay speed frame_id).
Proof.
  unfold fly_route. simpl. unfold waypoint_args.
  destruct (PrimFloat.is_nan z); reflexivity.
Qed.

Lemma emitted_call f args env w :
  emitted (call f args env w) = [EvCall args (emitted (f args env w))].
Proof. unfold call. destruct (f args env w); reflexivity. Qed.

Lemma out_call f args env w : out (call f args env w) = out (f args env w).
Proof. unfold call. destruct (f args env w); reflexivity. Qed.

(** C2, as the claim states it, fails: a route of one waypoint, flown with
    [reach_point] while the vehicle hovers at the waypoint.  The flight
    function is called once and the settle delay follows that last call. *)
Lemma fly_route_trailing_delay_counterexample :
  let run := fly_route [Point 0 0 1] (reach_point_kw 3) nan 0x1.999999999999ap-4 SPEED
               LOCAL_FRAME_ID (hovering 0 0 1) boot in
  out run = Normal tt /\
  player_actions (emitted run) =
    [Fly (FlightArgs 0 0 1 1 "map"); Settle 0x1.999999999999ap-4] /\
  settles_only_between false (player_actions (emitted run)) = false.
Proof. vm_compute. repeat split. Qed.

(** C2, amended: for a route of N waypoints that is played to its end,
    [fly_route] calls the flight function N times, in the route's order, and
    sleeps for the settle delay after every call, the last one included:
    between consecutive calls, never before the first call, and once more
    after the last call.  It does nothing else. *)
Theorem fly_route_sequence :
  forall route flight_function z delay speed frame_id env w,
    out (fly_route route flight_function z delay speed frame_id env w) = Normal tt ->
    player_actions (emitted (fly_route route flight_function z delay speed frame_id env w)) =
      flat_map (fun p => [Fly (waypoint_args z speed frame_id p); Settle delay]) route /\
    List.length (emitted (fly_route route flight_function z delay speed frame_id env w)) =
      2 * List.length route.
Proof.
  induction route as [|p route IH]; intros f z delay speed frame_id env w Hout.
  - split; reflexivity.
  - rewrite fly_route_cons in *.
    rewrite out_bind, out_bind, out_call in Hout.
    rewrite !emitted_bind, emitted_call, !out_bind, out_call.
    destruct (out (f _ env w)) as [[]| | |]; try discriminate.
    unfold time_sleep in *.
    destruct (sleep_accepts env delay); try discriminate. simpl in *.
    destruct (IH f z delay speed frame_id env _ Hout) as [IH1 IH2].
    rewrite IH1, IH2. split; [reflexivity | lia].
Qed.

Lemma fly_route_sequence_witness :
  let run := fly_route [Point 0 0 1; Point 0 0 2] (reach_point_kw 3) nan
               0x1.999999999999ap-4 SPEED LOCAL_FRAME_ID stepping_up boot in
  out run = Normal tt /\
  player_actions (emitted run) =
    [Fly (FlightArgs 0 0 1 1 "map"); Settle 0x1.999999999999ap-4;
     Fly (FlightArgs 0 0 2 1 "map"); Settle 0x1.999999999999ap-4] /\
  List.length (emitted run) = 4.
Proof.
  split; [vm_compute; reflexivity|].
  apply (fly_route_sequence [Point 0 0 1; Point 0 0 2] (reach_point_kw 3) nan
           0x1.999999999999ap-4 SPEED LOCAL_FRAME_ID stepping_up boot).
  vm_compute; reflexivity.
Defined.

Lemma calls_app t1 t2 : calls (t1 ++ t2) = calls t1 ++ calls t2.
Proof.
  induction t1 as [|e t1 IH]; simpl; [reflexivity|].
  destruct e; simpl; rewrite ?IH; reflexivity.
Qed.

(** C3, as the claim states it, fails for an override that is given and not
    finite: with the override [infinity] the waypoint (0, 0, 1) is flown at
    altitude [infinity], not at its stored altitude 1. *)
Lemma fly_route_infinite_override_counterexample :
  let run := fly_route [Point 0 0 1] navigate_kw infinity 0x1.999999999999ap-4 SPEED
               LOCAL_FRAME_ID (hovering 0 0 1) boot in
  map arg_z (calls (emitted run)) = [infinity] /\
  map (fun p => altitude_as_claimed infinity (point_z p)) [Point 0 0 1] = [1%float] /\
  PrimFloat.is_finite infinity = false /\
  (infinity =? 1)%float = false.
Proof. vm_compute. repeat split. Qed.

(** C3, amended: for every waypoint [fly_route] plays, the altitude it passes
    to the flight function is the override whenever the override is not NaN,
    be it finite or infinite, and the waypoint's stored altitude when the
    override is NaN; x and y are the waypoint's. *)
Theorem fly_route_altitude :
  forall route flight_function z delay speed frame_id env w i args,
    nth_error (calls (emitted (fly_route route flight_function z delay speed frame_id env w))) i
      = Some args ->
    exists p,
      nth_error route i = Some p /\
      arg_z args = (if PrimFloat.is_nan z then point_z p else z) /\
      arg_x args = point_x p /\ arg_y args = point_y p.
Proof.
  induction route as [|p route IH]; intros f z delay speed frame_id env w i args Hi.
  - destruct i; discriminate.
  - rewrite fly_route_cons in Hi.
    rewrite !emitted_bind, emitted_call, !out_bind, out_call in Hi.
    destruct i as [|i].
    + simpl in Hi. injection Hi as <-. exists p. repeat split.
    + simpl in Hi.
      destruct (out (f _ env w)) as [[]| | |]; simpl in Hi;
        try (destruct i; discriminate).
      unfold time_sleep in Hi.
      destruct (sleep_accepts env delay); simpl in Hi; try (destruct i; discriminate).
      destruct (IH f z delay speed frame_id env _ i args Hi) as [q Hq].
      exists q. exact Hq.
Qed.

Lemma fly_route_altitude_witness :
  nth_error (calls (emitted (fly_route [Point 0 0 1; Point 0 0 2] (reach_point_kw 3) 5
                               0x1.999999999999ap-4 SPEED LOCAL_FRAME_ID
                               (hovering 0 0 5) boot))) 1 =
    Some (FlightArgs 0 0 5 1 "map") /\
  exists p,
    nth_error [Point 0 0 1; Point 0 0 2] 1 = Some p /\
    arg_z (FlightArgs 0 0 5 1 "map") = (if PrimFloat.is_nan 5 then point_z p else 5%float) /\
    arg_x (FlightArgs 0 0 5 1 "map") = point_x p /\
    arg_y (FlightArgs 0 0 5 1 "map") = point_y p.
Proof.
  split; [vm_compute; reflexivity|].
  apply (fly_route_altitude [Point 0 0 1; Point 0 0 2] (reach_point_kw 3) 5
           0x1.999999999999ap-4 SPEED LOCAL_FRAME_ID (hovering 0 0 5) boot 1).
  vm_compute; reflexivity.
Defined.

(** The two runs the specification gives for the override. *)
Example fly_route_override_5 :
  map arg_z (calls (emitted (fly_route [Point 0 0 1; Point 0 0 2] (reach_point_kw 3) 5
                               0x1.999999999999ap-4 SPEED LOCAL_FRAME_ID
                               (hovering 0 0 5) boot))) = [5%float; 5%float].
Proof. vm_compute. reflexivity. Qed.

Example fly_route_no_override :
  map arg_z (calls (emitted (fly_route [Point 0 0 1; Point 0 0 2] (reach_point_kw 3) nan
                               0x1.999999999999ap-4 SPEED LOCAL_FRAME_ID
                               stepping_up boot))) = [1%float; 2%float].
Proof. vm_compute. reflexivity. Qed.

(** ** Strings *)

Lemma string_app_assoc (a b c : string) : ((a ++ b) ++ c = a ++ (b ++ c))%string.
Proof. induction a as [|x a IH]; simpl; [reflexivity | rewrite IH; reflexivity]. Qed.

Lemma string_app_nil_r (a : string) : (a ++ "" = a)%string.
Proof. induction a as [|x a IH]; simpl; [reflexivity | rewrite IH; reflexivity]. Qed.

Lemma string_length_app (a b : string) :
  String.length (a ++ b) = String.length a + String.length b.
Proof. induction a as [|x a IH]; simpl; [reflexivity | rewrite IH; reflexivity]. Qed.

Lemma string_exists_app p (a b : string) :
  Csv.string_exists p (a ++ b) = Csv.string_exists p a || Csv.string_exists p b.
Proof.
  induction a as [|x a IH]; simpl; [reflexivity|].
  rewrite IH. apply orb_assoc.
Qed.

(** ** The CSV writer and reader on plain fields *)

Lemma bad_char_false c :
  bad_char c = false ->
  Ascii.eqb c ","%char = false /\ Ascii.eqb c Csv.double_quote = false /\
  Ascii.eqb c "|"%char = false /\ Ascii.eqb c Csv.CR = false /\
  Ascii.eqb c Csv.LF = false /\ Ascii.eqb c Csv.NUL = false.
Proof.
  unfold bad_char. intros H.
  repeat (apply orb_false_elim in H; destruct H as [H ?]).
  repeat split; assumption.
Qed.

Lemma plain_inv s :
  plain s = true ->
  Csv.string_exists bad_char s = false /\ s <> "" /\
  (Z.of_nat (String.length s) <= Csv.field_limit)%Z.
Proof.
  unfold plain. intros H.
  apply andb_prop in H. destruct H as [H Hlen].
  apply andb_prop in H. destruct H as [Hbad Hne].
  apply negb_true_iff in Hbad. apply negb_true_iff in Hne.
  repeat split; [exact Hbad | | apply Z.leb_le; exact Hlen].
  intros ->. discriminate.
Qed.

Lemma write_field_plain s :
  Csv.string_exists bad_char s = false -> Csv.write_field Csv.writer_dialect s = s.
Proof.
  intros H. unfold Csv.write_field.
  replace (Csv.string_exists (Csv.special Csv.writer_dialect) s) with false; [reflexivity|].
  symmetry. induction s as [|c s IH]; simpl in *; [reflexivity|].
  apply orb_false_elim in H. destruct H as [Hc Hs].
  rewrite (IH Hs), orb_false_r.
  destruct (bad_char_false c Hc) as (H1 & H2 & _ & H4 & H5 & _).
  unfold Csv.special, Csv.is_newline. simpl. rewrite H1, H2, H4, H5. reflexivity.
Qed.

Lemma row_body_app a b c tail :
  (row_body a b c ++ tail = a ++ String ","%char (b ++ String ","%char (c ++ tail)))%string.
Proof.
  unfold row_body. rewrite string_app_assoc. simpl. rewrite string_app_assoc. reflexivity.
Qed.

Lemma format_row_three a b c :
  Csv.string_exists bad_char a = false -> Csv.string_exists bad_char b = false ->
  Csv.string_exists bad_char c = false ->
  Csv.format_row Csv.writer_dialect [a; b; c] = (row_body a b c ++ Csv.lineterminator)%string.
Proof.
  intros Ha Hb Hc.
  assert (E : Csv.format_row Csv.writer_dialect [a; b; c] =
              (Csv.join_fields Csv.writer_dialect [a; b; c] ++ Csv.lineterminator)%string)
    by (destruct a; reflexivity).
  rewrite E. simpl.
  rewrite (write_field_plain a Ha), (write_field_plain b Hb), (write_field_plain c Hc).
  reflexivity.
Qed.

Lemma feed_line_app d s1 : forall r s2,
  Csv.feed_line d r (s1 ++ s2) =
  bind_pure (feed_chars d r s1) (fun r' => Csv.feed_line d r' s2).
Proof.
  induction s1 as [|c s1 IH]; intros r s2; simpl; [reflexivity|].
  destruct (Ascii.eqb c Csv.NUL); [reflexivity|].
  destruct (Csv.parse_process_char d r (Some c)); simpl; try reflexivity.
  apply IH.
Qed.

Lemma feed_chars_in_field s : forall fields text,
  Csv.string_exists bad_char s = false ->
  (Z.of_nat (String.length text + String.length s) <= Csv.field_limit)%Z ->
  feed_chars Csv.reader_dialect (in_field fields text) s =
    Normal (in_field fields (text ++ s)).
Proof.
  induction s as [|c s IH]; intros fields text Hbad Hlen; simpl.
  - rewrite string_app_nil_r. reflexivity.
  - simpl in Hbad. apply orb_false_elim in Hbad. destruct Hbad as [Hc Hs].
    destruct (bad_char_false c Hc) as (H1 & H2 & H3 & H4 & H5 & H6).
    rewrite H6.
    unfold Csv.parse_process_char. simpl.
    unfold Csv.is_newline. rewrite H4, H5, H1. simpl.
    unfold Csv.parse_add_char. simpl.
    simpl in Hlen.
    destruct (Z.leb_spec Csv.field_limit (Z.of_nat (String.length text))) as [Hbig|_];
      [lia|].
    simpl. fold (in_field fields (text ++ String c "")).
    rewrite IH; [| exact Hs | rewrite string_length_app; simpl; lia].
    rewrite string_app_assoc. reflexivity.
Qed.

(** The first character of a plain field opens the field, from the start of
    a record as well as after a delimiter. *)
Lemma feed_chars_plain st fields s :
  st = Csv.START_RECORD \/ st = Csv.START_FIELD ->
  plain s = true ->
  feed_chars Csv.reader_dialect
    {| Csv.state := st; Csv.field := ""; Csv.fields := fields |} s =
    Normal (in_field fields s).
Proof.
  intros Hst Hplain.
  destruct (plain_inv s Hplain) as (Hbad & Hne & Hlen).
  destruct s as [|c s]; [congruence|]. clear Hne.
  simpl in Hbad. apply orb_false_elim in Hbad. destruct Hbad as [Hc Hs].
  destruct (bad_char_false c Hc) as (H1 & H2 & H3 & H4 & H5 & H6).
  simpl. rewrite H6.
  assert (E : Csv.parse_process_char Csv.reader_dialect
                {| Csv.state := st; Csv.field := ""; Csv.fields := fields |} (Some c) =
              Normal (in_field fields (String c ""))).
  { unfold Csv.parse_process_char, Csv.start_field, Csv.is_newline.
    destruct Hst as [-> | ->]; simpl; unfold Csv.is_newline; rewrite H4, H5, H3, H1;
      reflexivity. }
  rewrite E. simpl.
  rewrite feed_chars_in_field; [reflexivity | exact Hs | simpl in *; lia].
Qed.

(** A line of three plain fields, ended by CR LF or, under universal
    newlines, by LF alone, is the record of its fields. *)
Lemma feed_line_row (crlf : bool) a b c :
  plain a = true -> plain b = true -> plain c = true ->
  Csv.feed_line Csv.reader_dialect Csv.parse_reset
    (row_body a b c ++ (if crlf then Csv.lineterminator else String Csv.LF ""))%string =
    Normal {| Csv.state := Csv.START_RECORD; Csv.field := ""; Csv.fields := [a; b; c] |}.
Proof.
  intros Ha Hb Hc. rewrite row_body_app.
  rewrite feed_line_app. unfold Csv.parse_reset.
  rewrite (feed_chars_plain _ _ a (or_introl eq_refl) Ha). simpl.
  rewrite feed_line_app. unfold Csv.set_state, Csv.parse_save_field, in_field. simpl.
  rewrite (feed_chars_plain _ _ b (or_intror eq_refl) Hb). simpl.
  rewrite feed_line_app. unfold Csv.set_state, Csv.parse_save_field, in_field. simpl.
  rewrite (feed_chars_plain _ _ c (or_intror eq_refl) Hc). simpl.
  destruct crlf; reflexivity.
Qed.

Lemma plain_no_newline s :
  Csv.string_exists bad_char s = false ->
  Csv.string_exists Csv.is_newline s = false /\
  Csv.string_exists (fun c => Ascii.eqb c Csv.LF) s = false.
Proof.
  induction s as [|c s IH]; simpl; intros H; [split; reflexivity|].
  apply orb_false_elim in H. destruct H as [Hc Hs].
  destruct (bad_char_false c Hc) as (H1 & H2 & H3 & H4 & H5 & H6).
  destruct (IH Hs) as [IH1 IH2].
  unfold Csv.is_newline. rewrite H4, H5, IH2. simpl. split; [exact IH1 | reflexivity].
Qed.

Lemma row_body_no_newline a b c :
  Csv.string_exists bad_char a = false -> Csv.string_exists bad_char b = false ->
  Csv.string_exists bad_char c = false ->
  Csv.string_exists Csv.is_newline (row_body a b c) = false /\
  Csv.string_exists (fun x => Ascii.eqb x Csv.LF) (row_body a b c ++ String Csv.CR "") = false.
Proof.
  intros Ha Hb Hc.
  destruct (plain_no_newline a Ha) as [A1 A2].
  destruct (plain_no_newline b Hb) as [B1 B2].
  destruct (plain_no_newline c Hc) as [C1 C2].
  unfold row_body. split.
  - rewrite string_exists_app. simpl. rewrite string_exists_app. simpl.
    rewrite A1, B1, C1. reflexivity.
  - rewrite !string_exists_app. simpl. rewrite string_exists_app. simpl.
    rewrite A2, B2, C2. reflexivity.
Qed.

Lemma lines_of_line body rest :
  Csv.string_exists (fun c => Ascii.eqb c Csv.LF) body = false ->
  Csv.lines_of (body ++ String Csv.LF rest) =
    (body ++ String Csv.LF "")%string :: Csv.lines_of rest.
Proof.
  induction body as [|c body IH]; intros H; simpl in *; [reflexivity|].
  apply orb_false_elim in H. destruct H as [Hc Hb].
  rewrite Hc, (IH Hb). reflexivity.
Qed.

Lemma translate_newlines_line body rest :
  Csv.string_exists Csv.is_newline body = false ->
  Csv.translate_newlines false (body ++ Csv.lineterminator ++ rest) =
    (body ++ String Csv.LF (Csv.translate_newlines false rest))%string.
Proof.
  assert (G : forall after_cr,
             Csv.string_exists Csv.is_newline body = false ->
             Csv.translate_newlines after_cr (body ++ Csv.lineterminator ++ rest) =
               (body ++ String Csv.LF (Csv.translate_newlines false rest))%string).
  { induction body as [|c body IH]; intros after_cr H; simpl in *.
    - reflexivity.
    - apply orb_false_elim in H. destruct H as [Hc Hb].
      unfold Csv.is_newline in Hc. apply orb_false_elim in Hc. destruct Hc as [Hcr Hlf].
      rewrite Hcr, Hlf. simpl. rewrite (IH false Hb). reflexivity. }
  apply G.
Qed.

Section RouteFile.

Context {float_text : FloatText}.

Lemma import_row_reads_back x y z acc :
  reads_back x -> reads_back y -> reads_back z ->
  import_row [float_repr x; float_repr y; float_repr z] acc =
    Normal (acc ++ [row_point [x; y; z]]).
Proof.
  intros [_ Hx] [_ Hy] [_ Hz]. unfold import_row, float_. rewrite Hx, Hy, Hz. reflexivity.
Qed.

Lemma file_lines_row universal a b c rest :
  Csv.string_exists bad_char a = false -> Csv.string_exists bad_char b = false ->
  Csv.string_exists bad_char c = false ->
  Csv.file_lines universal ((row_body a b c ++ Csv.lineterminator) ++ rest) =
    (row_body a b c ++ (if universal then String Csv.LF "" else Csv.lineterminator))%string
    :: Csv.file_lines universal rest.
Proof.
  intros Ha Hb Hc.
  destruct (row_body_no_newline a b c Ha Hb Hc) as [N1 N2].
  unfold Csv.file_lines. destruct universal.
  - rewrite string_app_assoc, (translate_newlines_line _ _ N1).
    apply lines_of_line.
    clear -N1. induction (row_body a b c) as [|x s IH]; simpl in *; [reflexivity|].
    apply orb_false_elim in N1. destruct N1 as [Hx Hs].
    unfold Csv.is_newline in Hx. apply orb_false_elim in Hx. destruct Hx as [_ Hlf].
    rewrite Hlf, (IH Hs). reflexivity.
  - replace ((row_body a b c ++ Csv.lineterminator) ++ rest)%string
      with ((row_body a b c ++ String Csv.CR "") ++ String Csv.LF rest)%string
      by (rewrite !string_app_assoc; reflexivity).
    rewrite (lines_of_line _ _ N2), string_app_assoc. reflexivity.
Qed.

Lemma for_rows_route_text universal rows : forall acc,
  Forall is_triple rows -> Forall (Forall reads_back) rows ->
  Csv.for_rows Csv.reader_dialect (Csv.file_lines universal (route_text rows))
    Csv.parse_reset import_row acc = Normal (acc ++ map row_point rows).
Proof.
  induction rows as [|row rows IH]; intros acc H3 Hok.
  - destruct universal; simpl; rewrite app_nil_r; reflexivity.
  - inversion H3 as [|? ? Hrow H3']; subst. inversion Hok as [|? ? Hvals Hok']; subst.
    destruct row as [|x [|y [|z [|? ?]]]]; try discriminate. clear Hrow.
    inversion Hvals as [|? ? Hx Hvals1]; subst.
    inversion Hvals1 as [|? ? Hy Hvals2]; subst.
    inversion Hvals2 as [|? ? Hz _]; subst.
    destruct (plain_inv _ (proj1 Hx)) as (Bx & _ & _).
    destruct (plain_inv _ (proj1 Hy)) as (By & _ & _).
    destruct (plain_inv _ (proj1 Hz)) as (Bz & _ & _).
    cbn [route_text map].
    rewrite (format_row_three _ _ _ Bx By Bz), (file_lines_row _ _ _ _ _ Bx By Bz).
    cbn [Csv.for_rows].
    replace (if universal then String Csv.LF "" else Csv.lineterminator)
      with (if negb universal then Csv.lineterminator else String Csv.LF "")
      by (destruct universal; reflexivity).
    rewrite (feed_line_row _ _ _ _ (proj1 Hx) (proj1 Hy) (proj1 Hz)).
    cbn [bind_pure Csv.state Csv.fields].
    rewrite (import_row_reads_back x y z acc Hx Hy Hz).
    cbn [bind_pure]. rewrite (IH _ H3' Hok'), <- app_assoc. reflexivity.
Qed.

End RouteFile.

(** ** The route recorder *)

Section Recorder.

Context {float_text : FloatText}.
Variables (filename : string) (add_trigger stop_trigger : nat) (frame_id : string).

Lemma wait_for_add_run fuel : forall env w,
  waits_for_add filename add_trigger stop_trigger
    (emitted (wait_for_add fuel filename add_trigger stop_trigger env w))
    (out (wait_for_add fuel filename add_trigger stop_trigger env w)).
Proof.
  unfold wait_for_add.
  induction fuel as [|fuel IH]; intros env w; rewrite while_unfold; monad_simpl;
    destruct (event_state env add_trigger (now w)); simpl; try constructor.
  monad_simpl.
  destruct (event_state env stop_trigger (S (now w))); simpl; monad_simpl.
  - constructor.
  - apply (add_wait_tick filename add_trigger stop_trigger). apply IH.
Qed.

Lemma wait_for_release_run fuel : forall env w,
  waits_for_release filename add_trigger stop_trigger
    (emitted (wait_for_release fuel filename add_trigger stop_trigger env w))
    (out (wait_for_release fuel filename add_trigger stop_trigger env w)).
Proof.
  unfold wait_for_release.
  induction fuel as [|fuel IH]; intros env w; rewrite while_unfold; monad_simpl;
    destruct (event_state env add_trigger (now w)); simpl; try constructor.
  monad_simpl.
  destruct (event_state env stop_trigger (S (now w))); simpl; monad_simpl.
  - constructor.
  - apply (release_wait_tick filename add_trigger stop_trigger). apply IH.
Qed.

Lemma record_point_run fuel env w :
  records_point filename add_trigger stop_trigger frame_id
    (emitted (record_point fuel filename add_trigger stop_trigger frame_id env w))
    (out (record_point fuel filename add_trigger stop_trigger frame_id env w)).
Proof.
  unfold record_point. rewrite emitted_bind, out_bind.
  pose proof (wait_for_add_run fuel env w) as Hadd.
  destruct (out (wait_for_add fuel filename add_trigger stop_trigger env w))
    as [[]| | |] eqn:Eo.
  - monad_simpl.
    apply (point_added filename add_trigger stop_trigger frame_id _ _ _ _ Hadd).
    apply wait_for_release_run.
  - rewrite app_nil_r. apply point_not_added; [exact Hadd | discriminate].
  - rewrite app_nil_r. apply point_not_added; [exact Hadd | discriminate].
  - rewrite app_nil_r. apply point_not_added; [exact Hadd | discriminate].
Qed.

Lemma recording_loop_run fuel : forall env w,
  records filename add_trigger stop_trigger frame_id
    (emitted (recording_loop fuel filename add_trigger stop_trigger frame_id env w))
    (out (recording_loop fuel filename add_trigger stop_trigger frame_id env w)).
Proof.
  unfold recording_loop.
  generalize fuel at 2 4 as inner.
  induction fuel as [|fuel IH]; intros inner env w; rewrite while_unfold; monad_simpl;
    destruct (event_state env stop_trigger (now w)); simpl;
    try apply records_stop; try apply records_cut.
  rewrite emitted_bind, out_bind.
  pose proof (record_point_run inner env (tick w)) as Hpoint.
  destruct (out (record_point inner filename add_trigger stop_trigger frame_id env (tick w)))
    as [[]| | |] eqn:Eo.
  - apply (records_more filename add_trigger stop_trigger frame_id _ _ _ Hpoint). apply IH.
  - rewrite app_nil_r. apply records_last; [exact Hpoint | discriminate].
  - rewrite app_nil_r. apply records_last; [exact Hpoint | discriminate].
  - rewrite app_nil_r. apply records_last; [exact Hpoint | discriminate].
Qed.

Lemma waits_for_add_outcome t o :
  waits_for_add filename add_trigger stop_trigger t o ->
  o = Normal tt \/ o = Returned \/ o = OutOfFuel.
Proof. induction 1; auto. Qed.

Lemma waits_for_release_outcome t o :
  waits_for_release filename add_trigger stop_trigger t o ->
  o = Normal tt \/ o = Returned \/ o = OutOfFuel.
Proof. induction 1; auto. Qed.

Lemma records_point_outcome t o :
  records_point filename add_trigger stop_trigger frame_id t o ->
  o = Normal tt \/ o = Returned \/ o = OutOfFuel.
Proof.
  destruct 1; eauto using waits_for_add_outcome, waits_for_release_outcome.
Qed.

Lemma records_outcome t o :
  records filename add_trigger stop_trigger frame_id t o ->
  o = Normal tt \/ o = Returned \/ o = OutOfFuel.
Proof. induction 1; eauto using records_point_outcome. Qed.

Lemma create_route_run fuel env w :
  creates_route filename add_trigger stop_trigger frame_id
    (emitted (create_route fuel filename add_trigger stop_trigger frame_id env w))
    (out (create_route fuel filename add_trigger stop_trigger frame_id env w)).
Proof.
  unfold create_route. rewrite emitted_function_body, out_function_body. monad_simpl.
  match goal with
  | |- context [recording_loop fuel filename add_trigger stop_trigger frame_id env ?w1] =>
      pose proof (recording_loop_run fuel env w1) as Hloop;
      destruct (out (recording_loop fuel filename add_trigger stop_trigger frame_id env w1))
        as [[]| | |] eqn:Eo
  end; simpl; rewrite ?app_nil_r.
  - apply (creates_to_stop filename add_trigger stop_trigger frame_id _ Hloop).
  - apply (creates_to_return filename add_trigger stop_trigger frame_id _ Hloop).
  - apply records_outcome in Hloop. destruct Hloop as [H | [H | H]]; discriminate.
  - apply (creates_cut filename add_trigger stop_trigger frame_id _ Hloop).
Qed.

(** *** The stop trigger is read before every sleep *)

Lemma polled_before_sleeps_mono t : forall checked,
  polled_before_sleeps stop_trigger false t = true ->
  polled_before_sleeps stop_trigger checked t = true.
Proof.
  destruct t as [|e t]; intros checked H; [reflexivity|].
  destruct e; simpl in *; try exact H. discriminate.
Qed.

Lemma polled_before_sleeps_app t1 : forall checked t2,
  polled_before_sleeps stop_trigger checked t1 = true ->
  polled_before_sleeps stop_trigger false t2 = true ->
  polled_before_sleeps stop_trigger checked (t1 ++ t2) = true.
Proof.
  induction t1 as [|e t1 IH]; intros checked t2 H1 H2; simpl.
  - apply polled_before_sleeps_mono. exact H2.
  - destruct e; simpl in *; try (apply IH; assumption).
    apply andb_prop in H1. destruct H1 as [-> H1]. simpl. apply IH; assumption.
Qed.

Lemma waits_for_add_polled t o :
  waits_for_add filename add_trigger stop_trigger t o ->
  polled_before_sleeps stop_trigger false t = true.
Proof.
  induction 1 as [| | |t o H IH]; try reflexivity.
  simpl. rewrite Nat.eqb_refl. exact IH.
Qed.

Lemma waits_for_release_polled t o :
  waits_for_release filename add_trigger stop_trigger t o ->
  polled_before_sleeps stop_trigger false t = true.
Proof.
  induction 1 as [| | |t o H IH]; try reflexivity.
  simpl. rewrite Nat.eqb_refl. exact IH.
Qed.

Lemma records_point_polled t o :
  records_point filename add_trigger stop_trigger frame_id t o ->
  polled_before_sleeps stop_trigger false t = true.
Proof.
  destruct 1 as [t o H Ho | t1 telem t2 o H1 H2].
  - apply (waits_for_add_polled _ _ H).
  - apply polled_before_sleeps_app; [apply (waits_for_add_polled _ _ H1)|].
    simpl. apply (waits_for_release_polled _ _ H2).
Qed.

Lemma records_polled t o :
  records filename add_trigger stop_trigger frame_id t o ->
  polled_before_sleeps stop_trigger false t = true.
Proof.
  induction 1 as [| |t o H Ho|t1 t2 o H1 H2 IH]; try reflexivity.
  - simpl. apply polled_before_sleeps_mono. apply (records_point_polled _ _ H).
  - simpl. apply polled_before_sleeps_app; [|exact IH].
    apply polled_before_sleeps_mono. apply (records_point_polled _ _ H1).
Qed.

Lemma creates_route_polled t o :
  creates_route filename add_trigger stop_trigger frame_id t o ->
  polled_before_sleeps stop_trigger false t = true.
Proof.
  destruct 1 as [t H | t H | t H]; simpl.
  - apply polled_before_sleeps_app; [apply (records_polled _ _ H) | reflexivity].
  - apply (records_polled _ _ H).
  - apply (records_polled _ _ H).
Qed.

(** *** Edge triggering *)

Hypothesis distinct : add_trigger <> stop_trigger.

Lemma stop_is_not_add : Nat.eqb stop_trigger add_trigger = false.
Proof. apply Nat.eqb_neq. congruence. Qed.

Lemma edge_run_app t1 : forall s t2,
  edge_run add_trigger s (t1 ++ t2) =
  match edge_run add_trigger s t1 with
  | Some s' => edge_run add_trigger s' t2
  | None => None
  end.
Proof.
  induction t1 as [|e t1 IH]; intros s t2; simpl; [reflexivity|].
  destruct (edge_step add_trigger s e); [apply IH | reflexivity].
Qed.

Lemma rising_edges_app t1 : forall prev t2,
  rising_edges add_trigger prev (t1 ++ t2) =
  rising_edges add_trigger prev t1 +
  rising_edges add_trigger (last_reading add_trigger prev t1) t2.
Proof.
  induction t1 as [|e t1 IH]; intros prev t2; simpl; [reflexivity|].
  destruct e; try apply IH.
  destruct (Nat.eqb trigger add_trigger); rewrite IH; lia.
Qed.

Lemma last_reading_app t1 : forall prev t2,
  last_reading add_trigger prev (t1 ++ t2) =
  last_reading add_trigger (last_reading add_trigger prev t1) t2.
Proof.
  induction t1 as [|e t1 IH]; intros prev t2; simpl; [reflexivity|].
  destruct e; try apply IH.
  destruct (Nat.eqb trigger add_trigger); apply IH.
Qed.

Lemma written_rows_app t1 t2 : written_rows (t1 ++ t2) = written_rows t1 ++ written_rows t2.
Proof.
  induction t1 as [|e t1 IH]; simpl; [reflexivity|].
  destruct e; simpl; rewrite ?IH; reflexivity.
Qed.

Lemma samples_app t1 t2 : samples (t1 ++ t2) = samples t1 ++ samples t2.
Proof.
  induction t1 as [|e t1 IH]; simpl; [reflexivity|].
  destruct e; simpl; rewrite ?IH; reflexivity.
Qed.

Ltac trigger_simpl :=
  repeat (progress (simpl; rewrite ?Nat.eqb_refl, ?stop_is_not_add)).

(** What a wait adds to the readings of the add trigger: the wait for the
    trigger ends a stretch of unset readings with a set one when it ends
    normally, the wait for the release the other way round. *)
Lemma waits_for_add_edges t o :
  waits_for_add filename add_trigger stop_trigger t o ->
  written_rows t = [] /\ samples t = [] /\
  rising_edges add_trigger false t = (if is_normal o then 1 else 0) /\
  last_reading add_trigger false t = is_normal o /\
  edge_run add_trigger {| reading := false; owed := false |} t =
    Some {| reading := is_normal o; owed := is_normal o |}.
Proof.
  induction 1 as [| | |t o H IH]; try (trigger_simpl; repeat split; reflexivity).
  destruct IH as (IH1 & IH2 & IH3 & IH4 & IH5).
  rewrite written_rows_app, samples_app, rising_edges_app, last_reading_app, edge_run_app.
  trigger_simpl. auto.
Qed.

Lemma waits_for_release_edges t o :
  waits_for_release filename add_trigger stop_trigger t o ->
  written_rows t = [] /\ samples t = [] /\
  rising_edges add_trigger true t = 0 /\
  last_reading add_trigger true t = negb (is_normal o) /\
  edge_run add_trigger {| reading := true; owed := false |} t =
    Some {| reading := negb (is_normal o); owed := false |}.
Proof.
  induction 1 as [| | |t o H IH]; try (trigger_simpl; repeat split; reflexivity).
  destruct IH as (IH1 & IH2 & IH3 & IH4 & IH5).
  rewrite written_rows_app, samples_app, rising_edges_app, last_reading_app, edge_run_app.
  trigger_simpl. auto.
Qed.

Lemma records_point_edges t o :
  records_point filename add_trigger stop_trigger frame_id t o -> edge_triggered add_trigger t o.
Proof.
  destruct 1 as [t o H Ho | t1 telem t2 o H1 H2].
  - destruct (waits_for_add_edges t o H) as (E1 & E2 & E3 & E4 & E5).
    assert (N : is_normal o = false).
    { destruct (waits_for_add_outcome t o H) as [-> | [-> | ->]];
        [congruence | reflexivity | reflexivity]. }
    unfold edge_triggered. rewrite N in *. rewrite E1, E2, E3, E5.
    conj_split; try reflexivity; try discriminate.
    exists false. split; [reflexivity | discriminate].
  - destruct (waits_for_add_edges t1 _ H1) as (A1 & A2 & A3 & A4 & A5).
    destruct (waits_for_release_edges t2 o H2) as (R1 & R2 & R3 & R4 & R5).
    simpl in A3, A4, A5. unfold edge_triggered.
    rewrite !written_rows_app, !samples_app, !rising_edges_app, !last_reading_app,
      !edge_run_app.
    rewrite A1, A2, A3, A4, A5, R1, R2. trigger_simpl. rewrite R3, R4, R5.
    conj_split; try reflexivity.
    + intros N. rewrite N. reflexivity.
    + exists (negb (is_normal o)). split; [reflexivity|]. intros N. rewrite N. reflexivity.
Qed.

Lemma records_edges t o :
  records filename add_trigger stop_trigger frame_id t o -> edge_triggered add_trigger t o.
Proof.
  induction 1 as [| |t o H Ho|t1 t2 o H1 H2 IH].
  - unfold edge_triggered. trigger_simpl.
    conj_split; try reflexivity. exists false. split; reflexivity.
  - unfold edge_triggered. trigger_simpl.
    conj_split; try reflexivity; try discriminate.
    exists false. split; [reflexivity | discriminate].
  - destruct (records_point_edges t o H) as (E1 & E2 & E3 & b & E4 & E5).
    unfold edge_triggered. trigger_simpl.
    conj_split; try assumption. exists b. split; assumption.
  - destruct (records_point_edges t1 _ H1) as (E1 & E2 & E3 & b & E4 & E5).
    destruct IH as (I1 & I2 & I3 & c & I4 & I5).
    specialize (E3 eq_refl). specialize (E5 eq_refl). subst b.
    unfold edge_triggered. trigger_simpl.
    rewrite !written_rows_app, !samples_app, !rising_edges_app, !last_reading_app,
      !edge_run_app.
    rewrite E3, E4, length_app, I1, E1, I2, E2, map_app.
    conj_split; try reflexivity; try assumption.
    exists c. split; assumption.
Qed.

Lemma creates_route_edges t o :
  creates_route filename add_trigger stop_trigger frame_id t o ->
  List.length (written_rows t) = rising_edges add_trigger false t /\
  written_rows t = map telemetry_row (samples t) /\
  exists b,
    edge_run add_trigger {| reading := false; owed := false |} t =
      Some {| reading := b; owed := false |}.
Proof.
  destruct 1 as [t H | t H | t H];
    destruct (records_edges t _ H) as (E1 & E2 & E3 & b & E4 & E5); simpl;
    rewrite ?written_rows_app, ?samples_app, ?rising_edges_app, ?edge_run_app, ?E4;
    simpl; rewrite ?app_nil_r, ?Nat.add_0_r;
    (split; [exact E1 | split; [exact E2 | exists b; reflexivity]]).
Qed.

(** *** The stop trigger *)

Lemma add_is_not_stop : Nat.eqb add_trigger stop_trigger = false.
Proof. apply Nat.eqb_neq. exact distinct. Qed.

Lemma unread_app t1 t2 :
  unread stop_trigger (t1 ++ t2) = unread stop_trigger t1 && unread stop_trigger t2.
Proof. unfold unread. rewrite existsb_app, negb_orb. reflexivity. Qed.

Lemma unread_cons e t :
  unread stop_trigger (e :: t) = negb (reads_set stop_trigger e) && unread stop_trigger t.
Proof. unfold unread. simpl. apply negb_orb. Qed.

Lemma unread_nil : unread stop_trigger [] = true.
Proof. reflexivity. Qed.

Ltac unread_simpl :=
  unfold idle_tick, held_tick, capture, stop_seen;
  repeat (progress (rewrite ?unread_app, ?unread_cons, ?unread_nil;
                    cbn [reads_set negb andb app];
                    rewrite ?Nat.eqb_refl, ?add_is_not_stop;
                    cbn [negb andb])).

Lemma waits_for_add_stopped t o :
  waits_for_add filename add_trigger stop_trigger t o -> wait_stopped filename stop_trigger t o.
Proof.
  induction 1 as [| | |t o H IH]; simpl.
  - unread_simpl. reflexivity.
  - exists [EvIsSet add_trigger false]. split; [reflexivity|]. unread_simpl. reflexivity.
  - unread_simpl. reflexivity.
  - destruct o as [[]| | |]; simpl in *.
    + unread_simpl. exact IH.
    + destruct IH as (before & -> & Hb).
      exists (idle_tick add_trigger stop_trigger ++ before).
      split; [list_assoc|]. unread_simpl. exact Hb.
    + unread_simpl. exact IH.
    + unread_simpl. exact IH.
Qed.

Lemma waits_for_release_stopped t o :
  waits_for_release filename add_trigger stop_trigger t o -> wait_stopped filename stop_trigger t o.
Proof.
  induction 1 as [| | |t o H IH]; simpl.
  - unread_simpl. reflexivity.
  - exists [EvIsSet add_trigger true]. split; [reflexivity|]. unread_simpl. reflexivity.
  - unread_simpl. reflexivity.
  - destruct o as [[]| | |]; simpl in *.
    + unread_simpl. exact IH.
    + destruct IH as (before & -> & Hb).
      exists (held_tick add_trigger stop_trigger ++ before).
      split; [list_assoc|]. unread_simpl. exact Hb.
    + unread_simpl. exact IH.
    + unread_simpl. exact IH.
Qed.

Lemma records_point_stopped t o :
  records_point filename add_trigger stop_trigger frame_id t o ->
  wait_stopped filename stop_trigger t o.
Proof.
  destruct 1 as [t o H Ho | t1 telem t2 o H1 H2].
  - apply waits_for_add_stopped. exact H.
  - pose proof (waits_for_add_stopped _ _ H1) as A. simpl in A.
    pose proof (waits_for_release_stopped _ _ H2) as R.
    destruct o as [[]| | |]; simpl in *.
    + unread_simpl. rewrite A, R. reflexivity.
    + destruct R as (before & -> & Hb).
      exists (t1 ++ capture filename frame_id telem ++ before).
      split; [list_assoc|]. unread_simpl. rewrite A, Hb. reflexivity.
    + unread_simpl. rewrite A, R. reflexivity.
    + unread_simpl. rewrite A, R. reflexivity.
Qed.

Lemma records_stopped t o :
  records filename add_trigger stop_trigger frame_id t o -> loop_stopped filename stop_trigger t o.
Proof.
  induction 1 as [| |t o H Ho|t1 t2 o H1 H2 IH]; simpl.
  - exists []. split; reflexivity.
  - unread_simpl. reflexivity.
  - pose proof (records_point_stopped _ _ H) as P.
    destruct o as [[]| | |]; simpl in *.
    + congruence.
    + destruct P as (before & -> & Hb).
      exists (EvIsSet stop_trigger false :: before). split; [reflexivity|].
      unread_simpl. exact Hb.
    + unread_simpl. exact P.
    + unread_simpl. exact P.
  - pose proof (records_point_stopped _ _ H1) as P. simpl in P.
    destruct o as [[]| | |]; simpl in *.
    + destruct IH as (before & -> & Hb).
      exists (EvIsSet stop_trigger false :: t1 ++ before).
      split; [list_assoc|]. unread_simpl. rewrite P, Hb. reflexivity.
    + destruct IH as (before & -> & Hb).
      exists (EvIsSet stop_trigger false :: t1 ++ before).
      split; [list_assoc|]. unread_simpl. rewrite P, Hb. reflexivity.
    + unread_simpl. rewrite P, IH. reflexivity.
    + unread_simpl. rewrite P, IH. reflexivity.
Qed.

Lemma creates_route_stopped t o :
  creates_route filename add_trigger stop_trigger frame_id t o ->
  (o = Normal tt /\
   exists before, t = before ++ stop_seen filename stop_trigger /\
                  unread stop_trigger before = true) \/
  unread stop_trigger t = true.
Proof.
  destruct 1 as [t H | t H | t H]; pose proof (records_stopped _ _ H) as L; simpl in L.
  - left. split; [reflexivity|]. destruct L as (before & -> & Hb).
    exists ([EvOpenWrite filename; EvLog INFO (OpenFile filename)] ++ before).
    split; [list_assoc|]. unread_simpl. exact Hb.
  - left. split; [reflexivity|]. destruct L as (before & -> & Hb).
    exists ([EvOpenWrite filename; EvLog INFO (OpenFile filename)] ++ before).
    split; [list_assoc|]. unread_simpl. exact Hb.
  - right. unread_simpl. exact L.
Qed.

(** The first reading of the stop trigger as set is where a sequence of
    actions splits. *)
Lemma first_reading_unique before : forall rest before' rest',
  unread stop_trigger before = true ->
  unread stop_trigger rest = true ->
  before ++ EvIsSet stop_trigger true :: rest =
    before' ++ EvIsSet stop_trigger true :: rest' ->
  before' = before /\ rest' = rest.
Proof.
  induction before as [|e before IH]; intros rest before' rest' Hb Hr E.
  - destruct before' as [|e' before']; simpl in E.
    + injection E as <-. split; reflexivity.
    + injection E as <- ->. exfalso.
      rewrite unread_app, unread_cons in Hr. simpl in Hr.
      rewrite Nat.eqb_refl, andb_false_r in Hr. discriminate.
  - destruct before' as [|e' before']; simpl in E.
    + injection E as -> _. exfalso.
      rewrite unread_cons in Hb. simpl in Hb. rewrite Nat.eqb_refl in Hb. discriminate.
    + injection E as <- E.
      assert (Hb' : unread stop_trigger before = true).
      { rewrite unread_cons in Hb. apply andb_prop in Hb. apply Hb. }
      destruct (IH _ _ _ Hb' Hr E) as [-> ->]. split; reflexivity.
Qed.

End Recorder.

(** ** Relations between the worlds before and after *)

Section Maintains.

Variable R : World -> list event -> World -> Prop.
Hypothesis R_nil : forall w, R w [] w.
Hypothesis R_app :
  forall w t1 w1 t2 w2, R w t1 w1 -> R w1 t2 w2 -> R w (t1 ++ t2) w2.

Lemma maintains_ret {A} (a : A) : maintains R (ret a).
Proof. intros env w. apply R_nil. Qed.

Lemma maintains_lift {A} (o : outcome A) : maintains R (lift o).
Proof. intros env w. apply R_nil. Qed.

Lemma maintains_return {A} : maintains R (@return_ A).
Proof. intros env w. apply R_nil. Qed.

Lemma maintains_bind {A B} (m : M A) (k : A -> M B) :
  maintains R m -> (forall a, maintains R (k a)) -> maintains R (bind m k).
Proof.
  intros Hm Hk env w. rewrite emitted_bind, final_bind.
  specialize (Hm env w).
  destruct (out (m env w)); rewrite ?app_nil_r; try exact Hm.
  eapply R_app; [exact Hm | apply Hk].
Qed.

Lemma maintains_while {S} (cond : S -> M bool) (body : S -> M S) :
  (forall s, maintains R (cond s)) -> (forall s, maintains R (body s)) ->
  forall fuel s, maintains R (while fuel cond body s).
Proof.
  intros Hc Hb. induction fuel as [|fuel IH]; intros s; simpl;
    (apply maintains_bind; [apply Hc|]); intros [|]; try apply maintains_ret.
  - intros env w. apply R_nil.
  - apply maintains_bind; [apply Hb | apply IH].
Qed.

Lemma maintains_function_body (m : M unit) :
  maintains R m -> maintains R (function_body m).
Proof.
  intros Hm env w. rewrite emitted_function_body, final_function_body. apply Hm.
Qed.

End Maintains.

Section RecorderRows.

Variables (filename : string) (add_trigger stop_trigger : nat) (frame_id : string).

Lemma waits_for_add_rows t o :
  waits_for_add filename add_trigger stop_trigger t o ->
  written_rows t = [] /\ samples t = [].
Proof.
  induction 1 as [| | |t o H IH]; try (split; reflexivity).
  rewrite written_rows_app, samples_app. exact IH.
Qed.

Lemma waits_for_release_rows t o :
  waits_for_release filename add_trigger stop_trigger t o ->
  written_rows t = [] /\ samples t = [].
Proof.
  induction 1 as [| | |t o H IH]; try (split; reflexivity).
  rewrite written_rows_app, samples_app. exact IH.
Qed.

Lemma records_point_rows t o :
  records_point filename add_trigger stop_trigger frame_id t o ->
  written_rows t = map telemetry_row (samples t).
Proof.
  destruct 1 as [t o H Ho | t1 telem t2 o H1 H2].
  - destruct (waits_for_add_rows t o H) as [-> ->]. reflexivity.
  - destruct (waits_for_add_rows _ _ H1) as [A1 A2].
    destruct (waits_for_release_rows _ _ H2) as [R1 R2].
    rewrite !written_rows_app, !samples_app, A1, A2, R1, R2. reflexivity.
Qed.

Lemma records_rows t o :
  records filename add_trigger stop_trigger frame_id t o ->
  written_rows t = map telemetry_row (samples t).
Proof.
  induction 1 as [| |t o H Ho|t1 t2 o H1 H2 IH]; try reflexivity.
  - simpl. apply (records_point_rows _ _ H).
  - simpl. rewrite written_rows_app, samples_app, map_app, IH, (records_point_rows _ _ H1).
    reflexivity.
Qed.

Lemma creates_route_rows t o :
  creates_route filename add_trigger stop_trigger frame_id t o ->
  written_rows t = map telemetry_row (samples t).
Proof.
  destruct 1 as [t H | t H | t H]; simpl;
    rewrite ?written_rows_app, ?samples_app, (records_rows _ _ H); simpl;
    rewrite ?app_nil_r; reflexivity.
Qed.

End RecorderRows.

Section RecorderFile.

Context {float_text : FloatText}.

(** *** The route file *)

Lemma route_text_app rows1 rows2 :
  route_text (rows1 ++ rows2) = (route_text rows1 ++ route_text rows2)%string.
Proof.
  induction rows1 as [|row rows1 IH]; simpl; [reflexivity|].
  rewrite IH, string_app_assoc. reflexivity.
Qed.

Lemma appends_rows_nil filename w : appends_rows filename w [] w.
Proof. intros c Hc. simpl. rewrite string_app_nil_r. exact Hc. Qed.

Lemma appends_rows_app filename w t1 w1 t2 w2 :
  appends_rows filename w t1 w1 -> appends_rows filename w1 t2 w2 ->
  appends_rows filename w (t1 ++ t2) w2.
Proof.
  intros H1 H2 c Hc.
  rewrite written_rows_app, route_text_app, <- string_app_assoc.
  apply H2, H1, Hc.
Qed.

Ltac appends_steps filename :=
  repeat (apply (maintains_bind _ (appends_rows_app filename));
          [|intros ?]);
  try apply (maintains_ret _ (appends_rows_nil filename));
  try apply (maintains_return _ (appends_rows_nil filename));
  try (intros ? ? ? ?; simpl; rewrite string_app_nil_r; assumption).

Lemma wait_body_appends filename stop_trigger :
  maintains (appends_rows filename)
    (s <- is_set stop_trigger ;;
     if s then loginfo (RouteCreated filename) ;; return_ else rate_sleep FREQUENCY).
Proof.
  apply (maintains_bind _ (appends_rows_app filename)).
  - intros env w c Hc. simpl. rewrite string_app_nil_r. exact Hc.
  - intros [|]; appends_steps filename.
Qed.

Lemma record_point_appends fuel filename add_trigger stop_trigger frame_id :
  maintains (appends_rows filename)
    (record_point fuel filename add_trigger stop_trigger frame_id).
Proof.
  unfold record_point, wait_for_add, wait_for_release.
  apply (maintains_bind _ (appends_rows_app filename)).
  - apply (maintains_while _ (appends_rows_nil filename) (appends_rows_app filename));
      intros _; [appends_steps filename | apply wait_body_appends].
  - intros _. appends_steps filename.
    + intros env w c Hc. simpl. unfold content. rewrite Hc, String.eqb_refl.
      rewrite string_app_nil_r. reflexivity.
    + apply (maintains_while _ (appends_rows_nil filename) (appends_rows_app filename));
        intros _; [appends_steps filename | apply wait_body_appends].
Qed.

Lemma create_route_file fuel filename add_trigger stop_trigger frame_id env w :
  fs (final (create_route fuel filename add_trigger stop_trigger frame_id env w)) filename =
  Some (route_text
          (written_rows
             (emitted (create_route fuel filename add_trigger stop_trigger frame_id env w)))).
Proof.
  unfold create_route. rewrite final_function_body, emitted_function_body.
  rewrite final_bind, emitted_bind. simpl.
  match goal with
  | |- fs (final (?m env ?w1)) filename = _ =>
      assert (Hm : maintains (appends_rows filename) m)
  end.
  { unfold recording_loop. appends_steps filename.
    apply (maintains_while _ (appends_rows_nil filename) (appends_rows_app filename));
      intros _; [appends_steps filename | apply record_point_appends]. }
  apply (Hm env _ ""). simpl. rewrite String.eqb_refl. reflexivity.
Qed.

End RecorderFile.

Section RecorderScenario.

Context {float_text : FloatText}.
Variables (filename : string) (add_trigger stop_trigger : nat) (frame_id : string).

(** [k] idle ticks, then the add trigger is read set. *)
Lemma wait_for_add_idle k : forall fuel env w,
  k <= fuel ->
  (forall j, j < k ->
     event_state env add_trigger (now w + 3 * j) = false /\
     event_state env stop_trigger (now w + 3 * j + 1) = false) ->
  event_state env add_trigger (now w + 3 * k) = true ->
  wait_for_add fuel filename add_trigger stop_trigger env w =
    Result (ticks (idle_tick add_trigger stop_trigger) k ++ [EvIsSet add_trigger true])
           (Normal tt) {| now := now w + 3 * k + 1; fs := fs w |}.
Proof.
  induction k as [|k IH]; intros fuel env w Hk Hidle Hset.
  - replace (now w + 3 * 0) with (now w) in Hset by lia.
    unfold wait_for_add. rewrite while_unfold.
    apply result_ext; monad_simpl; rewrite Hset; simpl; try reflexivity.
    unfold tick. f_equal. lia.
  - destruct fuel as [|fuel]; [lia|].
    destruct (Hidle 0 ltac:(lia)) as [Ha Hs].
    replace (now w + 3 * 0) with (now w) in Ha by lia.
    replace (now w + 3 * 0 + 1) with (S (now w)) in Hs by lia.
    assert (IH' := IH fuel env (tick (tick (tick w))) ltac:(lia)).
    simpl now in IH'.
    assert (Hrest : wait_for_add fuel filename add_trigger stop_trigger env
                      (tick (tick (tick w))) =
                    Result (ticks (idle_tick add_trigger stop_trigger) k ++
                            [EvIsSet add_trigger true])
                           (Normal tt) {| now := now w + 3 * S k + 1; fs := fs w |}).
    { rewrite IH'.
      - f_equal. f_equal. lia.
      - intros j Hj. destruct (Hidle (S j) ltac:(lia)) as [Ha' Hs'].
        replace (S (S (S (now w))) + 3 * j) with (now w + 3 * S j) by lia.
        split; assumption.
      - replace (S (S (S (now w))) + 3 * k) with (now w + 3 * S k) by lia. exact Hset. }
    unfold wait_for_add in *. rewrite while_unfold.
    apply result_ext; monad_simpl; rewrite Ha; monad_simpl; rewrite Hs; monad_simpl;
      rewrite Hrest; reflexivity.
Qed.

(** [h] held ticks, then the add trigger is read unset. *)
Lemma wait_for_release_held h : forall fuel env w,
  h <= fuel ->
  (forall j, j < h ->
     event_state env add_trigger (now w + 3 * j) = true /\
     event_state env stop_trigger (now w + 3 * j + 1) = false) ->
  event_state env add_trigger (now w + 3 * h) = false ->
  wait_for_release fuel filename add_trigger stop_trigger env w =
    Result (ticks (held_tick add_trigger stop_trigger) h ++ [EvIsSet add_trigger false])
           (Normal tt) {| now := now w + 3 * h + 1; fs := fs w |}.
Proof.
  induction h as [|h IH]; intros fuel env w Hh Hheld Hclear.
  - replace (now w + 3 * 0) with (now w) in Hclear by lia.
    unfold wait_for_release. rewrite while_unfold.
    apply result_ext; monad_simpl; rewrite Hclear; simpl; try reflexivity.
    unfold tick. f_equal. lia.
  - destruct fuel as [|fuel]; [lia|].
    destruct (Hheld 0 ltac:(lia)) as [Ha Hs].
    replace (now w + 3 * 0) with (now w) in Ha by lia.
    replace (now w + 3 * 0 + 1) with (S (now w)) in Hs by lia.
    assert (IH' := IH fuel env (tick (tick (tick w))) ltac:(lia)).
    simpl now in IH'.
    assert (Hrest : wait_for_release fuel filename add_trigger stop_trigger env
                      (tick (tick (tick w))) =
                    Result (ticks (held_tick add_trigger stop_trigger) h ++
                            [EvIsSet add_trigger false])
                           (Normal tt) {| now := now w + 3 * S h + 1; fs := fs w |}).
    { rewrite IH'.
      - f_equal. f_equal. lia.
      - intros j Hj. destruct (Hheld (S j) ltac:(lia)) as [Ha' Hs'].
        replace (S (S (S (now w))) + 3 * j) with (now w + 3 * S j) by lia.
        split; assumption.
      - replace (S (S (S (now w))) + 3 * h) with (now w + 3 * S h) by lia. exact Hclear. }
    unfold wait_for_release in *. rewrite while_unfold.
    apply result_ext; monad_simpl; rewrite Ha; monad_simpl; rewrite Hs; monad_simpl;
      rewrite Hrest; reflexivity.
Qed.

Local Arguments Nat.add : simpl never.
Local Arguments Nat.mul : simpl never.
Local Arguments wait_for_add : simpl never.
Local Arguments wait_for_release : simpl never.
Local Arguments record_point : simpl never.
Local Arguments recording_loop : simpl never.

(** The wait for the release when the stop trigger is set right after the
    add trigger is read. *)
Lemma wait_for_release_stopping fuel env w :
  1 <= fuel ->
  event_state env stop_trigger (S (now w)) = true ->
  let r := wait_for_release fuel filename add_trigger stop_trigger env w in
  let held := event_state env add_trigger (now w) in
  emitted r = EvIsSet add_trigger held ::
              (if held then stop_seen filename stop_trigger else []) /\
  out r = (if held then Returned else Normal tt) /\
  now (final r) = (if held then 2 else 1) + now w.
Proof.
  intros Hfuel Hs r held. unfold r, wait_for_release.
  destruct fuel as [|fuel]; [lia|].
  rewrite while_unfold. monad_simpl. fold held.
  destruct held; monad_simpl; rewrite ?Hs; monad_simpl; repeat split; reflexivity.
Qed.

Lemma record_point_add_and_stop k fuel env w :
  k <= fuel -> 1 <= fuel ->
  (forall j, j < k ->
     event_state env add_trigger (now w + 3 * j) = false /\
     event_state env stop_trigger (now w + 3 * j + 1) = false) ->
  event_state env add_trigger (now w + 3 * k) = true ->
  event_state env stop_trigger (now w + 3 * k + 3) = true ->
  let r := record_point fuel filename add_trigger stop_trigger frame_id env w in
  let telem := telemetry_reply env frame_id (now w + 3 * k + 1) in
  let held := event_state env add_trigger (now w + 3 * k + 2) in
  emitted r =
    ticks (idle_tick add_trigger stop_trigger) k ++ [EvIsSet add_trigger true] ++
    capture filename frame_id telem ++
    EvIsSet add_trigger held :: (if held then stop_seen filename stop_trigger else []) /\
  out r = (if held then Returned else Normal tt) /\
  now (final r) = (if held then 4 else 3) + (now w + 3 * k).
Proof.
  intros Hk Hfuel Hidle Hadd Hstop r telem held.
  pose proof (wait_for_add_idle k fuel env w Hk Hidle Hadd) as Hwait.
  unfold r, record_point.
  rewrite emitted_bind, out_bind, final_bind, Hwait. cbn [emitted out final].
  set (w1 := {| now := now w + 3 * k + 1; fs := fs w |}).
  rewrite emitted_bind, out_bind, final_bind. cbn [get_telemetry emitted out final].
  rewrite emitted_bind, out_bind, final_bind. cbn [writerow emitted out final].
  rewrite emitted_bind, out_bind, final_bind. cbn [loginfo log emitted out final].
  match goal with
  | |- context [wait_for_release fuel filename add_trigger stop_trigger env ?w'] =>
      set (w2 := w')
  end.
  assert (Hn : now w2 = now w + 3 * k + 2) by (unfold w2, w1; cbn [now tick]; lia).
  destruct (wait_for_release_stopping fuel env w2 Hfuel) as (E1 & E2 & E3).
  { rewrite Hn. replace (S (now w + 3 * k + 2)) with (now w + 3 * k + 3) by lia.
    exact Hstop. }
  rewrite Hn in E1, E2, E3. fold held in E1, E2, E3.
  rewrite E1, E2, E3. cbn [now w1]. fold telem.
  split; [list_assoc | split; [reflexivity|]].
  destruct held; lia.
Qed.

(** One turn of the outer loop over a press. *)
Lemma record_point_press fuel env w i p :
  now w = i + 1 ->
  pressed_once env add_trigger stop_trigger i p -> within_fuel fuel p ->
  exists w',
    now w' = press_end i p /\
    record_point fuel filename add_trigger stop_trigger frame_id env w =
      Result (ticks (idle_tick add_trigger stop_trigger) (idle_ticks p) ++
              [EvIsSet add_trigger true] ++
              capture filename frame_id (telemetry_reply env frame_id (sampling i p)) ++
              ticks (held_tick add_trigger stop_trigger) (held_ticks p) ++
              [EvIsSet add_trigger false])
             (Normal tt) w'.
Proof.
  intros Hnow (_ & Hidle & Hset & Hheld & Hclear) [Hk Hh].
  unfold set_reading, sampling, release_reading, press_end in *.
  assert (Hadd : wait_for_add fuel filename add_trigger stop_trigger env w =
                 Result (ticks (idle_tick add_trigger stop_trigger) (idle_ticks p) ++
                         [EvIsSet add_trigger true])
                        (Normal tt) {| now := now w + 3 * idle_ticks p + 1; fs := fs w |}).
  { apply (wait_for_add_idle _ fuel env w Hk).
    - intros j Hj. destruct (Hidle j Hj) as [Ha Hs]. rewrite Hnow.
      replace (i + 1 + 3 * j + 1) with (i + 2 + 3 * j) by lia. split; assumption.
    - rewrite Hnow. exact Hset. }
  unfold record_point.
  rewrite (bind_known _ _ _ _ _ _ _ Hadd).
  set (w1 := {| now := now w + 3 * idle_ticks p + 1; fs := fs w |}).
  assert (Htel : get_telemetry frame_id env w1 =
                 Result [EvGetTelemetry frame_id
                           (telemetry_reply env frame_id (i + 2 + 3 * idle_ticks p))]
                        (Normal (telemetry_reply env frame_id (i + 2 + 3 * idle_ticks p)))
                        (tick w1)).
  { unfold get_telemetry, w1. cbn [now].
    replace (now w + 3 * idle_ticks p + 1) with (i + 2 + 3 * idle_ticks p) by lia.
    reflexivity. }
  rewrite (bind_known _ _ _ _ _ _ _ Htel).
  set (telem := telemetry_reply env frame_id (i + 2 + 3 * idle_ticks p)).
  match goal with
  | |- context [writerow filename ?row] =>
      rewrite (bind_known _ _ _ _ _ _ _
                 (eq_refl : writerow filename row env (tick w1) = Result _ (Normal tt) _))
  end.
  match goal with
  | |- context [loginfo ?m ;; _] =>
      rewrite (bind_known _ _ _ _ _ _ _
                 (eq_refl : loginfo m env _ = Result _ (Normal tt) _))
  end.
  match goal with
  | |- context [wait_for_release fuel filename add_trigger stop_trigger env ?w'] =>
      set (w2 := w')
  end.
  assert (Hn2 : now w2 = i + 3 + 3 * idle_ticks p) by (unfold w2, w1; cbn [now tick]; lia).
  assert (Hrel : wait_for_release fuel filename add_trigger stop_trigger env w2 =
                 Result (ticks (held_tick add_trigger stop_trigger) (held_ticks p) ++
                         [EvIsSet add_trigger false])
                        (Normal tt) {| now := now w2 + 3 * held_ticks p + 1; fs := fs w2 |}).
  { apply (wait_for_release_held _ fuel env w2 Hh).
    - intros j Hj. destruct (Hheld j Hj) as [Ha Hs]. rewrite Hn2.
      replace (i + 3 + 3 * idle_ticks p + 3 * j) with (i + 2 + 3 * idle_ticks p + 1 + 3 * j)
        by lia.
      replace (i + 2 + 3 * idle_ticks p + 1 + 3 * j + 1)
        with (i + 2 + 3 * idle_ticks p + 2 + 3 * j) by lia.
      split; assumption.
    - rewrite Hn2. exact Hclear. }
  rewrite Hrel. cbn [emitted out final].
  eexists. split; [|f_equal; list_assoc].
  cbn [now]. lia.
Qed.

Lemma recording_turns_unfold turns fuel env w :
  recording_turns turns fuel filename add_trigger stop_trigger frame_id env w =
  match turns with
  | O =>
      Result [EvIsSet stop_trigger (event_state env stop_trigger (now w))]
             (if event_state env stop_trigger (now w) then Normal tt else OutOfFuel)
             (tick w)
  | S turns' =>
      if event_state env stop_trigger (now w)
      then Result [EvIsSet stop_trigger true] (Normal tt) (tick w)
      else after [EvIsSet stop_trigger false]
             ((record_point fuel filename add_trigger stop_trigger frame_id ;;
               recording_turns turns' fuel filename add_trigger stop_trigger frame_id)
                env (tick w))
  end.
Proof.
  unfold recording_turns. rewrite while_unfold.
  assert (Hc : (s <- is_set stop_trigger ;; ret (negb s)) env w =
               Result [EvIsSet stop_trigger (event_state env stop_trigger (now w))]
                      (Normal (negb (event_state env stop_trigger (now w)))) (tick w))
    by (apply result_ext; monad_simpl; reflexivity).
  rewrite (bind_known _ _ _ _ _ _ _ Hc).
  destruct (event_state env stop_trigger (now w)), turns; try reflexivity.
  unfold after, bind. cbn [negb].
  destruct (record_point fuel filename add_trigger stop_trigger frame_id env (tick w))
    as [t [[]| | |] w1]; reflexivity.
Qed.

(** The outer loop over the presses of the schedule. *)
Lemma recording_turns_presses fuel env presses : forall turns w,
  pressed env add_trigger stop_trigger (now w) presses ->
  Forall (within_fuel fuel) presses ->
  exists w',
    now w' = presses_end (now w) presses /\
    recording_turns (List.length presses + turns) fuel filename add_trigger stop_trigger
      frame_id env w =
      after (presses_actions env filename add_trigger stop_trigger frame_id (now w) presses)
        (recording_turns turns fuel filename add_trigger stop_trigger frame_id env w').
Proof.
  induction presses as [|p presses IH]; intros turns w Hp Hfuel.
  - exists w. split; [reflexivity|]. unfold after. simpl. apply result_eta.
  - destruct Hp as [Hp Hrest]. inversion Hfuel as [|? ? Hf Hfuel']; subst.
    assert (Hs : event_state env stop_trigger (now w) = false) by apply Hp.
    destruct (record_point_press fuel env (tick w) (now w) p) as (w1 & Hn1 & Hpoint);
      [cbn [now tick]; lia | exact Hp | exact Hf |].
    rewrite <- Hn1 in Hrest.
    destruct (IH turns w1 Hrest Hfuel') as (w' & Hn' & Hloop).
    exists w'. split; [rewrite Hn', Hn1; reflexivity|].
    cbn [List.length]. change (S (List.length presses) + turns)
      with (S (List.length presses + turns)).
    rewrite recording_turns_unfold, Hs.
    rewrite (bind_known _ _ _ _ _ _ _ Hpoint), Hloop.
    unfold after. cbn [emitted out final presses_actions]. rewrite Hn1.
    unfold press_actions. f_equal. list_assoc.
Qed.

Lemma written_rows_ticks_idle k : written_rows (ticks (idle_tick add_trigger stop_trigger) k) = [].
Proof. induction k as [|k IH]; simpl; [reflexivity | exact IH]. Qed.

Lemma written_rows_ticks_held k : written_rows (ticks (held_tick add_trigger stop_trigger) k) = [].
Proof. induction k as [|k IH]; simpl; [reflexivity | exact IH]. Qed.

Lemma samples_ticks_idle k : samples (ticks (idle_tick add_trigger stop_trigger) k) = [].
Proof. induction k as [|k IH]; simpl; [reflexivity | exact IH]. Qed.

Lemma samples_ticks_held k : samples (ticks (held_tick add_trigger stop_trigger) k) = [].
Proof. induction k as [|k IH]; simpl; [reflexivity | exact IH]. Qed.

Lemma presses_rows env presses : forall i,
  samples (presses_actions env filename add_trigger stop_trigger frame_id i presses) =
    press_poses env frame_id i presses /\
  written_rows (presses_actions env filename add_trigger stop_trigger frame_id i presses) =
    map telemetry_row (press_poses env frame_id i presses).
Proof.
  induction presses as [|p presses IH]; intros i; [split; reflexivity|].
  destruct (IH (press_end i p)) as [IH1 IH2].
  cbn [presses_actions press_poses map]. unfold press_actions.
  rewrite !samples_app, !written_rows_app, IH1, IH2.
  rewrite samples_ticks_idle, samples_ticks_held, written_rows_ticks_idle,
    written_rows_ticks_held.
  split; reflexivity.
Qed.

Lemma press_poses_length env presses : forall i,
  List.length (press_poses env frame_id i presses) = List.length presses.
Proof. induction presses as [|p presses IH]; intros i; simpl; [|rewrite IH]; reflexivity. Qed.

Section PressEdges.
Hypothesis distinct : add_trigger <> stop_trigger.

Lemma idle_ticks_edges k : forall t,
  rising_edges add_trigger false (ticks (idle_tick add_trigger stop_trigger) k ++ t) =
    rising_edges add_trigger false t.
Proof.
  pose proof (stop_is_not_add add_trigger stop_trigger distinct) as N.
  induction k as [|k IH]; intros t; [reflexivity|].
  cbn [ticks idle_tick app rising_edges]. rewrite <- ?app_assoc. cbn [app rising_edges].
  rewrite Nat.eqb_refl, N. cbn [negb andb]. rewrite IH. reflexivity.
Qed.

Lemma held_ticks_edges k : forall t,
  rising_edges add_trigger true (ticks (held_tick add_trigger stop_trigger) k ++ t) =
    rising_edges add_trigger true t.
Proof.
  pose proof (stop_is_not_add add_trigger stop_trigger distinct) as N.
  induction k as [|k IH]; intros t; [reflexivity|].
  cbn [ticks held_tick app rising_edges]. rewrite <- ?app_assoc. cbn [app rising_edges].
  rewrite Nat.eqb_refl, N. cbn [negb andb]. rewrite IH. reflexivity.
Qed.

(** One rising edge for each press, the trigger read unset at its end. *)
Lemma presses_edges env presses : forall i t,
  rising_edges add_trigger false
    (presses_actions env filename add_trigger stop_trigger frame_id i presses ++ t) =
  List.length presses + rising_edges add_trigger false t.
Proof.
  pose proof (stop_is_not_add add_trigger stop_trigger distinct) as N.
  induction presses as [|p presses IH]; intros i t; [reflexivity|].
  cbn [presses_actions List.length]. unfold press_actions.
  rewrite <- ?app_assoc. cbn [app rising_edges]. rewrite N.
  rewrite idle_ticks_edges. cbn [app rising_edges capture]. rewrite Nat.eqb_refl.
  cbn [negb andb]. rewrite held_ticks_edges. cbn [app rising_edges].
  rewrite Nat.eqb_refl. cbn [negb andb]. rewrite IH. lia.
Qed.

End PressEdges.

Lemma recording_loop_turns fuel :
  recording_loop fuel filename add_trigger stop_trigger frame_id =
  recording_turns fuel fuel filename add_trigger stop_trigger frame_id.
Proof. reflexivity. Qed.

(** The run of [create_route] over the presses of the schedule. *)
Lemma create_route_after_presses fuel turns env w presses :
  List.length presses + turns = fuel ->
  pressed env add_trigger stop_trigger (now w) presses ->
  Forall (within_fuel fuel) presses ->
  exists w',
    now w' = presses_end (now w) presses /\
    create_route fuel filename add_trigger stop_trigger frame_id env w =
      after ([EvOpenWrite filename; EvLog INFO (OpenFile filename)] ++
             presses_actions env filename add_trigger stop_trigger frame_id (now w) presses)
        (function_body
           (recording_turns turns fuel filename add_trigger stop_trigger frame_id ;;
            loginfo (RouteCreated filename)) env w').
Proof.
  intros Hturns Hp Hfuel.
  set (w0 := {| now := now w;
                fs := fun f => if String.eqb f filename then Some ""%string else fs w f |}).
  destruct (recording_turns_presses fuel env presses turns w0 Hp Hfuel) as (w' & Hn & Hloop).
  rewrite Hturns in Hloop.
  exists w'. split; [exact Hn|].
  unfold create_route, function_body.
  rewrite (bind_known _ _ _ _ _ _ _ (eq_refl : open_write filename env w = Result _ _ _)).
  rewrite (bind_known _ _ _ _ _ _ _
             (eq_refl : loginfo (OpenFile filename) env _ = Result _ _ _)).
  fold w0. rewrite recording_loop_turns. unfold bind. rewrite Hloop.
  unfold after. cbn [now w0].
  destruct (recording_turns turns fuel filename add_trigger stop_trigger frame_id env w')
    as [t [[]| | |] w1]; cbn [emitted out final loginfo log]; f_equal; list_assoc.
Qed.

Lemma recording_turns_add_and_stop k turns fuel env w :
  k <= fuel -> 1 <= fuel ->
  event_state env stop_trigger (now w) = false ->
  (forall j, j < k ->
     event_state env add_trigger (now w + 1 + 3 * j) = false /\
     event_state env stop_trigger (now w + 2 + 3 * j) = false) ->
  event_state env add_trigger (now w + 1 + 3 * k) = true ->
  event_state env stop_trigger (now w + 4 + 3 * k) = true ->
  let r := recording_turns (S turns) fuel filename add_trigger stop_trigger frame_id env w in
  let telem := telemetry_reply env frame_id (now w + 2 + 3 * k) in
  let held := event_state env add_trigger (now w + 3 + 3 * k) in
  emitted r =
    [EvIsSet stop_trigger false] ++
    ticks (idle_tick add_trigger stop_trigger) k ++ [EvIsSet add_trigger true] ++
    capture filename frame_id telem ++
    [EvIsSet add_trigger held; EvIsSet stop_trigger true] ++
    (if held then [EvLog INFO (RouteCreated filename)] else []) /\
  out r = (if held then Returned else Normal tt).
Proof.
  intros Hk Hfuel Hgo Hidle Hadd Hstop r telem held.
  unfold r. rewrite recording_turns_unfold, Hgo. unfold after.
  destruct (record_point_add_and_stop k fuel env (tick w) Hk Hfuel) as (E1 & E2 & E3).
  { intros j Hj. destruct (Hidle j Hj) as [Ha Hs]. cbn [now tick].
    replace (S (now w) + 3 * j) with (now w + 1 + 3 * j) by lia.
    replace (now w + 1 + 3 * j + 1) with (now w + 2 + 3 * j) by lia.
    split; assumption. }
  { cbn [now tick]. replace (S (now w) + 3 * k) with (now w + 1 + 3 * k) by lia.
    exact Hadd. }
  { cbn [now tick]. replace (S (now w) + 3 * k + 3) with (now w + 4 + 3 * k) by lia.
    exact Hstop. }
  cbn [now tick] in E1, E2, E3.
  replace (S (now w) + 3 * k + 1) with (now w + 2 + 3 * k) in E1 by lia.
  replace (S (now w) + 3 * k + 2) with (now w + 3 + 3 * k) in E1, E2, E3 by lia.
  fold telem held in E1, E2, E3.
  set (point := record_point fuel filename add_trigger stop_trigger frame_id env (tick w))
    in *.
  pose proof (result_eta point) as Hpoint. rewrite E1, E2 in Hpoint.
  destruct held.
  - rewrite (bind_returned _ _ _ _ _ _ Hpoint). cbn [emitted out].
    split; [list_assoc | reflexivity].
  - rewrite (bind_known _ _ _ _ _ _ _ Hpoint). cbn [emitted out].
    rewrite recording_turns_unfold.
    assert (Hexit : event_state env stop_trigger (now (final point)) = true).
    { rewrite E3. replace (3 + (S (now w) + 3 * k)) with (now w + 4 + 3 * k) by lia.
      exact Hstop. }
    rewrite Hexit. destruct turns; cbn [emitted out]; (split; [list_assoc | reflexivity]).
Qed.

(** C10.  [create_route] can append a pose after the stop trigger is set.
    Take any schedule that begins with any presses of the add trigger
    (none, or the points recorded before), the stop trigger unset at every
    reading so far, and where the recorder, back in the wait for the add
    trigger, spends [k] poll ticks and then reads the add trigger set at an
    instant where the stop trigger is set too, the stop trigger being set
    still when the recorder next reads it.  With turns enough for all that,
    the wait reads the add trigger first: after the presses the run is the [k] idle ticks, the reading of
    the add trigger as set, one more pose sampled and written, and only
    then the reading of the stop trigger as set, either in the wait for the
    release or by the outer loop, that ends the recording.  The function
    returns and the file holds the rows of the presses and, last, the row of
    that pose. *)
Theorem create_route_samples_after_stop :
  forall fuel presses k env w,
    List.length presses < fuel -> Forall (within_fuel fuel) presses -> k <= fuel ->
    pressed env add_trigger stop_trigger (now w) presses ->
    let i := presses_end (now w) presses in
    event_state env stop_trigger i = false ->
    (forall j, j < k ->
       event_state env add_trigger (i + 1 + 3 * j) = false /\
       event_state env stop_trigger (i + 2 + 3 * j) = false) ->
    event_state env add_trigger (i + 1 + 3 * k) = true ->
    event_state env stop_trigger (i + 1 + 3 * k) = true ->
    event_state env stop_trigger (i + 4 + 3 * k) = true ->
    let run := create_route fuel filename add_trigger stop_trigger frame_id env w in
    let telem := telemetry_reply env frame_id (i + 2 + 3 * k) in
    let held := event_state env add_trigger (i + 3 + 3 * k) in
    emitted run =
      [EvOpenWrite filename; EvLog INFO (OpenFile filename)] ++
      presses_actions env filename add_trigger stop_trigger frame_id (now w) presses ++
      [EvIsSet stop_trigger false] ++
      ticks (idle_tick add_trigger stop_trigger) k ++
      [EvIsSet add_trigger true] ++ capture filename frame_id telem ++
      [EvIsSet add_trigger held; EvIsSet stop_trigger true;
       EvLog INFO (RouteCreated filename)] /\
    out run = Normal tt /\
    fs (final run) filename =
      Some (route_text (map telemetry_row (press_poses env frame_id (now w) presses) ++
                        [telemetry_row telem])).
Proof.
  intros fuel presses k env w Hlen Hwithin Hk Hp i Hgo Hidle Hadd Hset Hstop run telem held.
  assert (Hrun : emitted run =
      [EvOpenWrite filename; EvLog INFO (OpenFile filename)] ++
      presses_actions env filename add_trigger stop_trigger frame_id (now w) presses ++
      [EvIsSet stop_trigger false] ++
      ticks (idle_tick add_trigger stop_trigger) k ++
      [EvIsSet add_trigger true] ++ capture filename frame_id telem ++
      [EvIsSet add_trigger held; EvIsSet stop_trigger true;
       EvLog INFO (RouteCreated filename)] /\
    out run = Normal tt).
  { destruct (create_route_after_presses fuel (S (fuel - S (List.length presses))) env w
                presses) as (w' & Hn & Hcreate); [lia | exact Hp | exact Hwithin |].
    fold i in Hn. rewrite <- Hn in Hgo, Hidle, Hadd, Hstop.
    destruct (recording_turns_add_and_stop k (fuel - S (List.length presses)) fuel env w'
                Hk ltac:(lia) Hgo Hidle Hadd Hstop) as [E1 E2].
    rewrite Hn in E1, E2. fold telem held in E1, E2.
    match type of E1 with
    | emitted ?r = _ => set (loop := r) in *; pose proof (result_eta loop) as Hloop
    end.
    rewrite E1, E2 in Hloop.
    unfold run. rewrite Hcreate. unfold after. cbn [emitted out].
    rewrite emitted_function_body, out_function_body. fold loop.
    destruct held.
    - rewrite (bind_returned _ _ _ _ _ _ Hloop). cbn [emitted out].
      split; [list_assoc | reflexivity].
    - rewrite (bind_known _ _ _ _ _ _ _ Hloop). cbn [emitted out loginfo log].
      split; [list_assoc | reflexivity]. }
  destruct Hrun as [Hrun Hout]. split; [exact Hrun | split; [exact Hout|]].
  unfold run. rewrite create_route_file. fold run. rewrite Hrun.
  rewrite !written_rows_app.
  destruct (presses_rows env presses (now w)) as [_ Hrows]. rewrite Hrows.
  rewrite written_rows_ticks_idle. reflexivity.
Qed.

End RecorderScenario.

Section RecorderClaims.

Context {float_text : FloatText}.

(** C5.  The recorder is edge-triggered on the add trigger.  Take any
    schedule that begins with presses of the add trigger, each met by the
    recorder as: the trigger read unset at some poll ticks, then read set,
    then read still set at any number of consecutive poll ticks of the wait
    for its release, then read unset, the stop trigger unset at every
    reading.  The run of [create_route] on two distinct triggers, its loops
    having turns enough for the presses, begins with exactly these readings, with one pose sampled and one row written
    for each press, right after the trigger is read set and however many
    ticks it is held: over the presses there are as many rows as presses and
    as rising edges of the add trigger, the rows being the poses at the
    instants after the trigger is read set.  And in the whole run, whatever
    follows the presses, the poses sampled are as many as the rising edges
    in the successive readings of the add trigger (readings as set that
    follow a reading as unset, the trigger counting as unset before its first
    reading); the rows written are these poses; and, readings and rows
    followed one by one, a row is written exactly after each rising reading,
    before the trigger is read again, and never otherwise: a second row needs
    the trigger read unset in between. *)
Theorem create_route_edge_triggered :
  forall fuel filename add_trigger stop_trigger frame_id env w presses,
    add_trigger <> stop_trigger ->
    List.length presses <= fuel -> Forall (within_fuel fuel) presses ->
    pressed env add_trigger stop_trigger (now w) presses ->
    let run := emitted (create_route fuel filename add_trigger stop_trigger frame_id env w) in
    let seen := [EvOpenWrite filename; EvLog INFO (OpenFile filename)] ++
                presses_actions env filename add_trigger stop_trigger frame_id (now w)
                  presses in
    (exists rest, run = seen ++ rest) /\
    rising_edges add_trigger false seen = List.length presses /\
    samples seen = press_poses env frame_id (now w) presses /\
    written_rows seen = map telemetry_row (press_poses env frame_id (now w) presses) /\
    List.length (written_rows seen) = List.length presses /\
    List.length (samples run) = rising_edges add_trigger false run /\
    written_rows run = map telemetry_row (samples run) /\
    exists b,
      edge_run add_trigger {| reading := false; owed := false |} run =
        Some {| reading := b; owed := false |}.
Proof.
  intros fuel filename add_trigger stop_trigger frame_id env w presses Hd Hlen Hwithin Hp
    run seen.
  destruct (presses_rows filename add_trigger stop_trigger frame_id env presses (now w))
    as [Hsamples Hrows].
  split; [|split; [|split; [|split; [|split]]]].
  - destruct (create_route_after_presses filename add_trigger stop_trigger frame_id
                fuel (fuel - List.length presses) env w presses)
      as (w' & _ & Hcreate); [lia | exact Hp | exact Hwithin |].
    unfold run. rewrite Hcreate. unfold after. cbn [emitted]. fold seen.
    eexists. reflexivity.
  - unfold seen. cbn [app rising_edges].
    rewrite <- (app_nil_r (presses_actions _ _ _ _ _ _ _)).
    rewrite (presses_edges filename add_trigger stop_trigger frame_id Hd). simpl. lia.
  - unfold seen. cbn [app samples]. exact Hsamples.
  - unfold seen. cbn [app written_rows]. exact Hrows.
  - unfold seen. cbn [app written_rows]. rewrite Hrows, length_map.
    apply press_poses_length.
  - destruct (creates_route_edges filename add_trigger stop_trigger frame_id Hd _ _
                (create_route_run filename add_trigger stop_trigger frame_id fuel env w))
      as (E1 & E2 & b & E3).
    fold run in E1, E2, E3.
    split; [|split; [exact E2 | exists b; exact E3]].
    rewrite <- E1, E2, length_map. reflexivity.
Qed.

(** C6.  The recorder answers the stop trigger within a poll tick, in
    either wait.  In every run of [create_route] on two distinct triggers,
    each sleep comes directly after a reading of the stop trigger as unset,
    so the trigger is read at every tick; and wherever the stop trigger is
    read set right after a reading of the add trigger (unset in the wait for
    the trigger, still set in the wait for its release after a capture),
    only the closing log line follows, without another sleep, and the
    function returns. *)
Theorem create_route_stops_within_a_tick :
  forall fuel filename add_trigger stop_trigger frame_id env w,
    add_trigger <> stop_trigger ->
    let run := create_route fuel filename add_trigger stop_trigger frame_id env w in
    polled_before_sleeps stop_trigger false (emitted run) = true /\
    forall held before rest,
      emitted run = before ++ [EvIsSet add_trigger held; EvIsSet stop_trigger true] ++ rest ->
      rest = [EvLog INFO (RouteCreated filename)] /\ out run = Normal tt.
Proof.
  intros fuel filename add_trigger stop_trigger frame_id env w Hd run.
  pose proof (create_route_run filename add_trigger stop_trigger frame_id fuel env w) as Hrun.
  fold run in Hrun.
  split; [apply (creates_route_polled _ _ _ _ _ _ Hrun)|].
  intros held before rest E.
  destruct (creates_route_stopped filename add_trigger stop_trigger frame_id Hd _ _ Hrun)
    as [(Ho & first & E' & Hfirst) | Hnone].
  - rewrite E in E'. unfold stop_seen in E'.
    replace (before ++ [EvIsSet add_trigger held; EvIsSet stop_trigger true] ++ rest)
      with ((before ++ [EvIsSet add_trigger held]) ++ EvIsSet stop_trigger true :: rest)
      in E' by (rewrite <- app_assoc; reflexivity).
    symmetry in E'.
    destruct (first_reading_unique stop_trigger first [EvLog INFO (RouteCreated filename)]
                _ _ Hfirst eq_refl E') as [_ ->].
    split; [reflexivity | exact Ho].
  - exfalso. rewrite E in Hnone. unfold unread in Hnone.
    rewrite existsb_app in Hnone. simpl in Hnone.
    rewrite Nat.eqb_refl, !orb_true_r in Hnone. discriminate.
Qed.

Lemma read_route_text filename env w rows :
  fs w filename = Some (route_text rows) ->
  Forall is_triple rows -> Forall (Forall reads_back) rows ->
  read_route filename env w = Result [] (Normal (Some (map row_point rows))) w.
Proof.
  intros Hfile H3 Hok. unfold read_route.
  rewrite (bind_known _ _ _ _ _ _ _
             (eq_refl : open_read filename env w = Result [] (Normal (fs w filename)) w)).
  rewrite Hfile. cbn [app].
  apply result_ext; monad_simpl;
    rewrite (for_rows_route_text (universal_newlines env) rows [] H3 Hok); reflexivity.
Qed.

(** C4.  Route storage round-trips.  After any run of [create_route] the
    file holds one record per pose sampled, in the order of sampling, each
    the three coordinates x, y, z separated by commas; and when the text
    written for each coordinate is a plain field that [float] reads back as
    the coordinate, [read_route] on that file logs nothing and returns the
    points sampled, as many and in the same order. *)
Theorem route_round_trip :
  forall fuel filename add_trigger stop_trigger frame_id env w env',
    let run := create_route fuel filename add_trigger stop_trigger frame_id env w in
    Forall (fun telem => Forall reads_back (telemetry_row telem)) (samples (emitted run)) ->
    fs (final run) filename =
      Some (route_text (map telemetry_row (samples (emitted run)))) /\
    read_route filename env' (final run) =
      Result [] (Normal (Some (map telemetry_point (samples (emitted run))))) (final run).
Proof.
  intros fuel filename add_trigger stop_trigger frame_id env w env' run Hok.
  assert (Hfile : fs (final run) filename =
                  Some (route_text (map telemetry_row (samples (emitted run))))).
  { unfold run. rewrite create_route_file. f_equal. f_equal.
    apply (creates_route_rows filename add_trigger stop_trigger frame_id _ _
             (create_route_run filename add_trigger stop_trigger frame_id fuel env w)). }
  split; [exact Hfile|].
  rewrite (read_route_text filename env' (final run) _ Hfile).
  - rewrite map_map. reflexivity.
  - apply Forall_map. apply Forall_forall. intros telem _. reflexivity.
  - apply Forall_map. exact Hok.
Qed.

(** C7.  A route file that cannot be opened does not make [read_route]
    raise: the error is logged and the function returns normally with [None]
    in the place of the list of points.  That is not the result for a file
    that exists and is empty, which is the empty list and no log line. *)
Theorem read_route_missing_file :
  forall filename env w w',
    fs w filename = None ->
    fs w' filename = Some "" ->
    read_route filename env w =
      Result [EvLog ERROR (CantOpen filename)] (Normal None) w /\
    read_route filename env w' = Result [] (Normal (Some [])) w'.
Proof.
  intros filename env w w' Hmissing Hempty. unfold read_route. split.
  - rewrite (bind_known _ _ _ _ _ _ _
               (eq_refl : open_read filename env w = Result [] (Normal (fs w filename)) w)).
    rewrite Hmissing. reflexivity.
  - rewrite (bind_known _ _ _ _ _ _ _
               (eq_refl : open_read filename env w' = Result [] (Normal (fs w' filename)) w')).
    rewrite Hempty. destruct (universal_newlines env); reflexivity.
Qed.

End RecorderClaims.

(** ** The claims on given schedules *)

Lemma create_route_edge_triggered_witness :
  let run := emitted (create_route (float_text := decimal_text) 10 "route.csv" 0 1 "map"
                        two_presses boot) in
  let seen := [EvOpenWrite "route.csv"; EvLog INFO (OpenFile "route.csv")] ++
              presses_actions two_presses "route.csv" 0 1 "map" 0 [Press 1 2; Press 1 1] in
  (exists rest, run = seen ++ rest) /\
  rising_edges 0 false seen = 2 /\
  samples seen = [Telemetry 1 2 3; Telemetry 4.5 (-1.25) 0] /\
  written_rows seen = [[1; 2; 3]; [4.5; -1.25; 0]]%float /\
  List.length (written_rows seen) = 2 /\
  List.length (samples run) = rising_edges 0 false run /\
  written_rows run = map telemetry_row (samples run) /\
  exists b,
    edge_run 0 {| reading := false; owed := false |} run =
      Some {| reading := b; owed := false |}.
Proof.
  apply (create_route_edge_triggered (float_text := decimal_text) 10 "route.csv" 0 1 "map"
           two_presses boot [Press 1 2; Press 1 1]).
  - discriminate.
  - simpl. lia.
  - repeat constructor; simpl; lia.
  - simpl. unfold pressed_once. simpl.
    conj_split; try reflexivity; try exact I; intros j Hj;
      (destruct j as [|[|j]]; first [lia | split; reflexivity]).
Defined.

(** On that schedule the add trigger is held over two poll ticks the first
    time and over one the second time: two rising edges, two rows. *)
Example create_route_two_presses :
  let run := emitted (create_route (float_text := decimal_text) 10 "route.csv" 0 1 "map"
                        two_presses boot) in
  rising_edges 0 false run = 2 /\
  samples run = [Telemetry 1 2 3; Telemetry 4.5 (-1.25) 0] /\
  written_rows run = [[1; 2; 3]; [4.5; -1.25; 0]]%float.
Proof. vm_compute. repeat split. Qed.

Lemma create_route_stops_within_a_tick_witness :
  let idle := create_route (float_text := decimal_text) 10 "route.csv" 0 1 "map"
                stop_while_idle boot in
  let armed := create_route (float_text := decimal_text) 10 "route.csv" 0 1 "map"
                 held_then_stopped boot in
  (polled_before_sleeps 1 false (emitted idle) = true /\
   skipn 8 (emitted idle) = [EvLog INFO (RouteCreated "route.csv")] /\
   out idle = Normal tt) /\
  (polled_before_sleeps 1 false (emitted armed) = true /\
   skipn 15 (emitted armed) = [EvLog INFO (RouteCreated "route.csv")] /\
   out armed = Normal tt).
Proof.
  assert (Hd : 0 <> 1) by discriminate.
  split.
  - pose proof (create_route_stops_within_a_tick (float_text := decimal_text) 10 "route.csv"
                  0 1 "map" stop_while_idle boot Hd) as H.
    cbv zeta in H. destruct H as [Hpolled Hstop].
    split; [exact Hpolled|].
    apply (Hstop false
             (firstn 6 (emitted (create_route (float_text := decimal_text) 10 "route.csv"
                                   0 1 "map" stop_while_idle boot)))).
    vm_compute. reflexivity.
  - pose proof (create_route_stops_within_a_tick (float_text := decimal_text) 10 "route.csv"
                  0 1 "map" held_then_stopped boot Hd) as H.
    cbv zeta in H. destruct H as [Hpolled Hstop].
    split; [exact Hpolled|].
    apply (Hstop true
             (firstn 13 (emitted (create_route (float_text := decimal_text) 10 "route.csv"
                                    0 1 "map" held_then_stopped boot)))).
    vm_compute. reflexivity.
Defined.

Lemma create_route_samples_after_stop_witness :
  let run := create_route (float_text := decimal_text) 10 "route.csv" 0 1 "map"
               press_then_both boot in
  emitted run =
    [EvOpenWrite "route.csv"; EvLog INFO (OpenFile "route.csv")] ++
    presses_actions press_then_both "route.csv" 0 1 "map" 0 [Press 0 0] ++
    [EvIsSet 1 false] ++
    ticks (idle_tick 0 1) 3 ++
    [EvIsSet 0 true] ++ capture "route.csv" "map" (Telemetry 4.5 (-1.25) 0) ++
    [EvIsSet 0 true; EvIsSet 1 true; EvLog INFO (RouteCreated "route.csv")] /\
  out run = Normal tt /\
  fs (final run) "route.csv" =
    Some (route_text (float_text := decimal_text) [[1; 2; 3]; [4.5; -1.25; 0]]%float).
Proof.
  apply (create_route_samples_after_stop (float_text := decimal_text) "route.csv" 0 1 "map"
           10 [Press 0 0] 3 press_then_both boot).
  - simpl. lia.
  - repeat constructor; simpl; lia.
  - lia.
  - simpl. unfold pressed_once. simpl.
    conj_split; try reflexivity; try exact I; intros j Hj; lia.
  - reflexivity.
  - intros j Hj. destruct j as [|[|[|j]]]; [split; reflexivity.. | lia].
  - reflexivity.
  - reflexivity.
  - reflexivity.
Defined.

(** On that schedule a point is recorded and the trigger released; then
    both triggers are set at instant 14, before the wait reads the add
    trigger: the second pose is sampled at instant 15. *)
Example create_route_press_then_both :
  let run := create_route (float_text := decimal_text) 10 "route.csv" 0 1 "map"
               press_then_both boot in
  event_state press_then_both 1 14 = true /\
  nth_error (emitted run) 18 = Some (EvIsSet 0 true) /\
  written_rows (emitted run) = [[1; 2; 3]; [4.5; -1.25; 0]]%float /\
  out run = Normal tt.
Proof. vm_compute. repeat split. Qed.

Lemma route_round_trip_witness :
  let run := create_route (float_text := decimal_text) 10 "route.csv" 0 1 "map"
               two_presses boot in
  fs (final run) "route.csv" =
    Some (route_text (float_text := decimal_text)
            (map telemetry_row (samples (emitted run)))) /\
  read_route (float_text := decimal_text) "route.csv" two_presses (final run) =
    Result [] (Normal (Some (map telemetry_point (samples (emitted run))))) (final run).
Proof.
  apply (route_round_trip (float_text := decimal_text) 10 "route.csv" 0 1 "map"
           two_presses boot two_presses).
  replace (samples (emitted (create_route (float_text := decimal_text) 10 "route.csv" 0 1
                               "map" two_presses boot)))
    with [Telemetry 1 2 3; Telemetry 4.5 (-1.25) 0] by (vm_compute; reflexivity).
  repeat (apply Forall_cons || apply Forall_nil || split); vm_compute; reflexivity.
Defined.

(** Two points recorded and read back. *)
Example route_round_trip_example :
  let run := create_route (float_text := decimal_text) 10 "route.csv" 0 1 "map"
               two_presses boot in
  out (read_route (float_text := decimal_text) "route.csv" two_presses (final run)) =
    Normal (Some [Point 1 2 3; Point 4.5 (-1.25) 0]).
Proof. vm_compute. reflexivity. Qed.

Lemma read_route_missing_file_witness :
  read_route (float_text := decimal_text) "route.csv" (hovering 0 0 0) boot =
    Result [EvLog ERROR (CantOpen "route.csv")] (Normal None) boot /\
  read_route (float_text := decimal_text) "route.csv" (hovering 0 0 0)
    (empty_route_file "route.csv") =
    Result [] (Normal (Some [])) (empty_route_file "route.csv").
Proof.
  apply (read_route_missing_file (float_text := decimal_text) "route.csv" (hovering 0 0 0)
           boot (empty_route_file "route.csv")); reflexivity.
Defined.

(* ===================================================================== *)
(** * Further properties of the routines                                  *)
(* ===================================================================== *)

(** ** The distance *)

Lemma binary_round_aux_abs s m e l :
  SFabs (binary_round_aux prec emax s m e l) = binary_round_aux prec emax false m e l.
Proof.
  unfold binary_round_aux.
  destruct (shr_fexp prec emax m e l) as [mrs' e'].
  destruct (shr_fexp prec emax _ e' loc_Exact) as [mrs'' e''].
  destruct (shr_m mrs''); try reflexivity.
  destruct (Z.leb e'' (emax - prec)); reflexivity.
Qed.

Lemma binary_round_aux_sign m e l : sign_clear (binary_round_aux prec emax false m e l).
Proof.
  unfold binary_round_aux.
  destruct (shr_fexp prec emax m e l) as [mrs' e'].
  destruct (shr_fexp prec emax _ e' loc_Exact) as [mrs'' e''].
  destruct (shr_m mrs''); [reflexivity | | exact I].
  destruct (Z.leb e'' (emax - prec)); reflexivity.
Qed.

Lemma binary_round_abs s m e :
  SFabs (binary_round prec emax s m e) = binary_round prec emax false m e.
Proof.
  unfold binary_round. destruct (shl_align m e _) as [mz ez]. apply binary_round_aux_abs.
Qed.

Lemma binary_round_sign m e : sign_clear (binary_round prec emax false m e).
Proof.
  unfold binary_round. destruct (shl_align m e _) as [mz ez]. apply binary_round_aux_sign.
Qed.

Lemma binary_normalize_opp_abs m e :
  SFabs (binary_normalize prec emax (- m) e false) =
  SFabs (binary_normalize prec emax m e false).
Proof. destruct m; simpl; rewrite ?binary_round_abs; reflexivity. Qed.

(** The two differences of two numbers have the same magnitude. *)
Lemma SFsub_swap_abs x y : SFabs (SF64sub x y) = SFabs (SF64sub y x).
Proof.
  destruct x as [sx|sx| |sx mx ex], y as [sy|sy| |sy my ey];
    try reflexivity; try (destruct sx, sy; reflexivity).
  unfold SF64sub, SFsub. rewrite (Z.min_comm ey ex).
  rewrite <- binary_normalize_opp_abs. f_equal. f_equal. lia.
Qed.

Lemma SFmul_self_abs x : SF64mul x x = SF64mul (SFabs x) (SFabs x).
Proof. destruct x as [s|s| |s m e]; try reflexivity; destruct s; reflexivity. Qed.

Lemma SFmul_self_sign x : sign_clear (SF64mul x x).
Proof.
  destruct x as [s|s| |s m e]; try (destruct s; reflexivity); try exact I.
  destruct s; apply binary_round_aux_sign.
Qed.

Lemma SFadd_sign x y : sign_clear x -> sign_clear y -> sign_clear (SF64add x y).
Proof.
  destruct x as [sx|sx| |sx mx ex], y as [sy|sy| |sy my ey]; simpl;
    intros Hx Hy; subst; try reflexivity.
  apply binary_round_sign.
Qed.

Lemma SFsqrt_sign x : sign_clear x -> sign_clear (SF64sqrt x).
Proof.
  destruct x as [s|s| |s m e]; simpl; intros H; subst; try reflexivity.
  unfold SF64sqrt, SFsqrt.
  destruct (SFsqrt_core_binary prec emax (Z.pos m) e) as [[mz ez] lz].
  apply binary_round_aux_sign.
Qed.

Lemma sign_clear_not_negative x : sign_clear x -> SFltb x (S754_zero false) = false.
Proof. destruct x as [s|s| |s m e]; simpl; intros H; subst; reflexivity. Qed.

Lemma square_sign d : sign_clear (Prim2SF (d * d)).
Proof. rewrite FloatAxioms.mul_spec. apply SFmul_self_sign. Qed.

Lemma not_negative a : sign_clear (Prim2SF a) -> (a <? 0)%float = false.
Proof. intros H. rewrite FloatAxioms.ltb_spec. apply (sign_clear_not_negative _ H). Qed.


Lemma float_pow2_sign d r : float_pow2 d = Normal r -> sign_clear (Prim2SF r).
Proof.
  unfold float_pow2. destruct (_ && _); [discriminate|].
  intros E. injection E as <-. apply square_sign.
Qed.

Lemma float_pow2_outcome d :
  (exists r, float_pow2 d = Normal r) \/ float_pow2 d = Raised OverflowError.
Proof. unfold float_pow2. destruct (_ && _); eauto. Qed.


(** X1.  [get_distance] never hands a negative number to [math.sqrt]: the
    sum of the three squares has its sign bit clear.  So the function either
    returns a distance that is not negative (a number from zero up, an
    infinity or NaN), or raises [OverflowError] from one of the squares; it
    never raises [ValueError]. *)
Theorem get_distance_never_negative :
  forall x1 y1 z1 x2 y2 z2,
    (exists d, get_distance x1 y1 z1 x2 y2 z2 = Normal d /\ (d <? 0)%float = false) \/
    get_distance x1 y1 z1 x2 y2 z2 = Raised OverflowError.
Proof.
  intros. unfold get_distance.
  destruct (float_pow2_outcome (x1 - x2)) as [[dx Ex] | ->]; [|right; reflexivity].
  destruct (float_pow2_outcome (y1 - y2)) as [[dy Ey] | Ey]; rewrite Ex, Ey; simpl;
    [|right; reflexivity].
  destruct (float_pow2_outcome (z1 - z2)) as [[dz Ez] | Ez]; rewrite Ez; simpl;
    [|right; reflexivity].
  assert (S : sign_clear (Prim2SF (dx + dy + dz))).
  { rewrite !FloatAxioms.add_spec.
    apply SFadd_sign; [apply SFadd_sign|]; eauto using float_pow2_sign. }
  left. unfold math_sqrt. rewrite (not_negative _ S).
  eexists. split; [reflexivity|].
  apply not_negative. rewrite FloatAxioms.sqrt_spec. apply SFsqrt_sign. exact S.
Qed.

Lemma sub_swap_abs a b : abs (a - b) = abs (b - a).
Proof.
  apply Prim2SF_inj. rewrite !FloatAxioms.abs_spec, !FloatAxioms.sub_spec.
  apply SFsub_swap_abs.
Qed.

Lemma square_abs d : (d * d = abs d * abs d)%float.
Proof.
  apply Prim2SF_inj. rewrite !FloatAxioms.mul_spec, !FloatAxioms.abs_spec.
  apply SFmul_self_abs.
Qed.

Lemma float_pow2_swap a b : float_pow2 (a - b) = float_pow2 (b - a).
Proof.
  unfold float_pow2, PrimFloat.is_infinity.
  rewrite (square_abs (a - b)), (square_abs (b - a)), (sub_swap_abs a b). reflexivity.
Qed.

(** X2.  The distance is symmetric, to the bit and to the exception: the
    result of [get_distance] is the same when the two points are swapped. *)
Theorem get_distance_symmetric :
  forall x1 y1 z1 x2 y2 z2,
    get_distance x1 y1 z1 x2 y2 z2 = get_distance x2 y2 z2 x1 y1 z1.
Proof.
  intros. unfold get_distance.
  rewrite (float_pow2_swap x1 x2), (float_pow2_swap y1 y2), (float_pow2_swap z1 z2).
  reflexivity.
Qed.

(** ** NaN *)

Lemma is_nan_spec a : PrimFloat.is_nan a = true -> Prim2SF a = S754_nan.
Proof.
  unfold PrimFloat.is_nan. rewrite FloatAxioms.eqb_spec. unfold SFeqb.
  destruct (Prim2SF a) as [s|s| |s m e]; simpl; try reflexivity; try (destruct s; discriminate).
  change (PosDef.Pos.compare_cont Eq m m) with (Pos.compare m m).
  rewrite Z.compare_refl, Pos.compare_refl. destruct s; discriminate.
Qed.

Lemma SF_nan_is_nan a : Prim2SF a = S754_nan -> a = nan.
Proof. intros H. apply Prim2SF_inj. rewrite H. reflexivity. Qed.

Lemma is_nan_eq a : PrimFloat.is_nan a = true -> a = nan.
Proof. intros H. apply SF_nan_is_nan, is_nan_spec, H. Qed.


Lemma sub_nan_r a : (a - nan = nan)%float.
Proof.
  apply SF_nan_is_nan. rewrite FloatAxioms.sub_spec.
  change (Prim2SF nan) with S754_nan. destruct (Prim2SF a); reflexivity.
Qed.

Lemma sub_nan_l a : (nan - a = nan)%float.
Proof.
  apply SF_nan_is_nan. rewrite FloatAxioms.sub_spec.
  change (Prim2SF nan) with S754_nan. destruct (Prim2SF a); reflexivity.
Qed.

Lemma add_nan_r a : (a + nan = nan)%float.
Proof.
  apply SF_nan_is_nan. rewrite FloatAxioms.add_spec.
  change (Prim2SF nan) with S754_nan. destruct (Prim2SF a); reflexivity.
Qed.

Lemma add_nan_l a : (nan + a = nan)%float.
Proof.
  apply SF_nan_is_nan. rewrite FloatAxioms.add_spec.
  change (Prim2SF nan) with S754_nan. destruct (Prim2SF a); reflexivity.
Qed.

Lemma ltb_nan_r a : (a <? nan)%float = false.
Proof.
  rewrite FloatAxioms.ltb_spec. change (Prim2SF nan) with S754_nan.
  destruct (Prim2SF a); reflexivity.
Qed.

Lemma float_pow2_nan : float_pow2 nan = Normal nan.
Proof. reflexivity. Qed.

Lemma math_sqrt_nan : math_sqrt nan = Normal nan.
Proof. reflexivity. Qed.

(** With a NaN among the coordinates the distance is NaN, unless a square
    overflows first. *)
Lemma get_distance_nan x1 y1 z1 x2 y2 z2 d :
  PrimFloat.is_nan x1 || PrimFloat.is_nan y1 || PrimFloat.is_nan z1 ||
  PrimFloat.is_nan x2 || PrimFloat.is_nan y2 || PrimFloat.is_nan z2 = true ->
  get_distance x1 y1 z1 x2 y2 z2 = Normal d -> d = nan.
Proof.
  intros H E. unfold get_distance in E.
  destruct (float_pow2 (x1 - x2)) as [dx| | |] eqn:Ex; try discriminate.
  destruct (float_pow2 (y1 - y2)) as [dy| | |] eqn:Ey; try discriminate.
  destruct (float_pow2 (z1 - z2)) as [dz| | |] eqn:Ez; try discriminate.
  simpl in E.
  assert (N : (dx + dy + dz = nan)%float).
  { repeat (apply orb_prop in H; destruct H as [H | H]);
      apply is_nan_eq in H; subst;
      rewrite ?sub_nan_l, ?sub_nan_r in *;
      rewrite float_pow2_nan in *;
      repeat match goal with
             | E : Normal _ = Normal _ |- _ => injection E as <-
             end;
      repeat (rewrite add_nan_l || rewrite add_nan_r); reflexivity. }
  rewrite N, math_sqrt_nan in E. injection E as <-. reflexivity.
Qed.

Lemma abs_zero_sub h : abs (0 - h) = abs h.
Proof.
  apply Prim2SF_inj. rewrite !FloatAxioms.abs_spec, FloatAxioms.sub_spec.
  change (Prim2SF 0) with (S754_zero false).
  destruct (Prim2SF h) as [s|s| |s m e]; try reflexivity. destruct s; reflexivity.
Qed.




(** ** Runs of the arrival pollers *)

Lemma after_nil {A} (r : result A) : after [] r = r.
Proof. destruct r; reflexivity. Qed.

Lemma bind_after {A B} (m : M A) (k : A -> M B) env w t a w1 :
  m env w = Result t (Normal a) w1 -> bind m k env w = after t (k a env w1).
Proof. intros H. unfold after. apply bind_known. exact H. Qed.

Lemma after_after {A} t1 t2 (r : result A) : after t1 (after t2 r) = after (t1 ++ t2) r.
Proof. unfold after. simpl. rewrite app_assoc. reflexivity. Qed.

Lemma flat_map_seq_shift {B} (f : nat -> list B) k : forall a,
  flat_map f (seq (S a) k) = flat_map (fun i => f (S i)) (seq a k).
Proof. induction k as [|k IH]; intros a; simpl; [reflexivity | rewrite IH; reflexivity]. Qed.

(** A loop whose test reads nothing, run for [k] turns: [D i] is the loop
    variable, [W i] the world and [T i] the actions of turn [i]. *)
Lemma while_turns {S} (c : S -> bool) (body : S -> M S) env k :
  forall fuel (W : nat -> World) (D : nat -> S) (T : nat -> list event),
  (forall i, i < k ->
     c (D i) = true /\
     body (D i) env (W i) =
       Result (T i) (Normal (D (Datatypes.S i))) (W (Datatypes.S i))) ->
  while (k + fuel) (fun s => ret (c s)) body (D 0) env (W 0) =
    after (flat_map T (seq 0 k)) (while fuel (fun s => ret (c s)) body (D k) env (W k)).
Proof.
  induction k as [|k IH]; intros fuel W D T H.
  - simpl seq. simpl flat_map. rewrite after_nil. reflexivity.
  - destruct (H 0 ltac:(lia)) as [Hc Hb].
    change (Datatypes.S k + fuel) with (Datatypes.S (k + fuel)).
    rewrite while_unfold.
    rewrite (bind_after _ _ _ _ _ _ _
               (eq_refl : ret (c (D 0)) env (W 0) = Result [] (Normal (c (D 0))) (W 0))).
    rewrite after_nil, Hc.
    rewrite (bind_after _ _ _ _ _ _ _ Hb).
    rewrite (IH fuel (fun i => W (Datatypes.S i)) (fun i => D (Datatypes.S i))
               (fun i => T (Datatypes.S i))).
    + rewrite after_after. simpl seq. simpl flat_map. rewrite flat_map_seq_shift.
      reflexivity.
    + intros i Hi. apply H. lia.
Qed.

(** [k] turns of the loop of [reach_point], entered with the distance [d 0]
    after the command. *)
Lemma reach_loop_turns k fuel env w x y z tolerance frame_id (d : nat -> float) :
  (forall j, 1 <= j <= k -> distance_at env frame_id w x y z j = Normal (d j)) ->
  (forall j, j < k -> keep_polling tolerance (d j) = true) ->
  reach_loop (k + fuel) x y z tolerance frame_id (d 0) env (later w 2) =
    after (flat_map (reach_poll env frame_id w d) (seq 1 k))
          (reach_loop fuel x y z tolerance frame_id (d k) env (later w (2 + 2 * k))).
Proof.
  intros Hd Hk. unfold reach_loop.
  rewrite (while_turns _ _ env k fuel (fun i => later w (2 + 2 * i)) d
             (fun i => reach_poll env frame_id w d (S i))).
  - rewrite flat_map_seq_shift. reflexivity.
  - intros i Hi. split; [apply Hk; exact Hi|].
    specialize (Hd (S i) ltac:(lia)). unfold distance_at, pose_at in Hd.
    assert (Hn : now (later w (2 + 2 * i)) = now w + 2 * S i) by (simpl; lia).
    unfold bind, get_telemetry, reach_poll, pose_at. rewrite Hn, Hd.
    unfold lift, logdebug, log, rate_sleep, ret, tick, later. cbn [now fs app].
    f_equal. f_equal. lia.
Qed.

Lemma reach_point_enters env w fuel x y z yaw speed tolerance frame_id delta :
  distance_at env frame_id w x y z 0 = Normal delta ->
  reach_point fuel x y z yaw speed tolerance frame_id env w =
    after (reach_point_start env w x y z yaw speed frame_id)
      ((reach_loop fuel x y z tolerance frame_id delta ;; loginfo PointReached)
         env (later w 2)).
Proof.
  intros Hd. unfold distance_at, pose_at in Hd.
  replace (now w + 2 * 0) with (now w) in Hd by lia.
  unfold reach_point, after, reach_point_start, pose_at.
  replace (now w + 2 * 0) with (now w) by lia.
  replace (later w 2) with (tick (tick w)) by (unfold tick, later; simpl; f_equal; lia).
  apply result_ext; monad_simpl; rewrite Hd; monad_simpl; reflexivity.
Qed.

Lemma reach_point_arrives k fuel env w x y z yaw speed tolerance frame_id
    (d : nat -> float) :
  k <= fuel ->
  (forall j, j <= k -> distance_at env frame_id w x y z j = Normal (d j)) ->
  (forall j, j < k -> keep_polling tolerance (d j) = true) ->
  keep_polling tolerance (d k) = false ->
  reach_point fuel x y z yaw speed tolerance frame_id env w =
    Result (reach_point_start env w x y z yaw speed frame_id ++
            flat_map (reach_poll env frame_id w d) (seq 1 k) ++
            [EvLog INFO PointReached])
           (Normal tt) (later w (2 + 2 * k)).
Proof.
  intros Hfuel Hd Hkeep Hstop.
  rewrite (reach_point_enters _ _ _ _ _ _ _ _ _ _ (d 0) (Hd 0 ltac:(lia))).
  replace fuel with (k + (fuel - k)) by lia.
  assert (L := reach_loop_turns k (fuel - k) env w x y z tolerance frame_id d
                 (fun j Hj => Hd j (proj2 Hj)) Hkeep).
  assert (E : reach_loop (fuel - k) x y z tolerance frame_id (d k) env
                (later w (2 + 2 * k)) =
              Result [] (Normal (d k)) (later w (2 + 2 * k))).
  { apply reach_loop_ends. exact Hstop. }
  rewrite E in L. unfold after in L. simpl in L. rewrite app_nil_r in L.
  rewrite (bind_after _ _ _ _ _ _ _ L). unfold after. simpl. reflexivity.
Qed.

(** X3.  [reach_point] returns right after the first pose within the
    tolerance.  When the pose read before the command and the poses of the
    next [k - 1] polls are farther from the target than the tolerance and the
    pose of poll [k] is not, the run is: the log line, the first read, the
    command, its result logged, then [k] polls, each a telemetry read, the
    distance logged and one sleep, then "Point reached!"; one reading within
    the tolerance is enough. *)
Theorem reach_point_polls_until_arrival :
  forall k fuel env w x y z yaw speed tolerance frame_id (d : nat -> float),
    k <= fuel ->
    (forall j, j <= k -> distance_at env frame_id w x y z j = Normal (d j)) ->
    (forall j, j < k -> keep_polling tolerance (d j) = true) ->
    keep_polling tolerance (d k) = false ->
    reach_point fuel x y z yaw speed tolerance frame_id env w =
      Result (reach_point_start env w x y z yaw speed frame_id ++
              flat_map (reach_poll env frame_id w d) (seq 1 k) ++
              [EvLog INFO PointReached])
             (Normal tt) (later w (2 + 2 * k)).
Proof.
  intros k fuel env w x y z yaw speed tolerance frame_id d Hfuel Hd Hkeep Hstop.
  exact (reach_point_arrives k fuel env w x y z yaw speed tolerance frame_id d
           Hfuel Hd Hkeep Hstop).
Qed.

Lemma reach_point_polls_until_arrival_witness :
  reach_point 5 0 0 2 nan SPEED TOLERANCE LOCAL_FRAME_ID stepping_up boot =
    Result (reach_point_start stepping_up boot 0 0 2 nan SPEED LOCAL_FRAME_ID ++
            flat_map (reach_poll stepping_up LOCAL_FRAME_ID boot
                        (fun j => if Nat.ltb j 2 then 1%float else 0%float)) (seq 1 2) ++
            [EvLog INFO PointReached])
           (Normal tt) (later boot (2 + 2 * 2)).
Proof.
  apply (reach_point_polls_until_arrival 2 5 stepping_up boot 0 0 2 nan SPEED TOLERANCE
           LOCAL_FRAME_ID (fun j => if Nat.ltb j 2 then 1%float else 0%float)).
  - lia.
  - intros j Hj. destruct j as [|[|[|j]]]; [vm_compute; reflexivity .. | lia].
  - intros j Hj. destruct j as [|[|j]]; [vm_compute; reflexivity .. | lia].
  - vm_compute. reflexivity.
Defined.

(** X4.  [reach_point] has no timeout.  As long as every pose read is
    farther from the target than the tolerance, the loop goes on: whatever
    number of turns is granted, the run is still polling after that many
    polls, one sleep each, and has not reported the point reached. *)
Theorem reach_point_has_no_timeout :
  forall fuel env w x y z yaw speed tolerance frame_id (d : nat -> float),
    (forall j, j <= fuel -> distance_at env frame_id w x y z j = Normal (d j)) ->
    (forall j, j <= fuel -> keep_polling tolerance (d j) = true) ->
    reach_point fuel x y z yaw speed tolerance frame_id env w =
      Result (reach_point_start env w x y z yaw speed frame_id ++
              flat_map (reach_poll env frame_id w d) (seq 1 fuel))
             OutOfFuel (later w (2 + 2 * fuel)).
Proof.
  intros fuel env w x y z yaw speed tolerance frame_id d Hd Hkeep.
  rewrite (reach_point_enters _ _ _ _ _ _ _ _ _ _ (d 0) (Hd 0 ltac:(lia))).
  assert (L := reach_loop_turns fuel 0 env w x y z tolerance frame_id d
                 (fun j Hj => Hd j (proj2 Hj))
                 (fun j Hj => Hkeep j (Nat.lt_le_incl _ _ Hj))).
  rewrite Nat.add_0_r in L.
  assert (E : reach_loop 0 x y z tolerance frame_id (d fuel) env (later w (2 + 2 * fuel)) =
              Result [] OutOfFuel (later w (2 + 2 * fuel))).
  { unfold reach_loop. simpl. unfold bind, ret. rewrite (Hkeep fuel (le_n _)).
    reflexivity. }
  rewrite E in L. unfold after in L. simpl in L. rewrite app_nil_r in L.
  unfold bind at 1. rewrite L. unfold after. simpl. reflexivity.
Qed.

Lemma reach_point_has_no_timeout_witness :
  reach_point 3 0 0 0 nan SPEED TOLERANCE LOCAL_FRAME_ID (hovering 3 4 0) boot =
    Result (reach_point_start (hovering 3 4 0) boot 0 0 0 nan SPEED LOCAL_FRAME_ID ++
            flat_map (reach_poll (hovering 3 4 0) LOCAL_FRAME_ID boot (fun _ => 5%float))
              (seq 1 3))
           OutOfFuel (later boot (2 + 2 * 3)).
Proof.
  apply (reach_point_has_no_timeout 3 (hovering 3 4 0) boot 0 0 0 nan SPEED TOLERANCE
           LOCAL_FRAME_ID (fun _ => 5%float)).
  - intros j Hj. vm_compute. reflexivity.
  - intros j Hj. vm_compute. reflexivity.
Defined.

(** X5.  [reach_point] takes a pose with a NaN coordinate for arrival.  When
    the pose of poll [k] has a NaN among its coordinates and no square
    overflows, the distance is NaN, [nan > tolerance] is false whatever the
    tolerance, and the function logs "Point reached!" and returns after that
    poll. *)
Theorem reach_point_takes_nan_for_arrival :
  forall k fuel env w x y z yaw speed tolerance frame_id (d : nat -> float),
    k <= fuel ->
    (forall j, j <= k -> distance_at env frame_id w x y z j = Normal (d j)) ->
    (forall j, j < k -> keep_polling tolerance (d j) = true) ->
    PrimFloat.is_nan (telem_x (pose_at env frame_id w k)) ||
    PrimFloat.is_nan (telem_y (pose_at env frame_id w k)) ||
    PrimFloat.is_nan (telem_z (pose_at env frame_id w k)) = true ->
    reach_point fuel x y z yaw speed tolerance frame_id env w =
      Result (reach_point_start env w x y z yaw speed frame_id ++
              flat_map (reach_poll env frame_id w d) (seq 1 k) ++
              [EvLog INFO PointReached])
             (Normal tt) (later w (2 + 2 * k)).
Proof.
  intros k fuel env w x y z yaw speed tolerance frame_id d Hfuel Hd Hkeep Hnan.
  apply reach_point_arrives; try assumption.
  assert (N : d k = nan).
  { pose proof (Hd k (le_n _)) as E. unfold distance_at in E.
    apply (get_distance_nan _ _ _ _ _ _ (d k)) in E; [exact E|].
    apply orb_prop in Hnan. destruct Hnan as [Hnan | ->]; [|apply orb_true_r].
    apply orb_prop in Hnan. destruct Hnan as [-> | ->]; rewrite ?orb_true_r; reflexivity. }
  rewrite N. apply ltb_nan_r.
Qed.

Lemma reach_point_takes_nan_for_arrival_witness :
  reach_point 5 1 1 1 nan SPEED TOLERANCE LOCAL_FRAME_ID (hovering 0 nan 0) boot =
    Result (reach_point_start (hovering 0 nan 0) boot 1 1 1 nan SPEED LOCAL_FRAME_ID ++
            flat_map (reach_poll (hovering 0 nan 0) LOCAL_FRAME_ID boot (fun _ => nan))
              (seq 1 0) ++
            [EvLog INFO PointReached])
           (Normal tt) (later boot (2 + 2 * 0)).
Proof.
  apply (reach_point_takes_nan_for_arrival 0 5 (hovering 0 nan 0) boot 1 1 1 nan SPEED
           TOLERANCE LOCAL_FRAME_ID (fun _ => nan)).
  - lia.
  - intros j Hj. replace j with 0 by lia. vm_compute. reflexivity.
  - intros j Hj. lia.
  - vm_compute. reflexivity.
Defined.

(** X6.  [reach_point] computes its first distance after it has issued the
    command: when that computation raises (a square out of range), the
    exception leaves [reach_point] with the log line, the telemetry read, the
    command and its logged result already done, and nothing after. *)
Theorem reach_point_raises_after_the_command :
  forall fuel env w x y z yaw speed tolerance frame_id e,
    distance_at env frame_id w x y z 0 = Raised e ->
    reach_point fuel x y z yaw speed tolerance frame_id env w =
      Result (reach_point_start env w x y z yaw speed frame_id) (Raised e) (later w 2).
Proof.
  intros fuel env w x y z yaw speed tolerance frame_id e Hd.
  unfold distance_at, pose_at in Hd.
  replace (now w + 2 * 0) with (now w) in Hd by lia.
  unfold reach_point_start, pose_at.
  replace (now w + 2 * 0) with (now w) by lia.
  replace (later w 2) with (tick (tick w)) by (unfold tick, later; simpl; f_equal; lia).
  unfold reach_point.
  apply result_ext; monad_simpl; rewrite Hd; monad_simpl; reflexivity.
Qed.

Lemma reach_point_raises_after_the_command_witness :
  reach_point 5 0x1p+600 0 0 nan SPEED TOLERANCE LOCAL_FRAME_ID (hovering 0 0 0) boot =
    Result (reach_point_start (hovering 0 0 0) boot 0x1p+600 0 0 nan SPEED LOCAL_FRAME_ID)
           (Raised OverflowError) (later boot 2).
Proof.
  apply (reach_point_raises_after_the_command 5 (hovering 0 0 0) boot 0x1p+600 0 0 nan SPEED
           TOLERANCE LOCAL_FRAME_ID OverflowError).
  vm_compute. reflexivity.
Defined.

Lemma takeoff_loop_ends fuel env w height tolerance frame_id start climb :
  still_climbing height tolerance climb = false ->
  takeoff_loop fuel height tolerance frame_id start climb env w = Result [] (Normal climb) w.
Proof.
  intros Hk. unfold takeoff_loop.
  destruct fuel; simpl; unfold bind, ret; simpl; rewrite Hk; reflexivity.
Qed.

Lemma takeoff_loop_turns k fuel env w height tolerance frame_id :
  (forall j, j < k -> still_climbing height tolerance (climb_at env frame_id w j) = true) ->
  takeoff_loop (k + fuel) height tolerance frame_id (pose_at env frame_id w 0) 0 env
    (later w 2) =
    after (flat_map (takeoff_poll env frame_id w height) (seq 1 k))
          (takeoff_loop fuel height tolerance frame_id (pose_at env frame_id w 0)
             (climb_at env frame_id w k) env (later w (2 + 2 * k))).
Proof.
  intros Hk. unfold takeoff_loop.
  rewrite (while_turns _ _ env k fuel (fun i => later w (2 + 2 * i))
             (climb_at env frame_id w)
             (fun i => takeoff_poll env frame_id w height (S i))).
  - rewrite flat_map_seq_shift. reflexivity.
  - intros i Hi. split; [apply Hk; exact Hi|].
    assert (Hn : now (later w (2 + 2 * i)) = now w + 2 * S i) by (simpl; lia).
    unfold bind, get_telemetry, takeoff_poll, climb_at, pose_at. rewrite Hn.
    unfold logdebug, log, rate_sleep, ret, tick, later. cbn [now fs app].
    f_equal. f_equal. lia.
Qed.

Lemma takeoff_enters env w fuel height speed tolerance frame_id :
  takeoff fuel height speed tolerance frame_id env w =
    after (takeoff_start env w height speed frame_id)
      ((takeoff_loop fuel height tolerance frame_id (pose_at env frame_id w 0) 0 ;;
        loginfo TakeoffSucceeded) env (later w 2)).
Proof.
  unfold takeoff, after, takeoff_start, pose_at.
  replace (now w + 2 * 0) with (now w) by lia.
  replace (later w 2) with (tick (tick w)) by (unfold tick, later; simpl; f_equal; lia).
  apply result_ext; monad_simpl; reflexivity.
Qed.

Lemma takeoff_climbs k fuel env w height speed tolerance frame_id :
  k <= fuel ->
  (forall j, j < k -> still_climbing height tolerance (climb_at env frame_id w j) = true) ->
  still_climbing height tolerance (climb_at env frame_id w k) = false ->
  takeoff fuel height speed tolerance frame_id env w =
    Result (takeoff_start env w height speed frame_id ++
            flat_map (takeoff_poll env frame_id w height) (seq 1 k) ++
            [EvLog INFO TakeoffSucceeded])
           (Normal tt) (later w (2 + 2 * k)).
Proof.
  intros Hfuel Hkeep Hstop.
  rewrite takeoff_enters.
  replace fuel with (k + (fuel - k)) by lia.
  assert (L := takeoff_loop_turns k (fuel - k) env w height tolerance frame_id Hkeep).
  rewrite (takeoff_loop_ends _ _ _ _ _ _ _ _ Hstop) in L.
  unfold after in L. simpl in L. rewrite app_nil_r in L.
  rewrite (bind_after _ _ _ _ _ _ _ L). unfold after. simpl. reflexivity.
Qed.

(** X7.  [takeoff] returns right after the first poll whose climb is within
    the tolerance of the height.  The climb is the absolute difference
    between the altitude read and the altitude read at the start, and [0.]
    before the first poll.  When the climbs of the first [k - 1] polls (and
    the [0.]) miss the height by more than the tolerance and the climb of
    poll [k] does not, the run is: the log line, the first read, the command
    with [auto_arm], its result logged, [k] polls of one read, one log line
    and one sleep each, then "Takeoff succeeded!". *)
Theorem takeoff_polls_until_climbed :
  forall k fuel env w height speed tolerance frame_id,
    k <= fuel ->
    (forall j, j < k ->
       still_climbing height tolerance (climb_at env frame_id w j) = true) ->
    still_climbing height tolerance (climb_at env frame_id w k) = false ->
    takeoff fuel height speed tolerance frame_id env w =
      Result (takeoff_start env w height speed frame_id ++
              flat_map (takeoff_poll env frame_id w height) (seq 1 k) ++
              [EvLog INFO TakeoffSucceeded])
             (Normal tt) (later w (2 + 2 * k)).
Proof.
  intros k fuel env w height speed tolerance frame_id Hfuel Hkeep Hstop.
  exact (takeoff_climbs k fuel env w height speed tolerance frame_id Hfuel Hkeep Hstop).
Qed.

Lemma takeoff_polls_until_climbed_witness :
  takeoff 5 TAKEOFF_HEIGHT TAKEOFF_SPEED TOLERANCE LOCAL_FRAME_ID stepping_up boot =
    Result (takeoff_start stepping_up boot TAKEOFF_HEIGHT TAKEOFF_SPEED LOCAL_FRAME_ID ++
            flat_map (takeoff_poll stepping_up LOCAL_FRAME_ID boot TAKEOFF_HEIGHT) (seq 1 2) ++
            [EvLog INFO TakeoffSucceeded])
           (Normal tt) (later boot (2 + 2 * 2)).
Proof.
  apply (takeoff_polls_until_climbed 2 5 stepping_up boot TAKEOFF_HEIGHT TAKEOFF_SPEED
           TOLERANCE LOCAL_FRAME_ID).
  - lia.
  - intros j Hj. destruct j as [|[|j]]; [vm_compute; reflexivity .. | lia].
  - vm_compute. reflexivity.
Defined.

(** X8.  [takeoff] has no timeout.  As long as every climb computed misses
    the height by more than the tolerance (the vehicle stays on the ground,
    say), the loop goes on: whatever number of turns is granted, the run is
    still polling after that many polls and has not reported success. *)
Theorem takeoff_has_no_timeout :
  forall fuel env w height speed tolerance frame_id,
    (forall j, j <= fuel ->
       still_climbing height tolerance (climb_at env frame_id w j) = true) ->
    takeoff fuel height speed tolerance frame_id env w =
      Result (takeoff_start env w height speed frame_id ++
              flat_map (takeoff_poll env frame_id w height) (seq 1 fuel))
             OutOfFuel (later w (2 + 2 * fuel)).
Proof.
  intros fuel env w height speed tolerance frame_id Hkeep.
  rewrite takeoff_enters.
  assert (L := takeoff_loop_turns fuel 0 env w height tolerance frame_id
                 (fun j Hj => Hkeep j (Nat.lt_le_incl _ _ Hj))).
  rewrite Nat.add_0_r in L.
  assert (E : takeoff_loop 0 height tolerance frame_id (pose_at env frame_id w 0)
                (climb_at env frame_id w fuel) env (later w (2 + 2 * fuel)) =
              Result [] OutOfFuel (later w (2 + 2 * fuel))).
  { unfold takeoff_loop. simpl. unfold bind, ret. rewrite (Hkeep fuel (le_n _)).
    reflexivity. }
  rewrite E in L. unfold after in L. simpl in L. rewrite app_nil_r in L.
  unfold bind at 1. rewrite L. unfold after. simpl. reflexivity.
Qed.

Lemma takeoff_has_no_timeout_witness :
  takeoff 3 TAKEOFF_HEIGHT TAKEOFF_SPEED TOLERANCE LOCAL_FRAME_ID (hovering 0 0 0) boot =
    Result (takeoff_start (hovering 0 0 0) boot TAKEOFF_HEIGHT TAKEOFF_SPEED LOCAL_FRAME_ID ++
            flat_map (takeoff_poll (hovering 0 0 0) LOCAL_FRAME_ID boot TAKEOFF_HEIGHT)
              (seq 1 3))
           OutOfFuel (later boot (2 + 2 * 3)).
Proof.
  apply (takeoff_has_no_timeout 3 (hovering 0 0 0) boot TAKEOFF_HEIGHT TAKEOFF_SPEED
           TOLERANCE LOCAL_FRAME_ID).
  intros j Hj. destruct j as [|j]; vm_compute; reflexivity.
Defined.

(** X9.  [takeoff] does not poll for a height within the tolerance.  Unless
    the magnitude of the height is greater than the tolerance, the loop test
    [abs(0. - height) > tolerance] fails at once: the command is issued and
    "Takeoff succeeded!" is logged without one telemetry read after the
    first. *)
Theorem takeoff_within_tolerance_does_not_poll :
  forall fuel env w height speed tolerance frame_id,
    (tolerance <? PrimFloat.abs height)%float = false ->
    takeoff fuel height speed tolerance frame_id env w =
      Result (takeoff_start env w height speed frame_id ++ [EvLog INFO TakeoffSucceeded])
             (Normal tt) (later w 2).
Proof.
  intros fuel env w height speed tolerance frame_id H.
  apply (takeoff_climbs 0 fuel env w height speed tolerance frame_id);
    [lia | intros j Hj; lia |].
  unfold still_climbing, climb_at. rewrite abs_zero_sub. exact H.
Qed.

Lemma takeoff_within_tolerance_does_not_poll_witness :
  takeoff 5 0x1.999999999999ap-4 TAKEOFF_SPEED TOLERANCE LOCAL_FRAME_ID
    (hovering 0 0 0) boot =
    Result (takeoff_start (hovering 0 0 0) boot 0x1.999999999999ap-4 TAKEOFF_SPEED
              LOCAL_FRAME_ID ++ [EvLog INFO TakeoffSucceeded])
           (Normal tt) (later boot 2).
Proof.
  apply (takeoff_within_tolerance_does_not_poll 5 (hovering 0 0 0) boot
           0x1.999999999999ap-4 TAKEOFF_SPEED TOLERANCE LOCAL_FRAME_ID).
  vm_compute. reflexivity.
Defined.

(** X10.  [takeoff] takes a NaN altitude for success.  When the altitude
    read at poll [k], or the one read at the start, is NaN, the climb of
    poll [k] is NaN, [abs(nan - height) > tolerance] is false, and the
    function logs "Takeoff succeeded!" and returns after that poll. *)
Theorem takeoff_takes_nan_for_success :
  forall k fuel env w height speed tolerance frame_id,
    1 <= k <= fuel ->
    (forall j, j < k ->
       still_climbing height tolerance (climb_at env frame_id w j) = true) ->
    PrimFloat.is_nan (telem_z (pose_at env frame_id w k)) ||
    PrimFloat.is_nan (telem_z (pose_at env frame_id w 0)) = true ->
    takeoff fuel height speed tolerance frame_id env w =
      Result (takeoff_start env w height speed frame_id ++
              flat_map (takeoff_poll env frame_id w height) (seq 1 k) ++
              [EvLog INFO TakeoffSucceeded])
             (Normal tt) (later w (2 + 2 * k)).
Proof.
  intros k fuel env w height speed tolerance frame_id Hk Hkeep Hnan.
  apply takeoff_climbs; [lia | exact Hkeep |].
  unfold still_climbing, climb_at. destruct k as [|k]; [lia|].
  assert (N : (telem_z (pose_at env frame_id w (S k)) -
               telem_z (pose_at env frame_id w 0) = nan)%float).
  { apply orb_prop in Hnan. destruct Hnan as [H | H]; apply is_nan_eq in H; rewrite H;
      [apply sub_nan_l | apply sub_nan_r]. }
  rewrite N. change (abs nan) with nan. rewrite sub_nan_l.
  change (abs nan) with nan. apply ltb_nan_r.
Qed.

Lemma takeoff_takes_nan_for_success_witness :
  takeoff 3 TAKEOFF_HEIGHT TAKEOFF_SPEED TOLERANCE LOCAL_FRAME_ID (hovering 0 0 nan) boot =
    Result (takeoff_start (hovering 0 0 nan) boot TAKEOFF_HEIGHT TAKEOFF_SPEED
              LOCAL_FRAME_ID ++
            flat_map (takeoff_poll (hovering 0 0 nan) LOCAL_FRAME_ID boot TAKEOFF_HEIGHT)
              (seq 1 1) ++
            [EvLog INFO TakeoffSucceeded])
           (Normal tt) (later boot (2 + 2 * 1)).
Proof.
  apply (takeoff_takes_nan_for_success 1 3 (hovering 0 0 nan) boot TAKEOFF_HEIGHT
           TAKEOFF_SPEED TOLERANCE LOCAL_FRAME_ID).
  - lia.
  - intros j Hj. replace j with 0 by lia. vm_compute. reflexivity.
  - vm_compute. reflexivity.
Defined.

(** ** Runs of the player *)

Lemma bind_assoc {A B C} (m : M A) (k : A -> M B) (h : B -> M C) env w :
  bind (bind m k) h env w = bind m (fun a => bind (k a) h) env w.
Proof.
  unfold bind. destruct (m env w) as [t [a| |e|] w1]; try reflexivity.
  destruct (k a env w1) as [t' [b| |e|] w2]; try reflexivity.
  destruct (h b env w2) as [t'' o w3]. rewrite app_assoc. reflexivity.
Qed.

Lemma bind_ret_l {A B} (a : A) (k : A -> M B) env w : bind (ret a) k env w = k a env w.
Proof. unfold bind, ret. destruct (k a env w); reflexivity. Qed.

Lemma bind_ext {A B} (m : M A) (k k' : A -> M B) env w :
  (forall a env w, k a env w = k' a env w) -> bind m k env w = bind m k' env w.
Proof.
  intros H. unfold bind. destruct (m env w) as [t [a| |e|] w1]; try reflexivity.
  rewrite H. reflexivity.
Qed.

(** X12.  Playing a route made of two parts is playing the first part and
    then, if that ended normally, the second: the same calls, the same
    delays, the same outcome and the same final world.  An exception in the
    first part leaves the second part unplayed. *)
Theorem fly_route_app :
  forall route1 route2 flight_function z delay speed frame_id env w,
    fly_route (route1 ++ route2) flight_function z delay speed frame_id env w =
    (fly_route route1 flight_function z delay speed frame_id ;;
     fly_route route2 flight_function z delay speed frame_id) env w.
Proof.
  induction route1 as [|p route1 IH]; intros route2 f z delay speed frame_id env w.
  - simpl app. change (fly_route [] f z delay speed frame_id) with (@ret unit tt).
    rewrite bind_ret_l. reflexivity.
  - simpl app. rewrite !fly_route_cons.
    etransitivity; [|symmetry; apply bind_assoc].
    apply bind_ext. intros a env' w'. apply IH.
Qed.

(** X13.  [fly_route] never skips a waypoint and never plays one out of
    turn.  In every run, however it ends, the calls and delays are a prefix
    of the sequence call, delay, call, delay, ... over the route in order;
    the prefix is the whole sequence exactly when the run ends normally. *)
Theorem fly_route_flies_a_prefix :
  forall route flight_function z delay speed frame_id env w,
    let run := fly_route route flight_function z delay speed frame_id env w in
    exists m,
      m <= 2 * List.length route /\
      player_actions (emitted run) =
        firstn m (flat_map (settled z delay speed frame_id) route) /\
      (out run = Normal tt <-> m = 2 * List.length route).
Proof.
  induction route as [|p route IH]; intros f z delay speed frame_id env w run.
  - exists 0. repeat split; reflexivity.
  - assert (Stop : forall t o,
              o <> Normal tt ->
              exists m,
                m <= 2 * List.length (p :: route) /\
                player_actions (EvCall (waypoint_args z speed frame_id p) t :: []) =
                  firstn m (flat_map (settled z delay speed frame_id) (p :: route)) /\
                (o = Normal tt <-> m = 2 * List.length (p :: route))).
    { intros t o Ho. exists 1. split; [simpl; lia|]. split; [reflexivity|].
      split; [congruence | simpl; lia]. }
    unfold run. rewrite fly_route_cons.
    rewrite !emitted_bind, emitted_call, !out_bind, out_call.
    destruct (out (f _ env w)) as [[]| | |] eqn:Ef;
      try (rewrite app_nil_r; apply Stop; discriminate).
    unfold time_sleep.
    destruct (sleep_accepts env delay);
      [| cbn [emitted out app]; apply Stop; discriminate].
    cbn [emitted out final].
    match goal with
    | |- context [fly_route route f z delay speed frame_id env ?w1] =>
        destruct (IH f z delay speed frame_id env w1) as (m & Hm & Hacts & Hout)
    end.
    exists (2 + m). cbn [app player_actions]. rewrite Hacts.
    split; [simpl in *; lia|]. split; [reflexivity|].
    split; intros H.
    + apply Hout in H. simpl in *. lia.
    + apply Hout. simpl in *. lia.
Qed.

(** X14.  A delay that [time.sleep] refuses (a negative one) stops the
    route after its first waypoint: the flight function is called for that
    waypoint, no delay is observed, no other waypoint is played and the run
    does not end normally. *)
Theorem fly_route_refused_delay :
  forall p route flight_function z delay speed frame_id env w,
    sleep_accepts env delay = false ->
    let run := fly_route (p :: route) flight_function z delay speed frame_id env w in
    calls (emitted run) = [waypoint_args z speed frame_id p] /\
    player_actions (emitted run) = [Fly (waypoint_args z speed frame_id p)] /\
    is_normal (out run) = false.
Proof.
  intros p route f z delay speed frame_id env w Hs run.
  unfold run. rewrite fly_route_cons.
  rewrite !emitted_bind, emitted_call, !out_bind, out_call.
  destruct (out (f _ env w)) as [[]| | |]; simpl; try (repeat split; reflexivity).
  unfold time_sleep. rewrite Hs. simpl. repeat split; reflexivity.
Qed.

Lemma fly_route_refused_delay_witness :
  let run := fly_route [Point 0 0 1; Point 0 0 2] (reach_point_kw 3) nan (-1) SPEED
               LOCAL_FRAME_ID (hovering 0 0 1) boot in
  calls (emitted run) = [waypoint_args nan SPEED LOCAL_FRAME_ID (Point 0 0 1)] /\
  player_actions (emitted run) = [Fly (waypoint_args nan SPEED LOCAL_FRAME_ID (Point 0 0 1))] /\
  is_normal (out run) = false.
Proof.
  apply (fly_route_refused_delay (Point 0 0 1) [Point 0 0 2] (reach_point_kw 3) nan (-1)
           SPEED LOCAL_FRAME_ID (hovering 0 0 1) boot).
  vm_compute. reflexivity.
Defined.

Lemma reach_point_commands fuel x y z yaw speed tolerance frame_id env w :
  commands (emitted (reach_point fuel x y z yaw speed tolerance frame_id env w)) =
    [{| nav_x := x; nav_y := y; nav_z := z; nav_yaw := yaw; nav_speed := speed;
        nav_frame_id := frame_id; nav_auto_arm := false |}].
Proof.
  assert (Q : forall t, Forall (fun e => commands_of e = []) t -> commands t = []).
  { induction 1 as [|e t He Ht IH]; [reflexivity|]. unfold commands in *. simpl.
    rewrite He, IH. reflexivity. }
  assert (L : forall delta,
             emits_only (fun e => commands_of e = [])
               (reach_loop fuel x y z tolerance frame_id delta)).
  { intros delta. unfold reach_loop. apply emits_only_while; intros s;
      repeat (apply emits_only_bind; [|intros ?]);
      try apply emits_only_ret; try apply emits_only_lift;
      intros ? ?; repeat constructor. }
  unfold reach_point. monad_simpl. unfold commands. simpl. f_equal.
  apply Q.
  destruct (get_distance _ _ _ _ _ _) as [d| |e|]; simpl; try constructor.
  monad_simpl. apply Forall_app. split; [apply L|].
  destruct (out (reach_loop _ _ _ _ _ _ _ _ _)); repeat constructor.
Qed.

(** X15.  With [reach_point], its default flight function, a route played
    to its end sends one navigate command per waypoint, in the route's order
    and none besides, however long each waypoint is polled: the command has
    the waypoint's x and y, the altitude override unless it is NaN and then
    the waypoint's z, a NaN yaw, the speed and the frame of [fly_route], and
    does not ask for arming. *)
Theorem fly_route_default_commands :
  forall fuel route z delay speed frame_id env w,
    let run := fly_route route (reach_point_kw fuel) z delay speed frame_id env w in
    out run = Normal tt ->
    commands (emitted run) = map (waypoint_request z speed frame_id) route.
Proof.
  intros fuel. induction route as [|p route IH]; intros z delay speed frame_id env w run Hout.
  - reflexivity.
  - unfold run in *. rewrite fly_route_cons in *.
    rewrite out_bind, out_bind, out_call in Hout.
    rewrite !emitted_bind, emitted_call, !out_bind, out_call.
    destruct (out (reach_point_kw fuel _ env w)) as [[]| | |]; try discriminate.
    unfold time_sleep in *.
    destruct (sleep_accepts env delay); try discriminate. cbn [emitted out final] in *.
    unfold commands in *. rewrite !flat_map_app. cbn [flat_map commands_of app].
    rewrite (IH z delay speed frame_id env _ Hout).
    unfold reach_point_kw at 1.
    change (flat_map commands_of ?t) with (commands t).
    rewrite reach_point_commands. reflexivity.
Qed.

Lemma fly_route_default_commands_witness :
  let run := fly_route [Point 0 0 1; Point 0 0 2] (reach_point_kw 3) nan
               0x1.999999999999ap-4 SPEED LOCAL_FRAME_ID stepping_up boot in
  commands (emitted run) =
    map (waypoint_request nan SPEED LOCAL_FRAME_ID) [Point 0 0 1; Point 0 0 2].
Proof.
  apply (fly_route_default_commands 3 [Point 0 0 1; Point 0 0 2] nan 0x1.999999999999ap-4
           SPEED LOCAL_FRAME_ID stepping_up boot).
  vm_compute. reflexivity.
Defined.

Lemma fly_route_calls route : forall flight_function z delay speed frame_id env w,
  out (fly_route route flight_function z delay speed frame_id env w) = Normal tt ->
  calls (emitted (fly_route route flight_function z delay speed frame_id env w)) =
    map (waypoint_args z speed frame_id) route.
Proof.
  induction route as [|p route IH]; intros f z delay speed frame_id env w Hout.
  - reflexivity.
  - rewrite fly_route_cons in *.
    rewrite out_bind, out_bind, out_call in Hout.
    rewrite !emitted_bind, emitted_call, !out_bind, out_call.
    destruct (out (f _ env w)) as [[]| | |]; try discriminate.
    unfold time_sleep in *.
    destruct (sleep_accepts env delay); try discriminate. cbn [emitted out final] in *.
    rewrite !calls_app. cbn [calls app]. rewrite (IH f z delay speed frame_id env _ Hout).
    reflexivity.
Qed.

(** ** More about the recorder *)

Section RecorderTermination.

Context {float_text : FloatText}.
Variables (filename : string) (add_trigger stop_trigger : nat) (frame_id : string).

Lemma time_passes_nil w : time_passes w [] w.
Proof. apply le_n. Qed.

Lemma time_passes_app w t1 w1 t2 w2 :
  time_passes w t1 w1 -> time_passes w1 t2 w2 -> time_passes w (t1 ++ t2) w2.
Proof. unfold time_passes. lia. Qed.

Ltac time_steps :=
  repeat (apply (maintains_bind _ time_passes_app); [|intros ?]);
  try apply (maintains_ret _ time_passes_nil);
  try apply (maintains_return _ time_passes_nil);
  try (intros ? ?; unfold time_passes; simpl; lia).

Lemma wait_body_time :
  maintains time_passes
    (s <- is_set stop_trigger ;;
     if s then loginfo (RouteCreated filename) ;; return_ else rate_sleep FREQUENCY).
Proof.
  apply (maintains_bind _ time_passes_app).
  - intros env w. unfold time_passes. simpl. lia.
  - intros [|]; time_steps.
Qed.

Lemma wait_for_add_time fuel :
  maintains time_passes (wait_for_add fuel filename add_trigger stop_trigger).
Proof.
  unfold wait_for_add.
  apply (maintains_while _ time_passes_nil time_passes_app);
    intros _; [time_steps | apply wait_body_time].
Qed.

Lemma wait_for_release_time fuel :
  maintains time_passes (wait_for_release fuel filename add_trigger stop_trigger).
Proof.
  unfold wait_for_release.
  apply (maintains_while _ time_passes_nil time_passes_app);
    intros _; [time_steps | apply wait_body_time].
Qed.

Lemma record_point_time fuel :
  maintains time_passes (record_point fuel filename add_trigger stop_trigger frame_id).
Proof.
  unfold record_point.
  apply (maintains_bind _ time_passes_app); [apply wait_for_add_time|].
  intros _. time_steps. apply wait_for_release_time.
Qed.

Variables (env : Env) (T : nat).
Hypothesis stop_set : set_from env stop_trigger T.

Lemma wait_body_stops w :
  event_state env stop_trigger (now w) = true ->
  (s <- is_set stop_trigger ;;
   if s then loginfo (RouteCreated filename) ;; return_ else rate_sleep FREQUENCY) env w =
    Result (stop_seen filename stop_trigger) Returned (tick w).
Proof. intros H. apply result_ext; monad_simpl; rewrite H; reflexivity. Qed.

Lemma wait_body_sleeps w :
  event_state env stop_trigger (now w) = false ->
  (s <- is_set stop_trigger ;;
   if s then loginfo (RouteCreated filename) ;; return_ else rate_sleep FREQUENCY) env w =
    Result [EvIsSet stop_trigger false; EvRateSleep FREQUENCY] (Normal tt) (tick (tick w)).
Proof. intros H. apply result_ext; monad_simpl; rewrite H; reflexivity. Qed.

(** A wait that has a turn left for every three instants until [T] does not
    run out of turns: the stop trigger is read at every turn. *)
Lemma wait_reaches_stop (cond : unit -> M bool) f : forall w,
  (forall s w, exists t b, cond s env w = Result t (Normal b) (tick w)) ->
  T <= now w + 1 + 3 * f ->
  out (while (S f) cond
         (fun _ =>
            s <- is_set stop_trigger ;;
            if s then loginfo (RouteCreated filename) ;; return_
            else rate_sleep FREQUENCY) tt env w) <> OutOfFuel.
Proof.
  intros w Hcond. revert w.
  induction f as [|f IH]; intros w HT; rewrite while_unfold;
    destruct (Hcond tt w) as (t & b & E); rewrite (bind_known _ _ _ _ _ _ _ E); cbn [out];
    (destruct b; [|discriminate]);
    destruct (event_state env stop_trigger (now (tick w))) eqn:Es;
    try (rewrite (bind_returned _ _ _ _ _ _ (wait_body_stops _ Es)); discriminate).
  - rewrite (stop_set (now (tick w))) in Es by (simpl; lia). discriminate.
  - rewrite (bind_known _ _ _ _ _ _ _ (wait_body_sleeps _ Es)). cbn [out].
    apply IH. simpl. lia.
Qed.

Lemma wait_for_add_reaches_stop f w :
  T <= now w + 1 + 3 * f ->
  out (wait_for_add (S f) filename add_trigger stop_trigger env w) <> OutOfFuel.
Proof.
  apply wait_reaches_stop. intros s w'. eexists. eexists.
  apply result_ext; monad_simpl; reflexivity.
Qed.

Lemma wait_for_release_reaches_stop f w :
  T <= now w + 1 + 3 * f ->
  out (wait_for_release (S f) filename add_trigger stop_trigger env w) <> OutOfFuel.
Proof.
  apply wait_reaches_stop. intros s w'. eexists. eexists. reflexivity.
Qed.

Lemma record_point_reaches_stop f w :
  T <= now w + 1 + 3 * f ->
  out (record_point (S f) filename add_trigger stop_trigger frame_id env w) <> OutOfFuel.
Proof.
  intros HT. unfold record_point. rewrite out_bind.
  pose proof (wait_for_add_reaches_stop f w HT) as Hadd.
  pose proof (wait_for_add_time (S f) env w) as Htime. unfold time_passes in Htime.
  destruct (out (wait_for_add (S f) filename add_trigger stop_trigger env w));
    try discriminate; try congruence.
  monad_simpl. apply wait_for_release_reaches_stop. simpl. lia.
Qed.

Lemma recording_loop_reaches_stop inner g : forall w,
  T <= now w + g -> T <= now w + 1 + 3 * inner ->
  out (while g (fun _ => s <- is_set stop_trigger ;; ret (negb s))
         (fun _ => record_point (S inner) filename add_trigger stop_trigger frame_id)
         tt env w) <> OutOfFuel.
Proof.
  induction g as [|g IH]; intros w Hg Hinner; rewrite while_unfold;
    assert (Hc : (s <- is_set stop_trigger ;; ret (negb s)) env w =
                 Result [EvIsSet stop_trigger (event_state env stop_trigger (now w))]
                        (Normal (negb (event_state env stop_trigger (now w)))) (tick w))
      by (apply result_ext; monad_simpl; reflexivity);
    rewrite (bind_known _ _ _ _ _ _ _ Hc); cbn [out];
    destruct (event_state env stop_trigger (now w)) eqn:Es; cbn [negb]; try discriminate.
  - rewrite (stop_set (now w)) in Es by lia. discriminate.
  - rewrite out_bind.
    pose proof (record_point_reaches_stop inner (tick w)) as Hpoint.
    pose proof (record_point_time (S inner) env (tick w)) as Htime.
    unfold time_passes in Htime. simpl in Htime.
    destruct (out (record_point (S inner) filename add_trigger stop_trigger frame_id env
                     (tick w))) as [[]| | |]; try discriminate.
    + apply IH; lia.
    + exfalso. apply Hpoint; [simpl; lia | reflexivity].
Qed.

Lemma create_route_reaches_stop fuel w :
  T <= now w + fuel ->
  out (create_route fuel filename add_trigger stop_trigger frame_id env w) = Normal tt.
Proof.
  intros HT.
  pose proof (create_route_run filename add_trigger stop_trigger frame_id fuel env w) as Hrun.
  assert (N : out (create_route fuel filename add_trigger stop_trigger frame_id env w)
              <> OutOfFuel).
  { unfold create_route. rewrite out_function_body.
    rewrite out_bind. cbn [open_write out final].
    rewrite out_bind. cbn [loginfo log out final].
    rewrite out_bind.
    match goal with
    | |- context [recording_loop fuel filename add_trigger stop_trigger frame_id env ?w1] =>
        assert (L : out (recording_loop fuel filename add_trigger stop_trigger frame_id
                           env w1) <> OutOfFuel)
    end.
    { unfold recording_loop. destruct fuel as [|f].
      - rewrite while_unfold, out_bind, out_bind. cbn [is_set out final ret now].
        rewrite (stop_set (now w)) by lia. discriminate.
      - apply recording_loop_reaches_stop; simpl; lia. }
    destruct (out (recording_loop fuel filename add_trigger stop_trigger frame_id env _))
      as [[]| | |]; try discriminate. congruence. }
  inversion Hrun; congruence.
Qed.

End RecorderTermination.

Section RecorderFiles.

Context {float_text : FloatText}.
Variables (filename : string) (add_trigger stop_trigger : nat) (frame_id : string).

Lemma keeps_other_files_nil w : keeps_other_files filename w [] w.
Proof. intros other _. reflexivity. Qed.

Lemma keeps_other_files_app w t1 w1 t2 w2 :
  keeps_other_files filename w t1 w1 -> keeps_other_files filename w1 t2 w2 ->
  keeps_other_files filename w (t1 ++ t2) w2.
Proof. intros H1 H2 other Ho. rewrite (H2 other Ho). apply (H1 other Ho). Qed.

Ltac files_steps :=
  repeat (apply (maintains_bind _ keeps_other_files_app); [|intros ?]);
  try apply (maintains_ret _ keeps_other_files_nil);
  try apply (maintains_return _ keeps_other_files_nil);
  try (intros ? ? ? ?; reflexivity).

Lemma wait_body_files :
  maintains (keeps_other_files filename)
    (s <- is_set stop_trigger ;;
     if s then loginfo (RouteCreated filename) ;; return_ else rate_sleep FREQUENCY).
Proof.
  apply (maintains_bind _ keeps_other_files_app).
  - intros env w other _. reflexivity.
  - intros [|]; files_steps.
Qed.

Lemma other_file_eqb other : other <> filename -> String.eqb other filename = false.
Proof. intros H. apply String.eqb_neq. exact H. Qed.

Lemma record_point_files fuel :
  maintains (keeps_other_files filename)
    (record_point fuel filename add_trigger stop_trigger frame_id).
Proof.
  unfold record_point, wait_for_add, wait_for_release.
  apply (maintains_bind _ keeps_other_files_app).
  - apply (maintains_while _ keeps_other_files_nil keeps_other_files_app);
      intros _; [files_steps | apply wait_body_files].
  - intros _. files_steps.
    + intros env w other Ho. simpl. rewrite (other_file_eqb other Ho). reflexivity.
    + apply (maintains_while _ keeps_other_files_nil keeps_other_files_app);
        intros _; [files_steps | apply wait_body_files].
Qed.

Lemma create_route_files fuel :
  maintains (keeps_other_files filename)
    (create_route fuel filename add_trigger stop_trigger frame_id).
Proof.
  unfold create_route. apply maintains_function_body.
  apply (maintains_bind _ keeps_other_files_app).
  - intros env w other Ho. simpl. rewrite (other_file_eqb other Ho). reflexivity.
  - intros _. unfold recording_loop. files_steps.
    apply (maintains_while _ keeps_other_files_nil keeps_other_files_app);
      intros _; [files_steps | apply record_point_files].
Qed.

End RecorderFiles.

Section RecorderClosing.

Variables (filename : string) (add_trigger stop_trigger : nat) (frame_id : string).

Lemma closing_lines_app t1 t2 :
  closing_lines (t1 ++ t2) = closing_lines t1 + closing_lines t2.
Proof. unfold closing_lines. rewrite filter_app, length_app. reflexivity. Qed.

Lemma waits_for_add_closing t o :
  waits_for_add filename add_trigger stop_trigger t o ->
  closes_on_return filename stop_trigger t o.
Proof.
  induction 1 as [| | |t o H [IH1 IH2]]; unfold closes_on_return;
    try (split; [reflexivity | discriminate]).
  - split; [reflexivity|]. intros _. exists [EvIsSet add_trigger false]. reflexivity.
  - split; [rewrite closing_lines_app, IH1; reflexivity|].
    intros Ho. destruct (IH2 Ho) as [before ->].
    exists (idle_tick add_trigger stop_trigger ++ before). rewrite app_assoc. reflexivity.
Qed.

Lemma waits_for_release_closing t o :
  waits_for_release filename add_trigger stop_trigger t o ->
  closes_on_return filename stop_trigger t o.
Proof.
  induction 1 as [| | |t o H [IH1 IH2]]; unfold closes_on_return;
    try (split; [reflexivity | discriminate]).
  - split; [reflexivity|]. intros _. exists [EvIsSet add_trigger true]. reflexivity.
  - split; [rewrite closing_lines_app, IH1; reflexivity|].
    intros Ho. destruct (IH2 Ho) as [before ->].
    exists (held_tick add_trigger stop_trigger ++ before). rewrite app_assoc. reflexivity.
Qed.

Lemma records_point_closing t o :
  records_point filename add_trigger stop_trigger frame_id t o ->
  closes_on_return filename stop_trigger t o.
Proof.
  destruct 1 as [t o H Ho | t1 telem t2 o H1 H2].
  - apply waits_for_add_closing. exact H.
  - destruct (waits_for_add_closing _ _ H1) as [A1 _].
    destruct (waits_for_release_closing _ _ H2) as [R1 R2].
    split.
    + rewrite !closing_lines_app, A1, R1. reflexivity.
    + intros Ho. destruct (R2 Ho) as [before ->].
      exists (t1 ++ capture filename frame_id telem ++ before).
      rewrite <- !app_assoc. reflexivity.
Qed.

Lemma records_closing t o :
  records filename add_trigger stop_trigger frame_id t o ->
  closes_on_return filename stop_trigger t o /\
  (o = Normal tt -> exists before, t = before ++ [EvIsSet stop_trigger true]).
Proof.
  induction 1 as [| |t o H Ho|t1 t2 o H1 H2 [[IH1 IH2] IH3]].
  - split; [split; [reflexivity | discriminate]|]. intros _. exists []. reflexivity.
  - split; [split; [reflexivity | discriminate]|]. discriminate.
  - destruct (records_point_closing _ _ H) as [P1 P2].
    split; [split|].
    + exact P1.
    + intros E. destruct (P2 E) as [before ->].
      exists (EvIsSet stop_trigger false :: before). reflexivity.
    + intros E. congruence.
  - destruct (records_point_closing _ _ H1) as [P1 _].
    split; [split|].
    + change (EvIsSet stop_trigger false :: t1 ++ t2)
        with ([EvIsSet stop_trigger false] ++ t1 ++ t2).
      rewrite !closing_lines_app, P1, IH1. reflexivity.
    + intros E. destruct (IH2 E) as [before ->].
      exists (EvIsSet stop_trigger false :: t1 ++ before).
      simpl. rewrite <- app_assoc. reflexivity.
    + intros E. destruct (IH3 E) as [before ->].
      exists (EvIsSet stop_trigger false :: t1 ++ before).
      simpl. rewrite <- app_assoc. reflexivity.
Qed.

Lemma creates_route_closing t o :
  creates_route filename add_trigger stop_trigger frame_id t o ->
  (o = Normal tt \/ o = OutOfFuel) /\
  closing_lines t = (if is_normal o then 1 else 0) /\
  (o = Normal tt ->
   exists before,
     t = before ++ [EvIsSet stop_trigger true; EvLog INFO (RouteCreated filename)]).
Proof.
  destruct 1 as [t H | t H | t H];
    destruct (records_closing _ _ H) as [[C1 C2] C3].
  - split; [left; reflexivity|]. split.
    + rewrite !closing_lines_app, C1. reflexivity.
    + intros _. destruct (C3 eq_refl) as [before ->].
      exists ([EvOpenWrite filename; EvLog INFO (OpenFile filename)] ++ before).
      rewrite <- !app_assoc. reflexivity.
  - split; [left; reflexivity|]. split.
    + rewrite !closing_lines_app, C1. reflexivity.
    + intros _. destruct (C2 eq_refl) as [before ->].
      exists ([EvOpenWrite filename; EvLog INFO (OpenFile filename)] ++ before).
      reflexivity.
  - split; [right; reflexivity|]. split.
    + rewrite !closing_lines_app, C1. reflexivity.
    + discriminate.
Qed.

End RecorderClosing.

Section RecorderExtras.

Context {float_text : FloatText}.

(** X16.  [create_route] returns once the stop trigger is set for good.  If
    the stop trigger is set from some instant on, every run that is granted
    as many turns as there are instants until then ends, and ends normally:
    no wait of the recorder can outlast the stop trigger, whatever the add
    trigger does. *)
Theorem create_route_returns_once_stopped :
  forall fuel filename add_trigger stop_trigger frame_id env w T,
    set_from env stop_trigger T ->
    T <= now w + fuel ->
    out (create_route fuel filename add_trigger stop_trigger frame_id env w) = Normal tt.
Proof.
  intros fuel filename add_trigger stop_trigger frame_id env w T Hset HT.
  apply (create_route_reaches_stop filename add_trigger stop_trigger frame_id env T Hset).
  exact HT.
Qed.

(** X17.  [create_route] returns only on the stop trigger, and says so once.
    A run either ends normally or is still running when its turns are used
    up.  When it ends, its last two actions are a reading of the stop
    trigger as set and the log line "Route ... is created", and that line is
    logged exactly once, on whichever of the three paths the function
    leaves; a run that has not ended has not logged it. *)
Theorem create_route_returns_on_stop_only :
  forall fuel filename add_trigger stop_trigger frame_id env w,
    let run := create_route fuel filename add_trigger stop_trigger frame_id env w in
    (out run = Normal tt \/ out run = OutOfFuel) /\
    closing_lines (emitted run) = (if is_normal (out run) then 1 else 0) /\
    (out run = Normal tt ->
     exists before,
       emitted run =
         before ++ [EvIsSet stop_trigger true; EvLog INFO (RouteCreated filename)]).
Proof.
  intros. apply creates_route_closing with (add_trigger := add_trigger) (frame_id := frame_id).
  apply create_route_run.
Qed.

(** X18.  [create_route] replaces its file and touches no other.  Whatever
    the file held before, when the function has returned the file holds the
    rows written in that run and nothing else; every other file is as it
    was. *)
Theorem create_route_replaces_its_file_only :
  forall fuel filename add_trigger stop_trigger frame_id env w,
    let run := create_route fuel filename add_trigger stop_trigger frame_id env w in
    out run = Normal tt ->
    fs (final run) filename = Some (route_text (written_rows (emitted run))) /\
    forall other, other <> filename -> fs (final run) other = fs w other.
Proof.
  intros fuel filename add_trigger stop_trigger frame_id env w run _.
  split; [apply create_route_file|].
  apply (create_route_files filename add_trigger stop_trigger frame_id fuel env w).
Qed.

(** X19.  With the stop trigger set from the start, [create_route] creates
    an empty route: it opens (and so empties) the file, reads the stop
    trigger once, logs the closing line and returns, without reading the add
    trigger or the telemetry; and [read_route] on that file returns the
    empty list, not [None]. *)
Theorem create_route_stopped_at_once :
  forall fuel filename add_trigger stop_trigger frame_id env w env',
    event_state env stop_trigger (now w) = true ->
    let run := create_route fuel filename add_trigger stop_trigger frame_id env w in
    emitted run =
      [EvOpenWrite filename; EvLog INFO (OpenFile filename);
       EvIsSet stop_trigger true; EvLog INFO (RouteCreated filename)] /\
    out run = Normal tt /\
    fs (final run) filename = Some "" /\
    read_route filename env' (final run) = Result [] (Normal (Some [])) (final run).
Proof.
  intros fuel filename add_trigger stop_trigger frame_id env w env' Hs run.
  assert (E : run =
              Result [EvOpenWrite filename; EvLog INFO (OpenFile filename);
                      EvIsSet stop_trigger true; EvLog INFO (RouteCreated filename)]
                     (Normal tt)
                     {| now := S (now w);
                        fs := fun f => if String.eqb f filename then Some "" else fs w f |}).
  { unfold run, create_route, recording_loop. rewrite while_unfold.
    apply result_ext; rewrite ?emitted_function_body, ?out_function_body,
      ?final_function_body; monad_simpl; rewrite Hs; reflexivity. }
  rewrite E. cbn [emitted out final fs]. rewrite String.eqb_refl.
  repeat split.
  unfold read_route.
  rewrite (bind_known _ _ _ _ _ _ _
             (eq_refl : open_read filename env' _ = Result [] (Normal _) _)).
  cbn [fs]. rewrite String.eqb_refl.
  destruct (universal_newlines env'); reflexivity.
Qed.

End RecorderExtras.

Lemma create_route_returns_once_stopped_witness :
  out (create_route (float_text := decimal_text) 25 "route.csv" 0 1 "map" two_presses boot) =
    Normal tt.
Proof.
  apply (create_route_returns_once_stopped (float_text := decimal_text) 25 "route.csv" 0 1
           "map" two_presses boot 25).
  - intros i Hi. change (Nat.leb 25 i = true). apply Nat.leb_le. exact Hi.
  - simpl. lia.
Defined.

Lemma create_route_replaces_its_file_only_witness :
  let w := route_file "other.csv" "kept" in
  let run := create_route (float_text := decimal_text) 10 "route.csv" 0 1 "map"
               two_presses w in
  fs (final run) "route.csv" =
    Some (route_text (float_text := decimal_text) (written_rows (emitted run))) /\
  forall other, other <> "route.csv" -> fs (final run) other = fs w other.
Proof.
  apply (create_route_replaces_its_file_only (float_text := decimal_text) 10 "route.csv" 0 1
           "map" two_presses (route_file "other.csv" "kept")).
  vm_compute. reflexivity.
Defined.

Lemma create_route_stopped_at_once_witness :
  let run := create_route (float_text := decimal_text) 0 "route.csv" 0 1 "map"
               both_at_once (later boot 7) in
  emitted run =
    [EvOpenWrite "route.csv"; EvLog INFO (OpenFile "route.csv");
     EvIsSet 1 true; EvLog INFO (RouteCreated "route.csv")] /\
  out run = Normal tt /\
  fs (final run) "route.csv" = Some "" /\
  read_route (float_text := decimal_text) "route.csv" two_presses (final run) =
    Result [] (Normal (Some [])) (final run).
Proof.
  apply (create_route_stopped_at_once (float_text := decimal_text) 0 "route.csv" 0 1 "map"
           both_at_once (later boot 7) two_presses).
  reflexivity.
Defined.

(** ** More about the loader *)

Lemma feed_fields fields : forall st done term,
  st = Csv.START_RECORD \/ st = Csv.START_FIELD ->
  Forall (fun f => plain f = true) fields -> fields <> [] ->
  term = Csv.lineterminator \/ term = String Csv.LF "" \/ term = "" ->
  Csv.feed_line Csv.reader_dialect
    {| Csv.state := st; Csv.field := ""; Csv.fields := done |}
    (joined fields ++ term)%string =
    Normal (record_of (done ++ fields)).
Proof.
  induction fields as [|f rest IH]; intros st done term Hst Hplain Hne Hterm; [congruence|].
  inversion Hplain as [|? ? Hf Hrest]; subst.
  destruct rest as [|g rest].
  - cbn [joined]. rewrite feed_line_app, (feed_chars_plain _ _ f Hst Hf). cbn [bind_pure].
    destruct Hterm as [-> | [-> | ->]]; reflexivity.
  - change (joined (f :: g :: rest))
      with (f ++ String ","%char (joined (g :: rest)))%string.
    rewrite string_app_assoc, feed_line_app, (feed_chars_plain _ _ f Hst Hf).
    cbn [bind_pure]. cbn [append Csv.feed_line].
    change (Ascii.eqb ","%char Csv.NUL) with false. cbv iota.
    change (Csv.parse_process_char Csv.reader_dialect (in_field done f) (Some ","%char))
      with (Normal {| Csv.state := Csv.START_FIELD; Csv.field := "";
                      Csv.fields := done ++ [f] |}).
    cbn [bind_pure].
    rewrite (IH Csv.START_FIELD (done ++ [f]) term (or_intror eq_refl) Hrest
               ltac:(discriminate) Hterm).
    rewrite <- app_assoc. reflexivity.
Qed.

Lemma feed_blank_line crlf :
  Csv.feed_line Csv.reader_dialect Csv.parse_reset (line_end crlf) = Normal (record_of []).
Proof. destruct crlf; reflexivity. Qed.

(** A line of plain fields, none for a blank line, is the record of its
    fields. *)
Lemma feed_line_fields fields crlf :
  Forall (fun f => plain f = true) fields ->
  Csv.feed_line Csv.reader_dialect Csv.parse_reset (joined fields ++ line_end crlf)%string =
    Normal (record_of fields).
Proof.
  intros Hplain. destruct fields as [|f rest].
  - apply feed_blank_line.
  - apply (feed_fields (f :: rest) Csv.START_RECORD [] (line_end crlf));
      [left; reflexivity | exact Hplain | discriminate |].
    destruct crlf; [left | right; left]; reflexivity.
Qed.

Lemma joined_no_newline fields :
  Forall (fun f => plain f = true) fields ->
  Csv.string_exists Csv.is_newline (joined fields) = false.
Proof.
  induction fields as [|f rest IH]; intros H; [reflexivity|].
  inversion H as [|? ? Hf Hrest]; subst.
  destruct (plain_inv _ Hf) as (Bf & _ & _).
  destruct (plain_no_newline f Bf) as [Nf _].
  destruct rest as [|g rest]; [exact Nf|].
  change (joined (f :: g :: rest))
    with (f ++ String ","%char (joined (g :: rest)))%string.
  rewrite string_exists_app, Nf. simpl. apply IH. exact Hrest.
Qed.

Lemma no_newline_no_lf s :
  Csv.string_exists Csv.is_newline s = false ->
  Csv.string_exists (fun c => Ascii.eqb c Csv.LF) s = false /\
  Csv.string_exists (fun c => Ascii.eqb c Csv.LF) (s ++ String Csv.CR "") = false.
Proof.
  induction s as [|c s IH]; simpl; intros H; [split; reflexivity|].
  apply orb_false_elim in H. destruct H as [Hc Hs].
  unfold Csv.is_newline in Hc. apply orb_false_elim in Hc. destruct Hc as [_ Hlf].
  destruct (IH Hs) as [I1 I2]. rewrite Hlf, I1, I2. split; reflexivity.
Qed.

Lemma translate_newlines_lf body rest :
  Csv.string_exists Csv.is_newline body = false ->
  Csv.translate_newlines false (body ++ String Csv.LF rest) =
    (body ++ String Csv.LF (Csv.translate_newlines false rest))%string.
Proof.
  induction body as [|c body IH]; intros H; simpl in *; [reflexivity|].
  apply orb_false_elim in H. destruct H as [Hc Hb].
  unfold Csv.is_newline in Hc. apply orb_false_elim in Hc. destruct Hc as [Hcr Hlf].
  rewrite Hcr, Hlf. simpl. rewrite (IH Hb). reflexivity.
Qed.

Lemma translate_newlines_none body :
  Csv.string_exists Csv.is_newline body = false ->
  Csv.translate_newlines false body = body.
Proof.
  induction body as [|c body IH]; intros H; simpl in *; [reflexivity|].
  apply orb_false_elim in H. destruct H as [Hc Hb].
  unfold Csv.is_newline in Hc. apply orb_false_elim in Hc. destruct Hc as [Hcr Hlf].
  rewrite Hcr, Hlf. simpl. rewrite (IH Hb). reflexivity.
Qed.

Lemma lines_of_last body :
  Csv.string_exists (fun c => Ascii.eqb c Csv.LF) body = false -> body <> "" ->
  Csv.lines_of body = [body].
Proof.
  induction body as [|c body IH]; intros H Hne; [congruence|].
  simpl in *. apply orb_false_elim in H. destruct H as [Hc Hb]. rewrite Hc.
  destruct body as [|c' body']; [reflexivity|].
  rewrite (IH Hb ltac:(discriminate)). reflexivity.
Qed.

(** The lines of a text that starts with a line, whichever way it ends;
    universal newlines turn CR LF into LF. *)
Lemma file_lines_line universal body crlf rest :
  Csv.string_exists Csv.is_newline body = false ->
  Csv.file_lines universal ((body ++ line_end crlf) ++ rest)%string =
    (body ++ line_end (crlf && negb universal))%string :: Csv.file_lines universal rest.
Proof.
  intros N. destruct (no_newline_no_lf body N) as [N1 N2].
  unfold Csv.file_lines, line_end. destruct universal, crlf; cbn [andb negb].
  - rewrite string_app_assoc, (translate_newlines_line _ _ N).
    apply lines_of_line. exact N1.
  - rewrite string_app_assoc. cbn [append].
    rewrite (translate_newlines_lf _ _ N). apply lines_of_line. exact N1.
  - replace ((body ++ Csv.lineterminator) ++ rest)%string
      with ((body ++ String Csv.CR "") ++ String Csv.LF rest)%string
      by (rewrite !string_app_assoc; reflexivity).
    rewrite (lines_of_line _ _ N2), string_app_assoc. reflexivity.
  - rewrite string_app_assoc. cbn [append]. apply lines_of_line. exact N1.
Qed.

Lemma file_lines_last universal body :
  Csv.string_exists Csv.is_newline body = false -> body <> "" ->
  Csv.file_lines universal body = [body].
Proof.
  intros N Hne. destruct (no_newline_no_lf body N) as [N1 _].
  unfold Csv.file_lines. destruct universal.
  - rewrite (translate_newlines_none _ N). apply lines_of_last; assumption.
  - apply lines_of_last; assumption.
Qed.

Section ReadingRoutes.

Context {float_text : FloatText}.

Lemma for_rows_route_text_then universal rows rest : forall acc,
  Forall is_triple rows -> Forall (Forall reads_back) rows ->
  Csv.for_rows Csv.reader_dialect
    (Csv.file_lines universal (route_text rows ++ rest)%string)
    Csv.parse_reset import_row acc =
  Csv.for_rows Csv.reader_dialect (Csv.file_lines universal rest)
    Csv.parse_reset import_row (acc ++ map row_point rows).
Proof.
  induction rows as [|row rows IH]; intros acc H3 Hok.
  - simpl. rewrite app_nil_r. reflexivity.
  - inversion H3 as [|? ? Hrow H3']; subst. inversion Hok as [|? ? Hvals Hok']; subst.
    destruct row as [|x [|y [|z [|? ?]]]]; try discriminate. clear Hrow.
    inversion Hvals as [|? ? Hx Hvals1]; subst.
    inversion Hvals1 as [|? ? Hy Hvals2]; subst.
    inversion Hvals2 as [|? ? Hz _]; subst.
    destruct (plain_inv _ (proj1 Hx)) as (Bx & _ & _).
    destruct (plain_inv _ (proj1 Hy)) as (By & _ & _).
    destruct (plain_inv _ (proj1 Hz)) as (Bz & _ & _).
    cbn [route_text map].
    rewrite (format_row_three _ _ _ Bx By Bz), string_app_assoc.
    rewrite (file_lines_row _ _ _ _ _ Bx By Bz).
    cbn [Csv.for_rows].
    replace (if universal then String Csv.LF "" else Csv.lineterminator)
      with (if negb universal then Csv.lineterminator else String Csv.LF "")
      by (destruct universal; reflexivity).
    rewrite (feed_line_row _ _ _ _ (proj1 Hx) (proj1 Hy) (proj1 Hz)).
    cbn [bind_pure Csv.state Csv.fields].
    rewrite (import_row_reads_back x y z acc Hx Hy Hz).
    cbn [bind_pure]. rewrite (IH _ H3' Hok'), <- app_assoc. reflexivity.
Qed.

Lemma import_row_rejects fields acc :
  List.length fields <> 3 \/ (exists f, In f fields /\ float_of_string f = None) ->
  import_row fields acc = Raised ValueError.
Proof.
  intros H. destruct fields as [|x [|y [|z [|? ?]]]]; try reflexivity.
  destruct H as [H | (f & Hin & Hf)]; [simpl in H; congruence|].
  unfold import_row, float_.
  destruct (float_of_string x) eqn:Ex; [|reflexivity].
  destruct (float_of_string y) eqn:Ey; [|reflexivity].
  destruct (float_of_string z) eqn:Ez; [|reflexivity].
  simpl in Hin. destruct Hin as [<- | [<- | [<- | []]]]; congruence.
Qed.

(** X20.  [read_route] catches nothing but the failure to open the file.  A
    line that is not three numbers makes it raise [ValueError], whatever
    comes before and after: a blank line, a line with fewer or more than
    three fields (the unpacking [x, y, z = row] fails), or a field that
    [float] does not read.  Nothing is logged and the points read so far are
    lost with the exception. *)
Theorem read_route_rejects_malformed_rows :
  forall filename env w rows fields crlf rest,
    Forall is_triple rows -> Forall (Forall reads_back) rows ->
    Forall (fun f => plain f = true) fields ->
    List.length fields <> 3 \/ (exists f, In f fields /\ float_of_string f = None) ->
    fs w filename =
      Some (route_text rows ++ (joined fields ++ line_end crlf) ++ rest)%string ->
    read_route filename env w = Result [] (Raised ValueError) w.
Proof.
  intros filename env w rows fields crlf rest H3 Hok Hplain Hbad Hfile.
  unfold read_route.
  rewrite (bind_known _ _ _ _ _ _ _
             (eq_refl : open_read filename env w = Result [] (Normal (fs w filename)) w)).
  rewrite Hfile. cbn [app].
  assert (E : Csv.for_rows Csv.reader_dialect
                (Csv.file_lines (universal_newlines env)
                   (route_text rows ++ (joined fields ++ line_end crlf) ++ rest)%string)
                Csv.parse_reset import_row [] = Raised ValueError).
  { rewrite (for_rows_route_text_then _ _ _ _ H3 Hok).
    rewrite (file_lines_line _ _ _ _ (joined_no_newline _ Hplain)).
    cbn [Csv.for_rows]. rewrite (feed_line_fields _ _ Hplain).
    cbn [bind_pure record_of Csv.state Csv.fields].
    rewrite (import_row_rejects _ _ Hbad). reflexivity. }
  apply result_ext; monad_simpl; rewrite E; reflexivity.
Qed.

Lemma point_text_plain p :
  point_reads_back p ->
  Csv.string_exists Csv.is_newline (point_text p) = false /\ point_text p <> "".
Proof.
  intros (Hx & Hy & Hz). split.
  - apply (joined_no_newline [float_repr (point_x p); float_repr (point_y p);
                              float_repr (point_z p)]).
    repeat constructor; [apply Hx | apply Hy | apply Hz].
  - destruct (plain_inv _ (proj1 Hx)) as (_ & Hne & _).
    unfold point_text, row_body.
    destruct (float_repr (point_x p)); [congruence | discriminate].
Qed.

Lemma import_point p acc :
  point_reads_back p ->
  import_row [float_repr (point_x p); float_repr (point_y p); float_repr (point_z p)] acc =
    Normal (acc ++ [p]).
Proof.
  intros (Hx & Hy & Hz). rewrite (import_row_reads_back _ _ _ acc Hx Hy Hz).
  destruct p; reflexivity.
Qed.

Lemma for_rows_hand_written universal last ps : forall acc,
  Forall (fun pc => point_reads_back (fst pc)) ps ->
  Forall point_reads_back (unterminated last) ->
  Csv.for_rows Csv.reader_dialect (Csv.file_lines universal (hand_written ps last))
    Csv.parse_reset import_row acc =
  Normal (acc ++ map fst ps ++ unterminated last).
Proof.
  induction ps as [|[p crlf] ps IH]; intros acc Hps Hlast.
  - destruct last as [p|]; cbn [hand_written map unterminated app].
    + inversion Hlast as [|? ? Hp _]; subst.
      destruct (point_text_plain p Hp) as [N Hne].
      rewrite (file_lines_last _ _ N Hne). cbn [Csv.for_rows].
      replace (point_text p) with
        (joined [float_repr (point_x p); float_repr (point_y p); float_repr (point_z p)]
           ++ "")%string
        by (rewrite string_app_nil_r; reflexivity).
      unfold Csv.parse_reset.
      rewrite (feed_fields _ Csv.START_RECORD [] "" (or_introl eq_refl));
        [| destruct Hp as (Hx & Hy & Hz); repeat constructor;
           [apply Hx | apply Hy | apply Hz]
         | discriminate | right; right; reflexivity].
      cbn [bind_pure record_of Csv.state Csv.fields app].
      rewrite (import_point p acc Hp). reflexivity.
    + destruct universal; simpl; rewrite app_nil_r; reflexivity.
  - inversion Hps as [|? ? Hp Hps']; subst. cbn [fst] in Hp.
    destruct (point_text_plain p Hp) as [N Hne].
    cbn [hand_written map fst].
    rewrite <- string_app_assoc, (file_lines_line _ _ _ _ N).
    cbn [Csv.for_rows].
    destruct Hp as (Hx & Hy & Hz).
    unfold point_text, line_end.
    rewrite (feed_line_row _ _ _ _ (proj1 Hx) (proj1 Hy) (proj1 Hz)).
    cbn [bind_pure Csv.state Csv.fields].
    rewrite (import_point p acc (conj Hx (conj Hy Hz))). cbn [bind_pure].
    rewrite (IH _ Hps' Hlast), <- app_assoc. reflexivity.
Qed.

(** X21.  [read_route] reads route files written by hand as well as those
    the recorder writes.  Each line may end with CR LF or with LF alone, and
    the last line may have no line end at all: the points come back the same,
    in order, with or without newline translation on the file. *)
Theorem read_route_accepts_either_line_end :
  forall filename env w ps last,
    Forall (fun pc => point_reads_back (fst pc)) ps ->
    Forall point_reads_back (unterminated last) ->
    fs w filename = Some (hand_written ps last) ->
    read_route filename env w =
      Result [] (Normal (Some (map fst ps ++ unterminated last))) w.
Proof.
  intros filename env w ps last Hps Hlast Hfile. unfold read_route.
  rewrite (bind_known _ _ _ _ _ _ _
             (eq_refl : open_read filename env w = Result [] (Normal (fs w filename)) w)).
  rewrite Hfile. cbn [app].
  apply result_ext; monad_simpl;
    rewrite (for_rows_hand_written (universal_newlines env) last ps [] Hps Hlast);
    reflexivity.
Qed.

(** X22.  Recording, loading and playing compose.  When the text written
    for every coordinate reads back as the coordinate, [read_route] on the
    file [create_route] leaves returns a route, and [fly_route] without an
    altitude override, played to its end on that route with any flight
    function, calls it once for each pose the recorder sampled, in the order
    of sampling, with the pose's x, y and z. *)
Theorem recorded_route_is_flown :
  forall fuel filename add_trigger stop_trigger frame_id env w env'
         flight_function delay speed frame_id' env'' w'',
    let recording := create_route fuel filename add_trigger stop_trigger frame_id env w in
    let poses := samples (emitted recording) in
    Forall (fun telem => Forall reads_back (telemetry_row telem)) poses ->
    exists route,
      read_route filename env' (final recording) =
        Result [] (Normal (Some route)) (final recording) /\
      let flight := fly_route route flight_function nan delay speed frame_id' env'' w'' in
      (out flight = Normal tt ->
       calls (emitted flight) = map (pose_args speed frame_id') poses).
Proof.
  intros fuel filename add_trigger stop_trigger frame_id env w env' f delay speed frame_id'
    env'' w'' recording poses Hok.
  exists (map telemetry_point poses). split.
  - assert (Hfile : fs (final recording) filename =
                    Some (route_text (map telemetry_row poses))).
    { unfold recording, poses. rewrite create_route_file. f_equal. f_equal.
      apply (creates_route_rows filename add_trigger stop_trigger frame_id _ _
               (create_route_run filename add_trigger stop_trigger frame_id fuel env w)). }
    rewrite (read_route_text filename env' (final recording) _ Hfile).
    + rewrite map_map. reflexivity.
    + apply Forall_map. apply Forall_forall. intros telem _. reflexivity.
    + apply Forall_map. exact Hok.
  - intros flight Hout. unfold flight in *.
    rewrite (fly_route_calls _ _ _ _ _ _ _ _ Hout).
    rewrite map_map. reflexivity.
Qed.

End ReadingRoutes.

Lemma read_route_rejects_malformed_rows_witness :
  let text := (route_text (float_text := decimal_text) [[1; 2; 3]%float] ++
               (joined ["1.0"; "2.0"] ++ line_end true) ++ "")%string in
  read_route (float_text := decimal_text) "route.csv" (hovering 0 0 0)
    (route_file "route.csv" text) =
    Result [] (Raised ValueError) (route_file "route.csv" text).
Proof.
  apply (read_route_rejects_malformed_rows (float_text := decimal_text) "route.csv"
           (hovering 0 0 0) _ [[1; 2; 3]%float] ["1.0"; "2.0"] true "").
  - repeat constructor.
  - repeat (apply Forall_cons || apply Forall_nil || split); vm_compute; reflexivity.
  - repeat constructor.
  - left. discriminate.
  - reflexivity.
Defined.

Lemma read_route_accepts_either_line_end_witness :
  let text := hand_written (float_text := decimal_text)
                [(Point 1 2 3, false); (Point 4.5 (-1.25) 0, true)] (Some (Point 7 8 9)) in
  read_route (float_text := decimal_text) "route.csv" two_presses
    (route_file "route.csv" text) =
    Result [] (Normal (Some (map fst [(Point 1 2 3, false); (Point 4.5 (-1.25) 0, true)] ++
                             unterminated (Some (Point 7 8 9)))))
           (route_file "route.csv" text).
Proof.
  apply (read_route_accepts_either_line_end (float_text := decimal_text) "route.csv"
           two_presses _ [(Point 1 2 3, false); (Point 4.5 (-1.25) 0, true)]
           (Some (Point 7 8 9))).
  - repeat (apply Forall_cons || apply Forall_nil || split); vm_compute; reflexivity.
  - repeat (apply Forall_cons || apply Forall_nil || split); vm_compute; reflexivity.
  - reflexivity.
Defined.

Lemma recorded_route_is_flown_witness :
  let recording := create_route (float_text := decimal_text) 10 "route.csv" 0 1 "map"
                     two_presses boot in
  let poses := samples (emitted recording) in
  exists route,
    read_route (float_text := decimal_text) "route.csv" two_presses (final recording) =
      Result [] (Normal (Some route)) (final recording) /\
    let flight := fly_route route navigate_kw nan 0x1.999999999999ap-4 SPEED LOCAL_FRAME_ID
                    (hovering 0 0 0) boot in
    (out flight = Normal tt ->
     calls (emitted flight) = map (pose_args SPEED LOCAL_FRAME_ID) poses).
Proof.
  apply (recorded_route_is_flown (float_text := decimal_text) 10 "route.csv" 0 1 "map"
           two_presses boot two_presses navigate_kw 0x1.999999999999ap-4 SPEED
           LOCAL_FRAME_ID (hovering 0 0 0) boot).
  replace (samples (emitted (create_route (float_text := decimal_text) 10 "route.csv" 0 1
                               "map" two_presses boot)))
    with [Telemetry 1 2 3; Telemetry 4.5 (-1.25) 0] by (vm_compute; reflexivity).
  repeat (apply Forall_cons || apply Forall_nil || split); vm_compute; reflexivity.
Defined.
